(** * sp: a string formatting micro-library

    A shallow embedding of [include/sp.hpp] (the [Output] sink, the spec
    parser [parse_format], the renderers [format_int], [format_string],
    [format_float], the dispatcher [format_index] and the template engine
    [format]) and of the integer renderer of [include/printf.hpp], followed by
    the properties of the specification that concern them.

    Conventions of the embedding.
    - A [char] is an [ascii]; a [StringView] (pointer and length) is the list
      of the characters it designates.
    - An [int32_t] is a [Z]; every arithmetic operation the source performs on
      an [int32_t] is followed by [wrap32], the two's complement wrap-around
      of the usual implementations (signed overflow is undefined behaviour in
      C++).  A [uint64_t] or [size_t] is a [Z] reduced modulo [2^64].
    - A pointer into the template or into the caller's buffer is the offset
      (a [nat]) of the designated character; a null pointer is [None].
    - The C run-time library ([std::fwrite], [snprintf] on floating point
      values) is a parameter of the development, the class [Host]. *)

From Stdlib Require Import String.
From Stdlib Require Import NArith ZArith List Ascii Bool Lia.
Import ListNotations.

Local Open Scope char_scope.
Local Open Scope Z_scope.

(** ** Machine integers *)

Definition wrap32 (z : Z) : Z := (z + 2 ^ 31) mod 2 ^ 32 - 2 ^ 31.

Definition to_size_t (z : Z) : Z := z mod 2 ^ 64.

Definition to_uint64 (z : Z) : Z := z mod 2 ^ 64.

Definition INT64_MIN : Z := - 2 ^ 63.

Definition in_int32 (z : Z) : Prop := - 2 ^ 31 <= z < 2 ^ 31.

(** ** Characters *)

Definition code (ch : ascii) : Z := Z.of_N (N_of_ascii ch).

Definition is_digit (ch : ascii) : bool :=
  (code "0" <=? code ch) && (code ch <=? code "9").

Definition text (s : string) : list ascii := list_ascii_of_string s.

Arguments text s%_string.

(** The characters of [s] from offset [from] up to offset [to], the span
    [(to - from, s + from)] of the source. *)
Definition span (s : list ascii) (from to : nat) : list ascii :=
  firstn (to - from) (skipn from s).

(** [memcpy (mem + at, data, length data)].  The source only stores inside the
    caller's array; a store past its end is undefined behaviour there. *)
Definition store (mem : list ascii) (at_ : nat) (data : list ascii)
  : list ascii :=
  firstn at_ mem ++ data ++ skipn (at_ + length data) mem.

(** ** The host run-time library *)

Class Host := {
  (** [FILE]: the state of a stream. *)
  Stream : Type;
  (** [std::fwrite (data, 1, bytes, stream)]: the stream afterwards and the
      count of bytes written. *)
  fwrite : Stream -> list ascii -> Stream * Z;
  (** [float] and [double] values. *)
  Float : Type;
  (** [value *= 100]. *)
  float_scale100 : Float -> Float;
  (** [value < 0]. *)
  float_negative : Float -> bool;
  (** The characters [snprintf] produces for a value under the format
      ["%+.<precision><type>"], followed by a percent sign when the flag is
      set. *)
  snprintf_float : Z -> ascii -> bool -> Float -> list ascii
}.

Section Sp.

Context `{Host}.

(** ** Output *)

Record Output := {
  m_stream : option Stream;
  (** the array of the caller that [m_buffer] points into *)
  m_memory : list ascii;
  (** the offset of the pointer [m_buffer] in that array *)
  m_buffer : nat;
  m_size : Z;
  m_length : Z
}.

(** [Output::Output ()], given the state of standard out. *)
Definition Output_stdout (stdout : Stream) : Output :=
  {| m_stream := Some stdout; m_memory := []; m_buffer := 0%nat;
     m_size := 0; m_length := 0 |}.

(** [Output::Output (char buffer[], size_t size)]. *)
Definition Output_buffer (buffer : list ascii) (size : Z) : Output :=
  {| m_stream := None; m_memory := buffer; m_buffer := 0%nat;
     m_size := wrap32 size; m_length := 0 |}.

(** [Output::Output (FILE* stream)]. *)
Definition Output_stream (stream : Stream) : Output :=
  {| m_stream := Some stream; m_memory := []; m_buffer := 0%nat;
     m_size := 0; m_length := 0 |}.

Definition result (o : Output) : Z := m_length o.

(** [Output::write (size_t bytes, const void* data)], with [bytes] the length
    of [data]. *)
Definition write (o : Output) (data : list ascii) : Output :=
  let bytes := Z.of_nat (length data) in
  if 0 <=? m_length o then
    match m_stream o with
    | Some stream =>
        let '(stream', written) := fwrite stream data in
        if written =? bytes then
          {| m_stream := Some stream'; m_memory := m_memory o;
             m_buffer := m_buffer o; m_size := m_size o;
             m_length := wrap32 (m_length o + wrap32 written) |}
        else
          {| m_stream := Some stream'; m_memory := m_memory o;
             m_buffer := m_buffer o; m_size := m_size o;
             m_length := -1 |}
    | None =>
        let length' := wrap32 (m_length o + wrap32 bytes) in
        if m_size o =? 0 then
          {| m_stream := None; m_memory := m_memory o;
             m_buffer := m_buffer o; m_size := m_size o;
             m_length := length' |}
        else
          let toCopy := Z.min (to_size_t (to_size_t (m_size o) - 1)) bytes in
          let copied := firstn (Z.to_nat toCopy) data in
          let memory1 := store (m_memory o) (m_buffer o) copied in
          let memory2 :=
            store memory1 (m_buffer o + Z.to_nat toCopy) [zero] in
          {| m_stream := None; m_memory := memory2;
             m_buffer := (m_buffer o + Z.to_nat toCopy)%nat;
             m_size := wrap32 (m_size o - wrap32 toCopy);
             m_length := length' |}
    end
  else o.

(** [Output::write (char ch)]. *)
Definition write_char (o : Output) (ch : ascii) : Output := write o [ch].

(** A sequence of calls of [write], in order. *)
Definition writes (o : Output) (chunks : list (list ascii)) : Output :=
  fold_left write chunks o.

(** [extends o o']: [o'] is [o] after some calls of [write]. *)
Definition extends (o o' : Output) : Prop :=
  exists chunks, o' = writes o chunks.

(** The count of characters requested by a sequence of writes. *)
Definition requested (chunks : list (list ascii)) : Z :=
  Z.of_nat (length (concat chunks)).

(** The state of a buffer output of capacity [cap] over the array [buffer]
    after writes whose data, one after the other, is [sent]. *)
Definition buffer_state (buffer : list ascii) (cap : Z) (sent : list ascii)
    (o : Output) : Prop :=
  let k := Z.to_nat (Z.min (Z.of_nat (length sent)) (cap - 1)) in
  m_stream o = None
  /\ m_length o = Z.of_nat (length sent)
  /\ m_buffer o = k
  /\ m_size o = cap - Z.of_nat k
  /\ exists x, m_memory o = firstn k sent ++ x :: skipn (k + 1) buffer.

(** ** FormatFlags and the spec parser *)

Record FormatFlags := {
  fill : ascii;
  align : ascii;
  sign : ascii;
  alternate : bool;
  width : Z;
  precision : Z;
  type : ascii
}.

(** [FormatFlags{}]: the default member initialisers. *)
Definition FormatFlags_default : FormatFlags :=
  {| fill := zero; align := zero; sign := zero; alternate := false;
     width := -1; precision := -1; type := zero |}.

Definition set_fill_align (f : FormatFlags) (fl al : ascii) : FormatFlags :=
  {| fill := fl; align := al; sign := sign f; alternate := alternate f;
     width := width f; precision := precision f; type := type f |}.

Definition set_align (f : FormatFlags) (al : ascii) : FormatFlags :=
  set_fill_align f (fill f) al.

Definition set_sign (f : FormatFlags) (s : ascii) : FormatFlags :=
  {| fill := fill f; align := align f; sign := s; alternate := alternate f;
     width := width f; precision := precision f; type := type f |}.

Definition set_alternate (f : FormatFlags) (a : bool) : FormatFlags :=
  {| fill := fill f; align := align f; sign := sign f; alternate := a;
     width := width f; precision := precision f; type := type f |}.

Definition set_width (f : FormatFlags) (w : Z) : FormatFlags :=
  {| fill := fill f; align := align f; sign := sign f;
     alternate := alternate f; width := w; precision := precision f;
     type := type f |}.

Definition set_precision (f : FormatFlags) (p : Z) : FormatFlags :=
  {| fill := fill f; align := align f; sign := sign f;
     alternate := alternate f; width := width f; precision := p;
     type := type f |}.

Definition set_type (f : FormatFlags) (t : ascii) : FormatFlags :=
  {| fill := fill f; align := align f; sign := sign f;
     alternate := alternate f; width := width f; precision := precision f;
     type := t |}.

Inductive ParseState :=
| STATE_ALIGN
| STATE_SIGN
| STATE_ALTERNATE
| STATE_WIDTH
| STATE_PRECISION
| STATE_TYPE
| STATE_DONE.

(** The lambda [isAlign] of [parse_format]. *)
Definition isAlign (ch : ascii) : bool :=
  ((code "<" <=? code ch) && (code ch <=? code ">")) || Ascii.eqb ch "^".

(** The type characters accepted by the [STATE_TYPE] case of [parse_format]. *)
Definition is_type_char (ch : ascii) : bool :=
  existsb (Ascii.eqb ch) (text "bdeEfFgGosxX%").

(** The variables of the loop of [parse_format]. *)
Record Parse := {
  p_state : ParseState;
  p_next : nat;
  p_flags : FormatFlags
}.

(** One iteration of the loop of [parse_format], entered with
    [next < term]: [None] is the [return false] of [STATE_DONE]. *)
Definition parse_step (fmt : list ascii) (p : Parse) : option Parse :=
  let term := length fmt in
  let ptr := p_next p in
  let next := S ptr in
  let ch := nth ptr fmt zero in
  let flags := p_flags p in
  match p_state p with
  | STATE_ALIGN =>
      if (next <? term)%nat && isAlign (nth next fmt zero) then
        Some {| p_state := STATE_SIGN; p_next := S next;
                p_flags := set_fill_align flags ch (nth next fmt zero) |}
      else if isAlign ch then
        Some {| p_state := STATE_SIGN; p_next := next;
                p_flags := set_align flags ch |}
      else
        Some {| p_state := STATE_SIGN; p_next := ptr; p_flags := flags |}
  | STATE_SIGN =>
      if Ascii.eqb ch "+" || Ascii.eqb ch "-" || Ascii.eqb ch " " then
        Some {| p_state := STATE_ALTERNATE; p_next := next;
                p_flags := set_sign flags ch |}
      else
        Some {| p_state := STATE_ALTERNATE; p_next := ptr; p_flags := flags |}
  | STATE_ALTERNATE =>
      if Ascii.eqb ch "#" then
        Some {| p_state := STATE_WIDTH; p_next := next;
                p_flags := set_alternate flags true |}
      else
        Some {| p_state := STATE_WIDTH; p_next := ptr; p_flags := flags |}
  | STATE_WIDTH =>
      if is_digit ch then
        let flags1 :=
          if width flags <? 0 then
            set_width
              (if Ascii.eqb ch "0" then set_fill_align flags "0" "="
               else flags) 0
          else flags in
        Some {| p_state := STATE_WIDTH; p_next := next;
                p_flags :=
                  set_width flags1
                    (wrap32 (wrap32 (width flags1 * 10)
                             + (code ch - code "0"))) |}
      else
        Some {| p_state := STATE_PRECISION; p_next := ptr; p_flags := flags |}
  | STATE_PRECISION =>
      if (precision flags <? 0) && Ascii.eqb ch "." then
        Some {| p_state := STATE_PRECISION; p_next := next;
                p_flags := set_precision flags 0 |}
      else if (0 <=? precision flags) && is_digit ch then
        Some {| p_state := STATE_PRECISION; p_next := next;
                p_flags :=
                  set_precision flags
                    (wrap32 (wrap32 (precision flags * 10)
                             + (code ch - code "0"))) |}
      else
        Some {| p_state := STATE_TYPE; p_next := ptr; p_flags := flags |}
  | STATE_TYPE =>
      if is_type_char ch then
        Some {| p_state := STATE_DONE; p_next := next;
                p_flags := set_type flags ch |}
      else
        Some {| p_state := STATE_DONE; p_next := ptr; p_flags := flags |}
  | STATE_DONE => None
  end.

(** The loop [while (next < term)] of [parse_format], at most [fuel]
    iterations of it. *)
Fixpoint parse_loop (fuel : nat) (fmt : list ascii) (p : Parse)
  : bool * FormatFlags :=
  match fuel with
  | O => (true, p_flags p)
  | S fuel' =>
      if (p_next p <? length fmt)%nat then
        match parse_step fmt p with
        | None => (false, p_flags p)
        | Some p' => parse_loop fuel' fmt p'
        end
      else (true, p_flags p)
  end.

(** A bound on the iterations of the loop: an iteration that does not
    consume a character moves to a later state. *)
Definition parse_rank (s : ParseState) : nat :=
  match s with
  | STATE_ALIGN => 6
  | STATE_SIGN => 5
  | STATE_ALTERNATE => 4
  | STATE_WIDTH => 3
  | STATE_PRECISION => 2
  | STATE_TYPE => 1
  | STATE_DONE => 0
  end.

Definition parse_measure (fmt : list ascii) (p : Parse) : nat :=
  (7 * (length fmt - p_next p) + parse_rank (p_state p))%nat.

(** [parse_format (fmt, flags)]: the returned flag and [*flags]. *)
Definition parse_format (fmt : list ascii) : bool * FormatFlags :=
  let p := {| p_state := STATE_ALIGN; p_next := 0%nat;
              p_flags := FormatFlags_default |} in
  parse_loop (S (parse_measure fmt p)) fmt p.

(** ** Renderers *)

(** The loops [while (leadSpace--)] and [while (tailSpace--)]: one
    [output.write (fill)] per iteration.  A count that starts negative is
    decremented through the wrap-around until it reaches zero. *)
Definition write_padding (o : Output) (fill_ : ascii) (count : Z) : Output :=
  N.iter (Z.to_N (count mod 2 ^ 32)) (fun o' => write_char o' fill_) o.

(** The case ['^'] of the alignment switch: [(leadSpace, tailSpace)]. *)
Definition center_spacing (width_ nchars : Z) : Z * Z :=
  let leadSpace := wrap32 (Z.quot width_ 2 - Z.quot (wrap32 (nchars + 1)) 2) in
  let tailSpace := wrap32 (Z.quot (wrap32 (width_ + 1)) 2 - Z.quot nchars 2) in
  let odd := Z.land (wrap32 (wrap32 (width_ - nchars) - 1)) 1 in
  (wrap32 (leadSpace + odd), wrap32 (tailSpace - odd)).

(** The base selected by the type flag in [format_int]. *)
Definition int_base (t : ascii) : Z :=
  if Ascii.eqb t "b" then 2
  else if Ascii.eqb t "o" then 8
  else if Ascii.eqb t "x" || Ascii.eqb t "X" then 16
  else 10.

Definition digitchars (t : ascii) : list ascii :=
  if Ascii.eqb t "X" then text "0123456789ABCDEF"
  else text "0123456789abcdef".

(** The loop [do ... while (v)] of [format_int], which fills the buffer from
    its end: the characters from [digits] on, and [ndigits]. *)
Fixpoint digits_loop (fuel : nat) (base : Z) (chars : list ascii) (v : Z)
    (digits : list ascii) (ndigits : Z) : list ascii * Z :=
  match fuel with
  | O => (digits, ndigits)
  | S fuel' =>
      let digits' := nth (Z.to_nat (v mod base)) chars zero :: digits in
      let v' := v / base in
      let ndigits' := ndigits + 1 in
      if v' =? 0 then (digits', ndigits')
      else digits_loop fuel' base chars v' digits' ndigits'
  end.

(** The alternate form prefix of [format_int]. *)
Definition alternate_prefix (flags : FormatFlags) (base : Z)
    (digits : list ascii) (ndigits : Z) : list ascii * Z :=
  if alternate flags then
    if base =? 2 then ("0" :: "b" :: digits, ndigits + 2)
    else if base =? 8 then ("0" :: "o" :: digits, ndigits + 2)
    else if base =? 16 then ("0" :: type flags :: digits, ndigits + 2)
    else (digits, ndigits)
  else (digits, ndigits).

(** The sign character of [format_int] and [format_float]. *)
Definition sign_char (flags : FormatFlags) (isNegative : bool) : ascii :=
  if isNegative then "-"
  else if Ascii.eqb (sign flags) "+" || Ascii.eqb (sign flags) " "
  then sign flags
  else zero.

Definition fill_char (flags : FormatFlags) : ascii :=
  if Ascii.eqb (fill flags) zero then " " else fill flags.

(** The body of [format_int (output, flags, isNegative, value)], [value] a
    [uint64_t], which the two headers share but for the case ['^'] of the
    alignment switch, here [spacing].  A value below [2^64] has at most 64
    digits. *)
Definition format_int_with (spacing : Z -> Z -> Z * Z) (o : Output)
    (flags : FormatFlags) (isNegative : bool) (value : Z) : bool * Output :=
  let base := int_base (type flags) in
  let '(digits0, ndigits0) :=
    digits_loop 64 base (digitchars (type flags)) value [] 0 in
  let '(digits, ndigits) := alternate_prefix flags base digits0 ndigits0 in
  let sign_ := sign_char flags isNegative in
  let nchars := if Ascii.eqb sign_ zero then ndigits else ndigits + 1 in
  let width_ := Z.max (width flags) nchars in
  let '(leadSpace, tailSpace) :=
    if Ascii.eqb (align flags) "^" then spacing width_ nchars
    else if Ascii.eqb (align flags) "<" then (0, width_ - nchars)
    else (width_ - nchars, 0) in
  let o1 :=
    if negb (Ascii.eqb sign_ zero) && Ascii.eqb (align flags) "="
    then write_char o sign_ else o in
  let o2 := write_padding o1 (fill_char flags) leadSpace in
  let o3 :=
    if negb (Ascii.eqb sign_ zero) && negb (Ascii.eqb (align flags) "=")
    then write_char o2 sign_ else o2 in
  let o4 := write o3 digits in
  let o5 := write_padding o4 (fill_char flags) tailSpace in
  (true, o5).

(** [format_int] of [include/sp.hpp]. *)
Definition format_int (o : Output) (flags : FormatFlags) (isNegative : bool)
    (value : Z) : bool * Output :=
  format_int_with center_spacing o flags isNegative value.

(** The case ['^'] of the alignment switch of [include/printf.hpp]. *)
Definition printf_center_spacing (width_ nchars : Z) : Z * Z :=
  if negb (width_ =? nchars) then
    (wrap32 (Z.quot (wrap32 (width_ + 1)) 2 - Z.quot nchars 2),
     wrap32 (Z.quot width_ 2 - Z.quot (wrap32 (nchars + 1)) 2))
  else (0, 0).

(** [format_value (output, flags, char32_t value)] of
    [include/printf.hpp]. *)
Definition printf_format_value_char32 (o : Output) (flags : FormatFlags)
    (value : Z) : bool * Output :=
  (false, o).

(** [format_int] of [include/printf.hpp]. *)
Definition printf_format_int (o : Output) (flags : FormatFlags)
    (isNegative : bool) (value : Z) : bool * Output :=
  if Ascii.eqb (type flags) "c" then
    if negb isNegative
    then printf_format_value_char32 o flags (value mod 2 ^ 32)
    else (false, o)
  else format_int_with printf_center_spacing o flags isNegative value.

(** The chunks written by [write_padding]. *)
Definition padding (fill_ : ascii) (count : Z) : list (list ascii) :=
  repeat [fill_] (N.to_nat (Z.to_N (count mod 2 ^ 32))).



(** [format_float (output, format, value)], for the type [F] whose
    [std::numeric_limits<F>::digits10] is [digits10]. *)
Definition format_float (digits10 : Z) (o : Output) (format : list ascii)
    (value : Float) : bool * Output :=
  let '(ok, flags) := parse_format format in
  if negb ok then (false, o)
  else
    let t := type flags in
    let '(precision_, type_, value', percent) :=
      if Ascii.eqb t "f" || Ascii.eqb t "F" || Ascii.eqb t "e"
         || Ascii.eqb t "E" then
        (if 0 <=? precision flags then precision flags else 6, t, value, false)
      else if Ascii.eqb t "g" || Ascii.eqb t "G" then
        (if negb (precision flags =? 0)
         then (if 0 <? precision flags then precision flags else 6)
         else 1, t, value, false)
      else if Ascii.eqb t "%" then
        (if 0 <=? precision flags then precision flags else 6, "f",
         float_scale100 value, true)
      else
        (if 0 <=? precision flags then precision flags else digits10,
         "g", value, false) in
    let buffer := snprintf_float precision_ type_ percent value' in
    let ndigits := Z.of_nat (length buffer) - 1 in
    let digits := tl buffer in
    let sign_ := sign_char flags (float_negative value') in
    let nchars := if Ascii.eqb sign_ zero then ndigits else ndigits + 1 in
    let width_ := Z.max (width flags) nchars in
    let '(leadSpace, tailSpace) :=
      if Ascii.eqb (align flags) "^" then center_spacing width_ nchars
      else if Ascii.eqb (align flags) "<" then (0, width_ - nchars)
      else (width_ - nchars, 0) in
    let o1 :=
      if negb (Ascii.eqb sign_ zero) && Ascii.eqb (align flags) "="
      then write_char o sign_ else o in
    let o2 := write_padding o1 (fill_char flags) leadSpace in
    let o3 :=
      if negb (Ascii.eqb sign_ zero) && negb (Ascii.eqb (align flags) "=")
      then write_char o2 sign_ else o2 in
    let o4 := write o3 digits in
    let o5 := write_padding o4 (fill_char flags) tailSpace in
    (true, o5).

(** [format_string (output, format, str)]. *)
Definition format_string (o : Output) (format str : list ascii)
  : bool * Output :=
  let '(ok, flags) := parse_format format in
  if negb ok then (false, o)
  else
    let nchars0 := Z.of_nat (length str) in
    let nchars :=
      if 0 <=? precision flags then Z.min (precision flags) nchars0
      else nchars0 in
    let width_ := Z.max (width flags) nchars in
    let '(leadSpace, tailSpace) :=
      if Ascii.eqb (align flags) "^" then center_spacing width_ nchars
      else if Ascii.eqb (align flags) ">" then (width_ - nchars, 0)
      else (0, width_ - nchars) in
    let o1 := write_padding o (fill_char flags) leadSpace in
    let o2 := write o1 (firstn (Z.to_nat nchars) str) in
    let o3 := write_padding o2 (fill_char flags) tailSpace in
    (true, o3).

(** ** Arguments and dispatch *)

(** The types that [format_value] is overloaded on.  The integer types
    shorter than 64 bits convert to [long long] or [unsigned long long]
    without change of value, and [char] is formatted as the integer it
    converts to.  [ACustom] is an overload added by the user of the library
    for a type of their own: a renderer that issues writes on the output and
    returns its verdict. *)
Inductive Arg :=
| ABool (value : bool)
| AFloat (value : Float)
| ADouble (value : Float)
| AInt (value : Z)
| AUInt (value : Z)
| AStr (value : list ascii)
| APtr (value : Z)
| ADummy
| ACustom (render : list ascii -> bool * list (list ascii)).

(** The overloads of [format_value]. *)
Definition format_value (o : Output) (fmt : list ascii) (arg : Arg)
  : bool * Output :=
  match arg with
  | ABool value =>
      format_string o fmt (if value then text "true" else text "false")
  | AFloat value => format_float 6 o fmt value
  | ADouble value => format_float 15 o fmt value
  | AInt value =>
      let abs :=
        if (0 <=? value) || (value =? INT64_MIN) then to_uint64 value
        else to_uint64 (- value) in
      let '(ok, flags) := parse_format fmt in
      if ok then format_int o flags (value <? 0) abs else (false, o)
  | AUInt value =>
      let '(ok, flags) := parse_format fmt in
      if ok then format_int o flags false (to_uint64 value) else (false, o)
  | AStr value => format_string o fmt value
  | APtr value =>
      let '(ok, flags) := parse_format fmt in
      if ok then
        let flags' :=
          if Ascii.eqb (type flags) zero then set_type flags "x" else flags in
        format_int o flags' false (to_uint64 value)
      else (false, o)
  | ADummy => (false, o)
  | ACustom render =>
      let '(ok, chunks) := render fmt in (ok, writes o chunks)
  end.

(** [format_index (output, format, index, args...)]. *)
Fixpoint format_index (o : Output) (format : list ascii) (index : Z)
    (args : list Arg) : bool * Output :=
  match args with
  | [] => (false, o)
  | arg :: rest =>
      if index =? 0 then format_value o format arg
      else format_index o format (wrap32 (index - 1)) rest
  end.

(** ** The template engine *)

Inductive State :=
| STATE_OPENER
| STATE_INDEX
| STATE_MARKER
| STATE_FLAGS
| STATE_CLOSER.

(** The variables of the loop of [format]. *)
Record Scan := {
  state : State;
  next : nat;
  start : nat;
  formatStart : option nat;
  prev : Z;
  index : Z;
  output : Output
}.

(** One iteration of the loop of [format], entered with [next < term]. *)
Definition format_step (fmt : list ascii) (args : list Arg) (c : Scan)
  : Scan :=
  let term := length fmt in
  let ptr := next c in
  let next1 := S ptr in
  let ch := nth ptr fmt zero in
  match state c with
  | STATE_OPENER =>
      if Ascii.eqb ch "{" then
        let o := write (output c) (span fmt (start c) ptr) in
        if (next1 <? term)%nat then
          if negb (Ascii.eqb (nth next1 fmt zero) "{") then
            {| state := STATE_INDEX; next := next1; start := ptr;
               formatStart := None; prev := prev c; index := -1;
               output := o |}
          else
            {| state := STATE_OPENER; next := S next1; start := next1;
               formatStart := formatStart c; prev := prev c;
               index := index c; output := o |}
        else
          {| state := STATE_OPENER; next := next1; start := start c;
             formatStart := formatStart c; prev := prev c;
             index := index c; output := o |}
      else if Ascii.eqb ch "}" then
        let o := write (output c) (span fmt (start c) next1) in
        let next2 :=
          if (next1 <? term)%nat && Ascii.eqb (nth next1 fmt zero) "}"
          then S next1 else next1 in
        {| state := STATE_OPENER; next := next2; start := next2;
           formatStart := formatStart c; prev := prev c; index := index c;
           output := o |}
      else
        {| state := STATE_OPENER; next := next1; start := start c;
           formatStart := formatStart c; prev := prev c; index := index c;
           output := output c |}
  | STATE_INDEX =>
      if is_digit ch then
        {| state := STATE_INDEX; next := next1; start := start c;
           formatStart := formatStart c; prev := prev c;
           index :=
             if index c <? 0 then code ch - code "0"
             else wrap32 (wrap32 (index c * 10) + (code ch - code "0"));
           output := output c |}
      else
        let index' :=
          if index c <? 0 then wrap32 (prev c + 1) else index c in
        {| state := STATE_MARKER; next := ptr; start := start c;
           formatStart := formatStart c; prev := index'; index := index';
           output := output c |}
  | STATE_MARKER =>
      if Ascii.eqb ch ":" then
        {| state := STATE_FLAGS; next := next1; start := start c;
           formatStart := formatStart c; prev := prev c; index := index c;
           output := output c |}
      else
        {| state := STATE_CLOSER; next := ptr; start := start c;
           formatStart := formatStart c; prev := prev c; index := index c;
           output := output c |}
  | STATE_FLAGS =>
      let formatStart' :=
        match formatStart c with
        | None => Some ptr
        | Some p => Some p
        end in
      if Ascii.eqb ch "}" || Ascii.eqb ch "{" then
        {| state := STATE_CLOSER; next := ptr; start := start c;
           formatStart := formatStart'; prev := prev c; index := index c;
           output := output c |}
      else
        {| state := STATE_FLAGS; next := next1; start := start c;
           formatStart := formatStart'; prev := prev c; index := index c;
           output := output c |}
  | STATE_CLOSER =>
      if Ascii.eqb ch "}" then
        let format :=
          match formatStart c with
          | Some p => span fmt p ptr
          | None => []
          end in
        let '(ok, o) := format_index (output c) format (index c) args in
        {| state := STATE_OPENER; next := next1;
           start := if ok then next1 else start c;
           formatStart := formatStart c; prev := prev c; index := index c;
           output := o |}
      else
        {| state := STATE_OPENER; next := next1; start := start c;
           formatStart := formatStart c; prev := prev c; index := index c;
           output := output c |}
  end.

(** The loop [while (next < term)] of [format], at most [fuel] iterations of
    it. *)
Fixpoint format_loop (fuel : nat) (fmt : list ascii) (args : list Arg)
    (c : Scan) : Scan :=
  match fuel with
  | O => c
  | S fuel' =>
      if (next c <? length fmt)%nat
      then format_loop fuel' fmt args (format_step fmt args c)
      else c
  end.

(** A bound on the iterations of the loop: an iteration that does not
    consume a character moves closer to [STATE_CLOSER], which consumes
    one. *)
Definition format_rank (s : State) : nat :=
  match s with
  | STATE_INDEX => 2
  | STATE_MARKER => 1
  | STATE_FLAGS => 1
  | STATE_CLOSER => 0
  | STATE_OPENER => 0
  end.

Definition format_measure (fmt : list ascii) (c : Scan) : nat :=
  (3 * (length fmt - next c) + format_rank (state c))%nat.

(** The loop of [format] run to its end. *)
Definition format_run (fmt : list ascii) (args : list Arg) (c : Scan)
  : Scan :=
  format_loop (format_measure fmt c) fmt args c.

(** The statements of [format] after its loop: the remaining data is printed
    and the count is returned. *)
Definition format_finish (fmt : list ascii) (before : Z) (c : Scan)
  : Z * Output :=
  let term := length fmt in
  let o :=
    if (start c =? term)%nat then output c
    else write (output c) (span fmt (start c) term) in
  let after := result o in
  (if after <? 0 then after else wrap32 (after - before), o).

(** The variables of [format] on entry of its loop, but for the counter
    [prev], which the source initialises to [-1]. *)
Definition format_init (o : Output) (prev0 : Z) : Scan :=
  {| state := STATE_OPENER; next := 0%nat; start := 0%nat;
     formatStart := None; prev := prev0; index := -1; output := o |}.

(** [format (Output& output, const StringView& fmt, Args&&... args)]: the
    returned count and the output afterwards. *)
Definition format (o : Output) (fmt : list ascii) (args : list Arg)
  : Z * Output :=
  format_finish fmt (result o) (format_run fmt args (format_init o (-1))).

(** [format (FILE* file, fmt, args...)]: the returned count and the stream
    afterwards. *)
Definition format_FILE (file : Stream) (fmt : list ascii) (args : list Arg)
  : Z * option Stream :=
  let o := snd (format (Output_stream file) fmt args) in
  (result o, m_stream o).

(** [format (char buffer[], size_t size, fmt, args...)]: the returned count
    and the buffer afterwards. *)
Definition format_buffer (buffer : list ascii) (size : Z) (fmt : list ascii)
    (args : list Arg) : Z * list ascii :=
  let o := snd (format (Output_buffer buffer size) fmt args) in
  (result o, m_memory o).

(** [format (char (&buffer)[N], fmt, args...)]. *)
Definition format_array (buffer : list ascii) (fmt : list ascii)
    (args : list Arg) : Z * list ascii :=
  format_buffer buffer (Z.of_nat (length buffer)) fmt args.

(** [print (fmt, args...)]. *)
Definition print (stdout : Stream) (fmt : list ascii) (args : list Arg)
  : Z * option Stream :=
  let o := snd (format (Output_stdout stdout) fmt args) in
  (result o, m_stream o).

End Sp.

(** ** Templates of the placeholder grammar

    The templates made of literal text without braces, the escapes ["{{"]
    and ["}}"], a closing brace on its own, and placeholders of the shape
    ["{" digits "}"] or ["{" digits ":" spec "}"] with a spec without
    braces.  [template_format] describes what the engine does on them, one
    item at a time. *)

Section Grammar.

Context `{Host}.

Record Placeholder := {
  ph_digits : list ascii;
  ph_spec : option (list ascii)
}.

Inductive Item :=
| Literal (s : list ascii)
| OpenEscape
| CloseEscape
| StrayClose
| Hole (p : Placeholder).

Definition brace_free (s : list ascii) : bool :=
  forallb (fun ch => negb (Ascii.eqb ch "{" || Ascii.eqb ch "}")) s.

Definition ph_marker (p : Placeholder) : list ascii :=
  match ph_spec p with
  | None => []
  | Some spec => ":" :: spec
  end.

Definition ph_format (p : Placeholder) : list ascii :=
  match ph_spec p with
  | None => []
  | Some spec => spec
  end.

(** The text of a placeholder in the template. *)
Definition ph_text (p : Placeholder) : list ascii :=
  "{" :: ph_digits p ++ ph_marker p ++ ["}"].

Definition plain (p : Placeholder) : bool :=
  forallb is_digit (ph_digits p) && brace_free (ph_format p).

Definition item_text (it : Item) : list ascii :=
  match it with
  | Literal s => s
  | OpenEscape => ["{"; "{"]
  | CloseEscape => ["}"; "}"]
  | StrayClose => ["}"]
  | Hole p => ph_text p
  end.

(** The template text of a sequence of items. *)
Fixpoint template_of (items : list Item) : list ascii :=
  match items with
  | [] => []
  | it :: rest => item_text it ++ template_of rest
  end.

Definition starts_with_close (s : list ascii) : bool :=
  match s with
  | ch :: _ => Ascii.eqb ch "}"
  | [] => false
  end.

(** The items are what they are called: literal text has no brace, a
    placeholder is plain, and a closing brace on its own is not followed by
    another one (the two would be an escape). *)
Fixpoint well_formed (items : list Item) : bool :=
  match items with
  | [] => true
  | it :: rest =>
      match it with
      | Literal s => brace_free s
      | Hole p => plain p
      | StrayClose => negb (starts_with_close (template_of rest))
      | OpenEscape | CloseEscape => true
      end
      && well_formed rest
  end.

(** The assignment to [formatStart] in [STATE_FLAGS], at the offset [n]. *)
Definition or_here (fs : option nat) (n : nat) : option nat :=
  match fs with
  | None => Some n
  | Some p => Some p
  end.

(** The assignment to [index] in the digit branch of [STATE_INDEX]. *)
Definition digit_step (idx : Z) (ch : ascii) : Z :=
  if idx <? 0 then code ch - code "0"
  else wrap32 (wrap32 (idx * 10) + (code ch - code "0")).

(** The index that [STATE_INDEX] resolves for a placeholder with the
    digits [ds], when the counter [prev] holds [prev0]. *)
Definition resolve_index (prev0 : Z) (ds : list ascii) : Z :=
  let idx := fold_left digit_step ds (-1) in
  if idx <? 0 then wrap32 (prev0 + 1) else idx.

(** The number that a sequence of decimal digits denotes. *)
Definition decimal (ds : list ascii) : Z :=
  fold_left (fun acc ch => 10 * acc + (code ch - code "0")) ds 0.

(** The index of a placeholder in the words of the specification: one past
    the index resolved before when the placeholder has no digits, and else
    the number that its digits denote. *)
Definition spec_index (prev0 : Z) (ds : list ascii) : Z :=
  match ds with
  | [] => prev0 + 1
  | _ => decimal ds
  end.

(** The engine on the items of a template, given how the index of a
    placeholder is resolved from the counter and its digits.  The state is
    the counter, the text read but not yet written ([pending], from [start]
    to [next] in the source) and the output.
    - Literal text is pending.
    - ["{{"] writes the pending text; its second brace is pending.
    - ["}}"] and ["}"] write the pending text with one closing brace.
    - A placeholder writes the pending text, resolves its index, which
      becomes the counter, and dispatches; when the dispatch fails, the
      text of the placeholder is pending. *)
Fixpoint template_scan (resolve : Z -> list ascii -> Z) (args : list Arg)
    (prev0 : Z) (pending : list ascii) (items : list Item) (o : Output)
  : Z * list ascii * Output :=
  match items with
  | [] => (prev0, pending, o)
  | Literal s :: rest =>
      template_scan resolve args prev0 (pending ++ s) rest o
  | OpenEscape :: rest =>
      template_scan resolve args prev0 ["{"] rest (write o pending)
  | CloseEscape :: rest | StrayClose :: rest =>
      template_scan resolve args prev0 [] rest (write o (pending ++ ["}"]))
  | Hole p :: rest =>
      let idx := resolve prev0 (ph_digits p) in
      let '(ok, o') := format_index (write o pending) (ph_format p) idx args in
      template_scan resolve args idx (if ok then [] else ph_text p) rest o'
  end.

(** At the end of the template the pending text is written, if there is
    some. *)
Definition template_finish (st : Z * list ascii * Output) : Output :=
  match snd (fst st) with
  | [] => snd st
  | pending => write (snd st) pending
  end.

(** The engine with the index as the source computes it. *)
Definition template_format (args : list Arg) (prev0 : Z)
    (pending : list ascii) (items : list Item) (o : Output) : Output :=
  template_finish (template_scan resolve_index args prev0 pending items o).

(** The engine with the index as the specification words it. *)
Definition counted_format (args : list Arg) (prev0 : Z)
    (pending : list ascii) (items : list Item) (o : Output) : Output :=
  template_finish (template_scan spec_index args prev0 pending items o).

(** Every index of the placeholders among [items], counted from [prev0], is
    an [int32_t]. *)
Fixpoint indices_fit (prev0 : Z) (items : list Item) : bool :=
  match items with
  | [] => true
  | Hole p :: rest =>
      let idx := spec_index prev0 (ph_digits p) in
      (idx <? 2 ^ 31) && indices_fit idx rest
  | _ :: rest => indices_fit prev0 rest
  end.

(** The causes of a failed dispatch: the index is out of range, the argument
    has no renderer, or it is of a type of the library and the spec does not
    parse. *)
Definition dispatch_fails (args : list Arg) (idx : Z) (spec : list ascii)
  : Prop :=
  idx < 0 \/ Z.of_nat (length args) <= idx
  \/ match nth (Z.to_nat idx) args ADummy with
     | ADummy => True
     | ACustom _ => False
     | _ => fst (parse_format spec) = false
     end.

(** The values of the variables of [format] at the head of its loop, in a
    call on the output [o]. *)
Inductive reached (fmt : list ascii) (args : list Arg) (o : Output)
  : Scan -> Prop :=
| reached_init : reached fmt args o (format_init o (-1))
| reached_step (c : Scan) :
    reached fmt args o c -> (next c < length fmt)%nat ->
    reached fmt args o (format_step fmt args c).

(** What the engine has read of a placeholder, from [start] to [next], in
    the states that follow its opening brace; [pre] is the template before
    [start]. *)
Definition scan_shape (c : Scan) (pre body : list ascii) : Prop :=
  match state c with
  | STATE_OPENER => True
  | STATE_INDEX =>
      exists ds,
        body = "{" :: ds /\ forallb is_digit ds = true
        /\ formatStart c = None
        /\ index c = fold_left digit_step ds (-1)
  | STATE_MARKER =>
      exists ds,
        body = "{" :: ds /\ forallb is_digit ds = true
        /\ formatStart c = None
  | STATE_FLAGS =>
      exists ds spec,
        body = "{" :: ds ++ ":" :: spec
        /\ forallb is_digit ds = true /\ brace_free spec = true
        /\ formatStart c =
           match spec with
           | [] => None
           | _ => Some (length pre + 2 + length ds)%nat
           end
  | STATE_CLOSER =>
      exists ph,
        body = "{" :: ph_digits ph ++ ph_marker ph /\ plain ph = true
        /\ formatStart c =
           match ph_spec ph with
           | None => None
           | Some _ => Some (length pre + 2 + length (ph_digits ph))%nat
           end
  end.

Definition scan_inv (fmt : list ascii) (c : Scan) : Prop :=
  in_int32 (index c)
  /\ exists pre body suf,
       fmt = pre ++ body ++ suf /\ start c = length pre
       /\ next c = (length pre + length body)%nat /\ scan_shape c pre body.

End Grammar.

(** ** Specs of the grammar

    The specs [[[fill]align][sign][#][width][.precision][type]], by their
    parts, with the text of a spec and the flags that it stands for. *)

Record Spec := {
  sp_align : option (option ascii * ascii);
  sp_sign : option ascii;
  sp_alternate : bool;
  sp_width : list ascii;
  sp_precision : option (list ascii);
  sp_type : option ascii
}.

Definition is_sign (ch : ascii) : bool :=
  Ascii.eqb ch "+" || Ascii.eqb ch "-" || Ascii.eqb ch " ".

Definition optional (c : option ascii) : list ascii :=
  match c with
  | Some ch => [ch]
  | None => []
  end.

Definition align_text (a : option (option ascii * ascii)) : list ascii :=
  match a with
  | Some (f, al) => optional f ++ [al]
  | None => []
  end.

Definition alternate_text (a : bool) : list ascii :=
  if a then ["#"] else [].

Definition precision_text (p : option (list ascii)) : list ascii :=
  match p with
  | Some ds => "." :: ds
  | None => []
  end.

Definition precision_digits (p : option (list ascii)) : list ascii :=
  match p with
  | Some ds => ds
  | None => []
  end.

Definition spec_text (s : Spec) : list ascii :=
  align_text (sp_align s) ++ optional (sp_sign s)
  ++ alternate_text (sp_alternate s) ++ sp_width s
  ++ precision_text (sp_precision s) ++ optional (sp_type s).

Definition holds (test : ascii -> bool) (c : option ascii) : bool :=
  match c with
  | Some ch => test ch
  | None => true
  end.

(** Each part is made of the characters of its kind; the fill is any
    character. *)
Definition spec_valid (s : Spec) : bool :=
  holds isAlign (option_map snd (sp_align s))
  && holds is_sign (sp_sign s)
  && forallb is_digit (sp_width s)
  && forallb is_digit (precision_digits (sp_precision s))
  && holds is_type_char (sp_type s).

Definition align_flags (a : option (option ascii * ascii)) : FormatFlags :=
  match a with
  | Some (Some f, al) => set_fill_align FormatFlags_default f al
  | Some (None, al) => set_align FormatFlags_default al
  | None => FormatFlags_default
  end.

Definition sign_flags (c : option ascii) (f : FormatFlags) : FormatFlags :=
  match c with
  | Some ch => set_sign f ch
  | None => f
  end.

Definition alternate_flags (a : bool) (f : FormatFlags) : FormatFlags :=
  if a then set_alternate f true else f.

(** A width is a decimal number; one that starts with 0 also asks for
    zeros as the fill, after the sign. *)
Definition width_flags (ds : list ascii) (f : FormatFlags) : FormatFlags :=
  match ds with
  | [] => f
  | d :: _ =>
      set_width (if Ascii.eqb d "0" then set_fill_align f "0" "=" else f)
        (decimal ds)
  end.

Definition precision_flags (p : option (list ascii)) (f : FormatFlags)
  : FormatFlags :=
  match p with
  | Some ds => set_precision f (decimal ds)
  | None => f
  end.

Definition type_flags (t : option ascii) (f : FormatFlags) : FormatFlags :=
  match t with
  | Some ch => set_type f ch
  | None => f
  end.

(** The flags that a spec stands for. *)
Definition spec_flags (s : Spec) : FormatFlags :=
  type_flags (sp_type s)
    (precision_flags (sp_precision s)
       (width_flags (sp_width s)
          (alternate_flags (sp_alternate s)
             (sign_flags (sp_sign s) (align_flags (sp_align s)))))).

(** The characters that the parts of a spec are made of, the fill apart. *)
Definition is_spec_char (ch : ascii) : bool :=
  isAlign ch || is_sign ch || Ascii.eqb ch "#" || is_digit ch
  || Ascii.eqb ch "." || is_type_char ch.

(** The loop of [parse_format] run to its end. *)
Definition parse_run (fmt : list ascii) (p : Parse) : bool * FormatFlags :=
  parse_loop (S (parse_measure fmt p)) fmt p.

(** ** Numbers and their digits *)





(** How the alignment [^] is meant to split the padding, and what the
    source makes of it when the width and the count of characters are both
    even. *)
Definition centered (width_ nchars : Z) : Z * Z :=
  let d := width_ - nchars in
  if Z.even width_ && Z.even nchars then (d / 2 + 1, d / 2 - 1)
  else (d / 2, d - d / 2).

(** What [include/printf.hpp] makes of it, when both are odd. *)
Definition printf_centered (width_ nchars : Z) : Z * Z :=
  let d := width_ - nchars in
  if Z.odd width_ && Z.odd nchars && negb (width_ =? nchars)
  then (d / 2 + 1, d / 2 - 1)
  else (d - d / 2, d / 2).

(** ** A call as a sequence of writes *)

Section Reference.

Context `{Host}.

(** The variables of the loop of [format], with another output. *)
Definition set_output (c : Scan) (o : Output) : Scan :=
  {| state := state c; next := next c; start := start c;
     formatStart := formatStart c; prev := prev c; index := index c;
     output := o |}.

(** The text that the escapes and the literal text of a template stand
    for. *)
Definition unescaped_item (it : Item) : list ascii :=
  match it with
  | Literal s => s
  | OpenEscape => ["{"]
  | CloseEscape | StrayClose => ["}"]
  | Hole p => ph_text p
  end.

Definition unescaped (items : list Item) : list ascii :=
  flat_map unescaped_item items.

(** A buffer output of capacity [cap] over an array as long as [buffer]:
    the cursor and the remaining size add up to the capacity, one byte at
    least remains, and the array is as [buffer] from the capacity on. *)
Definition buffer_bounds (buffer : list ascii) (cap : Z) (o : Output)
  : Prop :=
  m_stream o = None
  /\ length (m_memory o) = length buffer
  /\ skipn (Z.to_nat cap) (m_memory o) = skipn (Z.to_nat cap) buffer
  /\ 1 <= m_size o
  /\ Z.of_nat (m_buffer o) + m_size o = cap.

(** The arguments of the types that the library has overloads for. *)
Definition is_library_type (arg : Arg) : bool :=
  match arg with
  | ADummy | ACustom _ => false
  | _ => true
  end.

Definition is_hole (it : Item) : bool :=
  match it with
  | Hole _ => true
  | _ => false
  end.

End Reference.

(** ** A host for the examples

    A stream that accepts a limited count of bytes and then writes short
    (like a full device), and floating point values that are integers,
    printed in no more than the fixed notation without fraction digits. *)

Record BoundedStream := {
  accepted : list ascii;
  room : nat
}.

Definition bounded_fwrite (s : BoundedStream) (data : list ascii)
  : BoundedStream * Z :=
  let n := Nat.min (room s) (length data) in
  ({| accepted := accepted s ++ firstn n data; room := room s - n |},
   Z.of_nat n).

Fixpoint decimal_loop (fuel : nat) (v : Z) (acc : list ascii) : list ascii :=
  match fuel with
  | O => acc
  | S fuel' =>
      let acc' := ascii_of_N (Z.to_N (48 + v mod 10)) :: acc in
      if v / 10 =? 0 then acc' else decimal_loop fuel' (v / 10) acc'
  end.

Definition example_snprintf (precision_ : Z) (type_ : ascii) (percent : bool)
    (v : Z) : list ascii :=
  (if v <? 0 then "-" else "+")
    :: decimal_loop 64 (Z.abs v) [] ++ (if percent then ["%"] else []).

#[local] Instance example_host : Host := {|
  Stream := BoundedStream;
  fwrite := bounded_fwrite;
  Float := Z;
  float_scale100 := fun v => 100 * v;
  float_negative := fun v => v <? 0;
  snprintf_float := example_snprintf
|}.

(** A buffer of [n] bytes, each [0x7f], as the tests of the repository
    prepare them. *)
Definition fresh_buffer (n : nat) : list ascii := repeat "127" n.

(** The type [Foo] of the tests: its renderer prints the spec it is given,
    or ["<empty>"] when there is none. *)
Definition Foo : Arg :=
  ACustom (fun format =>
    (true, [match format with [] => text "<empty>" | _ => format end])).

(** The text printed by [format] into a buffer of 64 bytes. *)
Definition formatted (fmt : string) (args : list Arg) : Z * string :=
  let '(n, buffer) := format_array (fresh_buffer 64) (text fmt) args in
  (n, string_of_list_ascii (firstn (Z.to_nat n) buffer)).

Arguments formatted fmt%_string args.

(** * Properties *)

(** ** Machine integers *)

Lemma wrap32_id (z : Z) : in_int32 z -> wrap32 z = z.
Proof.
  unfold in_int32, wrap32. intros Hz.
  rewrite Z.mod_small; lia.
Qed.

Lemma wrap32_range (z : Z) : in_int32 (wrap32 z).
Proof.
  unfold in_int32, wrap32.
  pose proof (Z.mod_pos_bound (z + 2 ^ 31) (2 ^ 32) ltac:(lia)). lia.
Qed.

(** Case analysis on the pair that a [let '(x, y) := e] binds. *)
Ltac destruct_pair :=
  match goal with
  | |- context [let (_, _) := ?e in _] => destruct e
  end.

(** Equations between appended lists, and between their lengths. *)
Ltac list_eq Hfmt :=
  rewrite Hfmt; unfold ph_text, ph_marker; simpl;
  repeat (rewrite <- app_assoc; simpl); rewrite ?app_nil_r; reflexivity.

Ltac app_eq Hfmt :=
  rewrite Hfmt; repeat rewrite <- app_assoc; cbn [app]; reflexivity.

Ltac length_eq :=
  repeat first [rewrite length_app in * | progress cbn [length] in *]; lia.

(** The goals of a decomposition [fmt = pre ++ body ++ suf] of the
    template around [start] and [next]. *)
Ltac frame Hfmt :=
  repeat split; try assumption; try app_eq Hfmt; try length_eq.

Section SpFacts.

Context `{Host}.

(** ** Output: the error state *)

Lemma write_error (o : Output) (data : list ascii) :
  m_length o < 0 -> write o data = o.
Proof.
  intros Hneg. unfold write.
  destruct (0 <=? m_length o) eqn:E; [apply Z.leb_le in E; lia | reflexivity].
Qed.

Lemma writes_error (o : Output) (chunks : list (list ascii)) :
  m_length o < 0 -> writes o chunks = o.
Proof.
  intros Hneg. unfold writes.
  induction chunks as [|data chunks IH]; simpl; [reflexivity|].
  rewrite write_error by assumption. exact IH.
Qed.

(** A stream write that comes back short sets the error state. *)
Lemma write_failure_sets_error (o : Output) (stream : Stream)
    (data : list ascii) :
  0 <= m_length o ->
  m_stream o = Some stream ->
  snd (fwrite stream data) <> Z.of_nat (length data) ->
  m_length (write o data) = -1.
Proof.
  intros Hlen Hs Hshort. unfold write.
  destruct (0 <=? m_length o) eqn:E; [|apply Z.leb_gt in E; lia].
  rewrite Hs. destruct (fwrite stream data) as [stream' written].
  simpl in Hshort.
  destruct (written =? Z.of_nat (length data)) eqn:Ew;
    [apply Z.eqb_eq in Ew; contradiction | reflexivity].
Qed.

(** C4. Once the length of an output is the error value -1, any sequence of
    further writes leaves the output as it is (no byte reaches the stream or
    the buffer, no field changes), and [result] keeps returning -1. *)
Theorem error_state_is_sticky (o : Output) (chunks : list (list ascii)) :
  m_length o = -1 ->
  writes o chunks = o /\ result (writes o chunks) = -1.
Proof.
  intros Herr.
  assert (Hsame : writes o chunks = o) by (apply writes_error; lia).
  split; [exact Hsame|]. rewrite Hsame. exact Herr.
Qed.

(** ** Output: what a call can do to it *)

Lemma writes_app (o : Output) (xs ys : list (list ascii)) :
  writes o (xs ++ ys) = writes (writes o xs) ys.
Proof. unfold writes. apply fold_left_app. Qed.

Lemma writes_snoc (o : Output) (chunks : list (list ascii))
    (data : list ascii) :
  writes o (chunks ++ [data]) = write (writes o chunks) data.
Proof. now rewrite writes_app. Qed.

Lemma extends_refl (o : Output) : extends o o.
Proof. exists []. reflexivity. Qed.

Lemma extends_trans (o1 o2 o3 : Output) :
  extends o1 o2 -> extends o2 o3 -> extends o1 o3.
Proof.
  intros [xs ->] [ys ->]. exists (xs ++ ys). now rewrite writes_app.
Qed.

Lemma extends_write (o : Output) (data : list ascii) :
  extends o (write o data).
Proof. exists [data]. reflexivity. Qed.

Lemma extends_writes (o : Output) (chunks : list (list ascii)) :
  extends o (writes o chunks).
Proof. exists chunks. reflexivity. Qed.

Lemma extends_step_write (o o' : Output) (data : list ascii) :
  extends o o' -> extends o (write o' data).
Proof. intros Ho. eapply extends_trans; [exact Ho | apply extends_write]. Qed.

Lemma extends_write_padding (o o' : Output) (fill_ : ascii) (count : Z) :
  extends o o' -> extends o (write_padding o' fill_ count).
Proof.
  intros Ho. unfold write_padding.
  apply N.iter_invariant; [|exact Ho].
  intros x Hx. unfold write_char. now apply extends_step_write.
Qed.

Create HintDb sp.

#[local] Hint Resolve extends_refl extends_write extends_writes
  extends_step_write extends_write_padding : sp.

Lemma extends_layout (o : Output) (b1 b2 : bool) (s f : ascii)
    (lead tail : Z) (digits : list ascii) :
  extends o
    (write_padding
       (write
          (let o2 :=
             write_padding (if b1 then write_char o s else o) f lead in
           if b2 then write_char o2 s else o2)
          digits)
       f tail).
Proof.
  cbv zeta. unfold write_char.
  destruct b1, b2; auto 10 with sp.
Qed.

Lemma extends_format_int (o : Output) (flags : FormatFlags) (neg : bool)
    (value : Z) :
  extends o (snd (format_int o flags neg value)).
Proof.
  unfold format_int, format_int_with.
  destruct (digits_loop _ _ _ _ _ _) as [digits0 ndigits0].
  destruct (alternate_prefix _ _ _ _) as [digits ndigits].
  destruct_pair.
  simpl snd. apply extends_layout.
Qed.

Lemma extends_format_string (o : Output) (format str : list ascii) :
  extends o (snd (format_string o format str)).
Proof.
  unfold format_string.
  destruct (parse_format format) as [[|] flags]; simpl negb; cbv iota;
    [|apply extends_refl].
  destruct_pair.
  simpl snd. auto 10 with sp.
Qed.

Lemma extends_format_float (d : Z) (o : Output) (format : list ascii)
    (value : Float) :
  extends o (snd (format_float d o format value)).
Proof.
  unfold format_float.
  destruct (parse_format format) as [[|] flags]; simpl negb; cbv iota;
    [|apply extends_refl].
  destruct_pair. destruct_pair. destruct_pair.
  destruct_pair.
  simpl snd. apply extends_layout.
Qed.

Lemma extends_format_value (o : Output) (fmt : list ascii) (arg : Arg) :
  extends o (snd (format_value o fmt arg)).
Proof.
  destruct arg as [b|v|v|v|v|v|v| |custom]; simpl;
    try apply extends_format_string; try apply extends_format_float;
    try apply extends_refl.
  - destruct (parse_format fmt) as [[|] flags];
      [apply extends_format_int | apply extends_refl].
  - destruct (parse_format fmt) as [[|] flags];
      [apply extends_format_int | apply extends_refl].
  - destruct (parse_format fmt) as [[|] flags];
      [apply extends_format_int | apply extends_refl].
  - destruct (custom fmt) as [ok chunks]. apply extends_writes.
Qed.

Lemma extends_format_index (args : list Arg) (o : Output)
    (format : list ascii) (index : Z) :
  extends o (snd (format_index o format index args)).
Proof.
  revert index. induction args as [|arg rest IH]; intros index; simpl.
  - apply extends_refl.
  - destruct (index =? 0); [apply extends_format_value | apply IH].
Qed.

Lemma extends_format_step (fmt : list ascii) (args : list Arg) (c : Scan) :
  extends (output c) (output (format_step fmt args c)).
Proof.
  unfold format_step.
  destruct (state c).
  - destruct (Ascii.eqb _ "{").
    + destruct (_ <? _)%nat; [destruct (negb _)|]; simpl; auto with sp.
    + destruct (Ascii.eqb _ "}"); simpl; auto with sp.
  - destruct (is_digit _); simpl; auto with sp.
  - destruct (Ascii.eqb _ ":"); simpl; auto with sp.
  - destruct (_ || _); simpl; auto with sp.
  - destruct (Ascii.eqb _ "}"); simpl; auto with sp.
    pose proof (extends_format_index args (output c)
      match formatStart c with
      | Some p => span fmt p (next c)
      | None => []
      end (index c)) as Hx.
    destruct (format_index _ _ _ _) as [ok o']. exact Hx.
Qed.

Lemma extends_format_loop (fmt : list ascii) (args : list Arg) (fuel : nat)
    (c : Scan) :
  extends (output c) (output (format_loop fuel fmt args c)).
Proof.
  revert c. induction fuel as [|fuel IH]; intros c; simpl.
  - apply extends_refl.
  - destruct (_ <? _)%nat; [|apply extends_refl].
    eapply extends_trans; [apply extends_format_step | apply IH].
Qed.

Lemma extends_format (o : Output) (fmt : list ascii) (args : list Arg) :
  extends o (snd (format o fmt args)).
Proof.
  unfold format, format_finish, format_run. simpl snd.
  pose proof (extends_format_loop fmt args
    (format_measure fmt (format_init o (-1))) (format_init o (-1))) as Hx.
  simpl output in Hx at 1.
  destruct (_ =? _)%nat; [exact Hx | now apply extends_step_write].
Qed.

(** ** The layout of an integer *)

Lemma int_base_ge_2 (t : ascii) : 2 <= int_base t.
Proof.
  unfold int_base.
  destruct (Ascii.eqb t "b"); [lia|].
  destruct (Ascii.eqb t "o"); [lia|].
  destruct (_ || _); lia.
Qed.

(** The loop over the digits ends within as many iterations as the value
    has bits: more fuel gives the same digits, and 64 is enough for a
    [uint64_t]. *)
Lemma digits_loop_enough (base : Z) (chars : list ascii) (fuel : nat) :
  2 <= base ->
  forall (extra : nat) (v : Z) (digits : list ascii) (ndigits : Z),
    0 <= v < 2 ^ Z.of_nat (S fuel) ->
    digits_loop (S fuel + extra) base chars v digits ndigits
    = digits_loop (S fuel) base chars v digits ndigits.
Proof.
  intros Hbase.
  induction fuel as [|fuel IH]; intros extra v digits ndigits Hv.
  - cbn [digits_loop Nat.add].
    replace (v / base) with 0
      by (symmetry; apply Z.div_small; change (2 ^ Z.of_nat 1) with 2 in Hv;
          lia).
    reflexivity.
  - change (S (S fuel) + extra)%nat with (S (S fuel + extra)).
    cbn [digits_loop].
    destruct (v / base =? 0) eqn:E; [reflexivity|].
    apply IH. split; [apply Z.div_pos; lia|].
    rewrite Nat2Z.inj_succ, Z.pow_succ_r in Hv by lia.
    apply Z.div_lt_upper_bound; [lia|].
    nia.
Qed.


Lemma write_padding_writes (o : Output) (fill_ : ascii) (count : Z) :
  write_padding o fill_ count = writes o (padding fill_ count).
Proof.
  unfold write_padding, padding. rewrite N2Nat.inj_iter.
  induction (N.to_nat (Z.to_N (count mod 2 ^ 32))) as [|n IH];
    [reflexivity|].
  rewrite Nat.iter_succ, IH.
  change (repeat [fill_] (S n)) with ([fill_] :: repeat [fill_] n).
  rewrite repeat_cons, writes_snoc. reflexivity.
Qed.


(** ** The count returned by [format] *)

Lemma write_length_range (o : Output) (data : list ascii) :
  in_int32 (m_length o) -> in_int32 (m_length (write o data)).
Proof.
  intros Ho. unfold write.
  destruct (0 <=? m_length o); [|exact Ho].
  destruct (m_stream o) as [stream|].
  - destruct (fwrite stream data) as [stream' written].
    destruct (written =? _); simpl; [apply wrap32_range|].
    unfold in_int32. lia.
  - destruct (m_size o =? 0); simpl; apply wrap32_range.
Qed.

Lemma extends_length_range (o o' : Output) :
  extends o o' -> in_int32 (m_length o) -> in_int32 (m_length o').
Proof.
  intros [chunks ->]. revert o.
  induction chunks as [|data chunks IH]; intros o Ho; [exact Ho|].
  apply IH. now apply write_length_range.
Qed.

Lemma extends_error (o o' : Output) :
  extends o o' -> m_length o < 0 -> o' = o.
Proof. intros [chunks ->] Hneg. now apply writes_error. Qed.

(** C10. [format (output, fmt, args...)] returns the difference between
    [output.result ()] after and before the call, the count of characters
    that this call contributed, whatever the output held before; when the
    result after the call is negative (the error state), it returns that
    result unchanged. *)
Theorem format_returns_contribution (o : Output) (fmt : list ascii)
    (args : list Arg) :
  in_int32 (result o) ->
  let r := fst (format o fmt args) in
  let o' := snd (format o fmt args) in
  (0 <= result o' -> r = result o' - result o)
  /\ (result o' < 0 -> r = result o').
Proof.
  intros Hrange r o'.
  pose proof (extends_format o fmt args) as Hext. fold o' in Hext.
  assert (Hr : r = if result o' <? 0 then result o'
                   else wrap32 (result o' - result o)) by reflexivity.
  pose proof (extends_length_range _ _ Hext Hrange) as Hrange'.
  split; intros Hafter.
  - destruct (result o' <? 0) eqn:E; [apply Z.ltb_lt in E; lia|].
    rewrite Hr. apply wrap32_id.
    assert (Hbefore : 0 <= result o).
    { destruct (Z_lt_le_dec (result o) 0) as [Hneg|]; [|assumption].
      rewrite (extends_error _ _ Hext Hneg) in Hafter. lia. }
    unfold in_int32, result in *. lia.
  - rewrite Hr. apply Z.ltb_lt in Hafter. now rewrite Hafter.
Qed.

(** ** Output: the buffer *)

Lemma to_size_t_id (z : Z) : 0 <= z < 2 ^ 64 -> to_size_t z = z.
Proof. intros Hz. unfold to_size_t. now apply Z.mod_small. Qed.

Lemma store_at_app (front back data : list ascii) (n : nat) :
  length front = n ->
  store (front ++ back) n data = front ++ data ++ skipn (length data) back.
Proof.
  intros <-. unfold store.
  rewrite firstn_app, firstn_all, Nat.sub_diag, firstn_O, app_nil_r.
  rewrite skipn_app.
  rewrite (skipn_all2 front) by lia.
  replace (length front + length data - length front)%nat
    with (length data) by lia.
  reflexivity.
Qed.

Lemma buffer_state_init (buffer : list ascii) (cap : Z) :
  1 <= cap <= Z.of_nat (length buffer) -> cap < 2 ^ 31 ->
  buffer_state buffer cap [] (Output_buffer buffer cap).
Proof.
  intros Hcap Hsmall. unfold buffer_state, Output_buffer. simpl.
  rewrite Z.min_l by lia. simpl.
  repeat split; try (rewrite wrap32_id; unfold in_int32; lia).
  destruct buffer as [|x buffer]; [simpl in Hcap; lia|].
  exists x. reflexivity.
Qed.

Lemma buffer_state_write (buffer : list ascii) (cap : Z)
    (sent data : list ascii) (o : Output) :
  1 <= cap <= Z.of_nat (length buffer) -> cap < 2 ^ 31 ->
  Z.of_nat (length (sent ++ data)) < 2 ^ 31 ->
  buffer_state buffer cap sent o ->
  buffer_state buffer cap (sent ++ data) (write o data)
  /\ nth (m_buffer (write o data)) (m_memory (write o data)) "x" = zero.
Proof.
  intros Hcap Hsmall Htotal (Hs & Hl & Hb & Hsz & x & Hm).
  rewrite length_app in Htotal.
  set (k := Z.to_nat (Z.min (Z.of_nat (length sent)) (cap - 1))) in *.
  set (tc := Z.min (cap - Z.of_nat k - 1) (Z.of_nat (length data))).
  assert (Hk : (k <= length sent)%nat) by (unfold k; lia).
  assert (Htc : 0 <= tc <= Z.of_nat (length data)) by (unfold tc, k; lia).
  assert (Hfront : length (firstn k sent) = k)
    by (rewrite length_firstn; lia).
  assert (Hcopy : length (firstn (Z.to_nat tc) data) = Z.to_nat tc)
    by (rewrite length_firstn; lia).
  assert (Hk' : Z.to_nat (Z.min (Z.of_nat (length (sent ++ data))) (cap - 1))
                = (k + Z.to_nat tc)%nat)
    by (rewrite length_app; unfold tc, k; lia).
  assert (Hw : write o data =
    {| m_stream := None;
       m_memory :=
         (firstn k sent ++ firstn (Z.to_nat tc) data)
           ++ zero :: skipn (k + Z.to_nat tc + 1) buffer;
       m_buffer := (k + Z.to_nat tc)%nat;
       m_size := cap - Z.of_nat k - tc;
       m_length := Z.of_nat (length sent) + Z.of_nat (length data) |}).
  { unfold write. rewrite Hl, Hs, Hsz, Hb, Hm.
    destruct (0 <=? Z.of_nat (length sent)) eqn:E;
      [|apply Z.leb_gt in E; lia].
    destruct (cap - Z.of_nat k =? 0) eqn:E0;
      [apply Z.eqb_eq in E0; unfold k in E0; lia|].
    rewrite (to_size_t_id (cap - Z.of_nat k)) by (unfold k; lia).
    rewrite (to_size_t_id (cap - Z.of_nat k - 1)) by (unfold k; lia).
    fold tc.
    rewrite (wrap32_id tc) by (unfold in_int32; lia).
    rewrite (wrap32_id (Z.of_nat (length data)))
      by (unfold in_int32; lia).
    rewrite !wrap32_id by (unfold in_int32, k in *; lia).
    f_equal.
    rewrite (store_at_app _ _ _ k Hfront), Hcopy, app_assoc.
    rewrite (store_at_app _ _ _ (k + Z.to_nat tc))
      by (rewrite length_app; lia).
    simpl length.
    f_equal. f_equal.
    rewrite skipn_skipn.
    replace (1 + Z.to_nat tc)%nat with (S (Z.to_nat tc)) by lia.
    simpl skipn. rewrite skipn_skipn. simpl app. do 2 f_equal. lia. }
  rewrite Hw. simpl. split.
  - unfold buffer_state. cbv zeta. rewrite Hk'. simpl.
    repeat split; try (rewrite length_app; lia); try lia.
    exists zero. f_equal.
    rewrite firstn_app.
    destruct (Nat.eq_dec (Z.to_nat tc) 0) as [Hz|Hnz].
    + rewrite Hz, Nat.add_0_r.
      replace (k - length sent)%nat with 0%nat by lia.
      now rewrite !firstn_O.
    + assert (Hall : k = length sent) by (unfold tc, k in *; lia).
      rewrite Hall, firstn_all.
      rewrite (firstn_all2 (n := length sent + Z.to_nat tc)) by lia.
      do 2 f_equal. lia.
  - rewrite app_nth2 by (rewrite length_app; lia).
    rewrite length_app, Hfront, Hcopy, Nat.sub_diag. reflexivity.
Qed.

Lemma buffer_state_writes (buffer : list ascii) (cap : Z)
    (chunks : list (list ascii)) :
  1 <= cap <= Z.of_nat (length buffer) -> cap < 2 ^ 31 ->
  requested chunks < 2 ^ 31 ->
  buffer_state buffer cap (concat chunks)
    (writes (Output_buffer buffer cap) chunks)
  /\ (chunks <> [] ->
      nth (m_buffer (writes (Output_buffer buffer cap) chunks))
        (m_memory (writes (Output_buffer buffer cap) chunks)) "x" = zero).
Proof.
  intros Hcap Hsmall. unfold requested.
  induction chunks as [|data chunks IH] using rev_ind; intros Htotal.
  - split; [now apply buffer_state_init | congruence].
  - rewrite writes_snoc.
    rewrite concat_app in *. simpl concat in *. rewrite app_nil_r in *.
    destruct IH as [IH _]; [rewrite length_app in Htotal; lia|].
    destruct (buffer_state_write buffer cap (concat chunks) data _
                Hcap Hsmall Htotal IH) as [Hst Hz].
    split; [exact Hst | intros _; exact Hz].
Qed.

(** C3. A buffer output of capacity [cap] (at least one byte, in an array
    that holds as many) after any sequence of writes whose lengths sum up to
    less than [2^31]: [result] is the sum of the requested lengths, also
    when it exceeds the capacity; the cursor has advanced by the count of
    bytes copied, which is the minimum of that sum and [cap - 1]; and after
    each write the array holds the bytes copied, then a null terminator at
    the cursor, then what it held before. *)
Theorem buffer_write_contract (buffer : list ascii) (cap : Z)
    (chunks : list (list ascii)) :
  1 <= cap <= Z.of_nat (length buffer) -> cap < 2 ^ 31 ->
  requested chunks < 2 ^ 31 ->
  let o := writes (Output_buffer buffer cap) chunks in
  let copied := Z.to_nat (Z.min (requested chunks) (cap - 1)) in
  result o = requested chunks
  /\ m_buffer o = copied
  /\ Z.of_nat copied <= cap - 1
  /\ (chunks <> [] ->
      nth (m_buffer o) (m_memory o) "x" = zero
      /\ m_memory o
         = firstn copied (concat chunks) ++ zero :: skipn (copied + 1) buffer).
Proof.
  intros Hcap Hsmall Htotal o copied.
  destruct (buffer_state_writes buffer cap chunks Hcap Hsmall Htotal)
    as [(Hs & Hl & Hb & Hsz & x & Hm) Hz].
  fold o in Hs, Hl, Hb, Hsz, Hm, Hz. unfold requested in *.
  fold copied in Hb, Hm.
  split; [assumption|]. split; [assumption|]. split; [lia|].
  intros Hne. specialize (Hz Hne). split; [exact Hz|].
  { rewrite Hb, Hm in Hz.
    rewrite app_nth2 in Hz by (rewrite length_firstn; lia).
    rewrite length_firstn in Hz.
    replace (copied - Nat.min copied (length (concat chunks)))%nat
      with 0%nat in Hz by lia.
    simpl in Hz. now rewrite Hm, Hz. }
Qed.

(** ** The loop of [parse_format] terminates *)

Lemma parse_step_measure (fmt : list ascii) (p p' : Parse) :
  (p_next p < length fmt)%nat ->
  parse_step fmt p = Some p' ->
  (parse_measure fmt p' < parse_measure fmt p)%nat.
Proof.
  intros Hnext. unfold parse_measure, parse_step.
  destruct (p_state p); simpl parse_rank.
  - destruct (S (p_next p) <? length fmt)%nat eqn:E; simpl andb.
    + apply Nat.ltb_lt in E.
      destruct (isAlign (nth (S (p_next p)) fmt zero));
        [|destruct (isAlign _)];
        intros [= <-]; simpl; lia.
    + destruct (isAlign _); intros [= <-]; simpl; lia.
  - destruct (_ || _); intros [= <-]; simpl; lia.
  - destruct (Ascii.eqb _ "#"); intros [= <-]; simpl; lia.
  - destruct (is_digit _); intros [= <-]; simpl; lia.
  - destruct (_ && _); [|destruct (_ && _)]; intros [= <-]; simpl; lia.
  - destruct (is_type_char _); intros [= <-]; simpl; lia.
  - discriminate.
Qed.

(** Any fuel above the measure gives the same result: [parse_format] is the
    loop run to its end. *)
Lemma parse_loop_enough (fmt : list ascii) (fuel : nat) :
  forall p,
    (parse_measure fmt p < fuel)%nat ->
    parse_loop fuel fmt p = parse_loop (S (parse_measure fmt p)) fmt p.
Proof.
  induction fuel as [fuel IH] using lt_wf_ind. intros p Hfuel.
  destruct fuel as [|fuel]; [lia|].
  cbn [parse_loop].
  destruct (p_next p <? length fmt)%nat eqn:E; [|reflexivity].
  apply Nat.ltb_lt in E.
  destruct (parse_step fmt p) as [p'|] eqn:Estep; [|reflexivity].
  pose proof (parse_step_measure fmt p p' E Estep) as Hdec.
  rewrite (IH fuel) by lia.
  rewrite (IH (parse_measure fmt p)) by lia. reflexivity.
Qed.

(** The first digit of the width, when it is 0, sets the fill and the
    alignment whatever they were before. *)
Lemma zero_width_sets_fill_align (fmt : list ascii) (p : Parse) :
  p_state p = STATE_WIDTH -> nth (p_next p) fmt zero = "0" ->
  width (p_flags p) < 0 ->
  exists p',
    parse_step fmt p = Some p'
    /\ fill (p_flags p') = "0" /\ align (p_flags p') = "="
    /\ width (p_flags p') = 0.
Proof.
  intros Hst Hch Hw. unfold parse_step. rewrite Hst, Hch.
  apply Z.ltb_lt in Hw. rewrite Hw. simpl.
  eexists. split; [reflexivity|]. simpl. repeat split.
Qed.

(** ** The loop of [format] terminates *)

Lemma format_step_measure (fmt : list ascii) (args : list Arg) (c : Scan) :
  (next c < length fmt)%nat ->
  (format_measure fmt (format_step fmt args c) < format_measure fmt c)%nat.
Proof.
  intros Hnext. unfold format_measure, format_step.
  destruct (state c); simpl format_rank.
  - destruct (Ascii.eqb _ "{").
    + destruct (S (next c) <? length fmt)%nat eqn:E.
      * apply Nat.ltb_lt in E. destruct (negb _); simpl; lia.
      * simpl; lia.
    + destruct (Ascii.eqb _ "}"); [|simpl; lia].
      destruct (S (next c) <? length fmt)%nat eqn:E; simpl.
      * apply Nat.ltb_lt in E. destruct (Ascii.eqb _ "}"); simpl; lia.
      * lia.
  - destruct (is_digit _); simpl; lia.
  - destruct (Ascii.eqb _ ":"); simpl; lia.
  - destruct (_ || _); simpl; lia.
  - destruct (Ascii.eqb _ "}"); [|simpl; lia].
    destruct (format_index _ _ _ _); simpl; lia.
Qed.

Lemma format_loop_enough (fmt : list ascii) (args : list Arg) (fuel : nat) :
  forall c,
    (format_measure fmt c <= fuel)%nat ->
    format_loop fuel fmt args c = format_run fmt args c.
Proof.
  unfold format_run.
  induction fuel as [fuel IH] using lt_wf_ind. intros c Hfuel.
  destruct fuel as [|fuel].
  - replace (format_measure fmt c) with 0%nat by lia. reflexivity.
  - destruct (format_measure fmt c) as [|m] eqn:Em.
    + simpl. unfold format_measure in Em.
      destruct (next c <? length fmt)%nat eqn:E; [|reflexivity].
      apply Nat.ltb_lt in E. lia.
    + simpl. destruct (next c <? length fmt)%nat eqn:E; [|reflexivity].
      apply Nat.ltb_lt in E.
      pose proof (format_step_measure fmt args c E) as Hdec.
      rewrite (IH fuel) by lia.
      rewrite (IH m) by lia. reflexivity.
Qed.

Lemma format_run_unfold (fmt : list ascii) (args : list Arg) (c : Scan) :
  format_run fmt args c =
  if (next c <? length fmt)%nat
  then format_run fmt args (format_step fmt args c)
  else c.
Proof.
  destruct (next c <? length fmt)%nat eqn:E.
  - apply Nat.ltb_lt in E.
    pose proof (format_step_measure fmt args c E) as Hdec.
    unfold format_run at 1.
    destruct (format_measure fmt c) as [|m] eqn:Em; [lia|].
    simpl. apply Nat.ltb_lt in E. rewrite E.
    apply format_loop_enough. lia.
  - unfold format_run. destruct (format_measure fmt c); simpl;
      [reflexivity | now rewrite E].
Qed.

(** The loop runs to the end of the template: [format] returns, on every
    template and argument list. *)
Lemma format_run_done (fmt : list ascii) (args : list Arg) (c : Scan) :
  (length fmt <= next (format_run fmt args c))%nat.
Proof.
  remember (format_measure fmt c) as m eqn:Em.
  revert c Em. induction m as [m IH] using lt_wf_ind. intros c Em.
  rewrite format_run_unfold.
  destruct (next c <? length fmt)%nat eqn:E.
  - apply Nat.ltb_lt in E.
    pose proof (format_step_measure fmt args c E) as Hdec.
    apply (IH (format_measure fmt (format_step fmt args c))); [lia|].
    reflexivity.
  - apply Nat.ltb_ge in E. exact E.
Qed.

(** ** The engine, one phase at a time *)

Lemma nth_at (pre suf : list ascii) (ch : ascii) (n : nat) :
  n = length pre -> nth n (pre ++ ch :: suf) zero = ch.
Proof. intros ->. apply nth_middle. Qed.

Lemma ltb_at (pre suf : list ascii) (ch : ascii) (n : nat) :
  n = length pre -> (n <? length (pre ++ ch :: suf))%nat = true.
Proof.
  intros ->. apply Nat.ltb_lt. rewrite length_app. simpl. lia.
Qed.

Lemma nth_after (pre suf : list ascii) (ch ch2 : ascii) (n : nat) :
  n = length pre -> nth (S n) (pre ++ ch :: ch2 :: suf) zero = ch2.
Proof.
  intros ->.
  replace (pre ++ ch :: ch2 :: suf) with ((pre ++ [ch]) ++ ch2 :: suf)
    by (now rewrite <- app_assoc).
  apply nth_at. rewrite length_app. simpl. lia.
Qed.

Lemma ltb_after (pre suf : list ascii) (ch ch2 : ascii) (n : nat) :
  n = length pre -> (S n <? length (pre ++ ch :: ch2 :: suf))%nat = true.
Proof.
  intros ->. apply Nat.ltb_lt. rewrite length_app. simpl. lia.
Qed.

Lemma span_at (fmt a b c : list ascii) (from to : nat) :
  fmt = a ++ b ++ c -> from = length a -> to = (length a + length b)%nat ->
  span fmt from to = b.
Proof.
  intros -> -> ->. unfold span.
  rewrite skipn_app, skipn_all, Nat.sub_diag. simpl.
  replace (length a + length b - length a)%nat with (length b) by lia.
  rewrite firstn_app, firstn_all, Nat.sub_diag. simpl. apply app_nil_r.
Qed.

Lemma span_empty (fmt : list ascii) (n : nat) : span fmt n n = [].
Proof. unfold span. now rewrite Nat.sub_diag. Qed.

Lemma digit_is_not (ch other : ascii) :
  is_digit ch = true -> is_digit other = false -> Ascii.eqb ch other = false.
Proof.
  intros Hd Ho. destruct (Ascii.eqb ch other) eqn:E; [|reflexivity].
  apply Ascii.eqb_eq in E. congruence.
Qed.

Lemma brace_free_cons (ch : ascii) (s : list ascii) :
  brace_free (ch :: s) = true ->
  Ascii.eqb ch "{" = false /\ Ascii.eqb ch "}" = false
  /\ brace_free s = true.
Proof.
  unfold brace_free. simpl. intros Hb.
  apply andb_true_iff in Hb. destruct Hb as [Hch Hs].
  apply negb_true_iff, orb_false_iff in Hch. tauto.
Qed.

Section Phases.

Variable fmt : list ascii.
Variable args : list Arg.

#[local] Abbreviation run := (format_run fmt args).

(** The first iteration of the loop on a character of the template. *)
Lemma run_at (pre suf : list ascii) (ch : ascii) (c : Scan) :
  fmt = pre ++ ch :: suf -> next c = length pre ->
  run c = run (format_step fmt args c) /\ nth (next c) fmt zero = ch.
Proof.
  intros Hfmt Hn.
  assert (Hlt : (next c <? length fmt)%nat = true)
    by (rewrite Hfmt; now apply ltb_at).
  assert (Hch : nth (next c) fmt zero = ch)
    by (rewrite Hfmt; now apply nth_at).
  rewrite format_run_unfold, Hlt. now split.
Qed.

Lemma opener_char (pre suf : list ascii) (ch : ascii) n s fs p i o :
  fmt = pre ++ ch :: suf -> n = length pre ->
  Ascii.eqb ch "{" = false -> Ascii.eqb ch "}" = false ->
  run (Build_Scan STATE_OPENER n s fs p i o)
  = run (Build_Scan STATE_OPENER (S n) s fs p i o).
Proof.
  intros Hfmt Hn Ho Hc.
  destruct (run_at pre suf ch (Build_Scan STATE_OPENER n s fs p i o) Hfmt Hn)
    as [-> Hch].
  unfold format_step. simpl in *. now rewrite Hch, Ho, Hc.
Qed.

Lemma opener_literal (lit : list ascii) :
  forall (pre suf : list ascii) n s fs p i o,
    fmt = pre ++ lit ++ suf -> n = length pre -> brace_free lit = true ->
    run (Build_Scan STATE_OPENER n s fs p i o)
    = run (Build_Scan STATE_OPENER (n + length lit) s fs p i o).
Proof.
  induction lit as [|ch lit IH]; intros pre suf n s fs p i o Hfmt Hn Hb.
  - simpl. now rewrite Nat.add_0_r.
  - apply brace_free_cons in Hb. destruct Hb as (Ho & Hc & Hb).
    rewrite (opener_char pre (lit ++ suf) ch) by assumption.
    rewrite (IH (pre ++ [ch]) suf); try assumption.
    + now replace (n + length (ch :: lit))%nat with (S n + length lit)%nat
        by (simpl; lia).
    + rewrite Hfmt, <- app_assoc. reflexivity.
    + rewrite length_app. simpl. lia.
Qed.

Lemma open_brace (pre rest : list ascii) n s fs p i o :
  fmt = pre ++ "{" :: rest -> n = length pre ->
  rest <> [] -> Ascii.eqb (hd zero rest) "{" = false ->
  run (Build_Scan STATE_OPENER n s fs p i o)
  = run (Build_Scan STATE_INDEX (S n) n None p (-1)
           (write o (span fmt s n))).
Proof.
  intros Hfmt Hn Hne H2.
  destruct rest as [|ch2 suf]; [congruence|]. simpl in H2.
  destruct (run_at pre (ch2 :: suf) "{"
              (Build_Scan STATE_OPENER n s fs p i o) Hfmt Hn) as [-> Hch].
  assert (Hlt : (S n <? length fmt)%nat = true)
    by (rewrite Hfmt; now apply ltb_after).
  assert (Hch2 : nth (S n) fmt zero = ch2)
    by (rewrite Hfmt; now apply nth_after).
  unfold format_step. simpl in *. rewrite Hch. simpl.
  now rewrite Hlt, Hch2, H2.
Qed.

Lemma index_digit (pre suf : list ascii) (ch : ascii) n s fs p i o :
  fmt = pre ++ ch :: suf -> n = length pre -> is_digit ch = true ->
  run (Build_Scan STATE_INDEX n s fs p i o)
  = run (Build_Scan STATE_INDEX (S n) s fs p (digit_step i ch) o).
Proof.
  intros Hfmt Hn Hd.
  destruct (run_at pre suf ch (Build_Scan STATE_INDEX n s fs p i o) Hfmt Hn)
    as [-> Hch].
  unfold format_step. simpl in *. now rewrite Hch, Hd.
Qed.

Lemma index_digits (ds : list ascii) :
  forall (pre suf : list ascii) n s fs p i o,
    fmt = pre ++ ds ++ suf -> n = length pre -> forallb is_digit ds = true ->
    run (Build_Scan STATE_INDEX n s fs p i o)
    = run (Build_Scan STATE_INDEX (n + length ds) s fs p
             (fold_left digit_step ds i) o).
Proof.
  induction ds as [|ch ds IH]; intros pre suf n s fs p i o Hfmt Hn Hd.
  - simpl. now rewrite Nat.add_0_r.
  - simpl in Hd. apply andb_true_iff in Hd. destruct Hd as [Hch Hd].
    rewrite (index_digit pre (ds ++ suf) ch) by assumption.
    rewrite (IH (pre ++ [ch]) suf); try assumption.
    + now replace (n + length (ch :: ds))%nat with (S n + length ds)%nat
        by (simpl; lia).
    + rewrite Hfmt, <- app_assoc. reflexivity.
    + rewrite length_app. simpl. lia.
Qed.

Lemma index_end (pre suf : list ascii) (ch : ascii) n s fs p i o :
  fmt = pre ++ ch :: suf -> n = length pre -> is_digit ch = false ->
  run (Build_Scan STATE_INDEX n s fs p i o)
  = run (Build_Scan STATE_MARKER n s fs
           (if i <? 0 then wrap32 (p + 1) else i)
           (if i <? 0 then wrap32 (p + 1) else i) o).
Proof.
  intros Hfmt Hn Hd.
  destruct (run_at pre suf ch (Build_Scan STATE_INDEX n s fs p i o) Hfmt Hn)
    as [-> Hch].
  unfold format_step. simpl in *. now rewrite Hch, Hd.
Qed.

Lemma marker_colon (pre suf : list ascii) n s fs p i o :
  fmt = pre ++ ":" :: suf -> n = length pre ->
  run (Build_Scan STATE_MARKER n s fs p i o)
  = run (Build_Scan STATE_FLAGS (S n) s fs p i o).
Proof.
  intros Hfmt Hn.
  destruct (run_at pre suf ":" (Build_Scan STATE_MARKER n s fs p i o) Hfmt Hn)
    as [-> Hch].
  unfold format_step. simpl in *. now rewrite Hch.
Qed.

Lemma marker_other (pre suf : list ascii) (ch : ascii) n s fs p i o :
  fmt = pre ++ ch :: suf -> n = length pre -> Ascii.eqb ch ":" = false ->
  run (Build_Scan STATE_MARKER n s fs p i o)
  = run (Build_Scan STATE_CLOSER n s fs p i o).
Proof.
  intros Hfmt Hn Hc.
  destruct (run_at pre suf ch (Build_Scan STATE_MARKER n s fs p i o) Hfmt Hn)
    as [-> Hch].
  unfold format_step. simpl in *. now rewrite Hch, Hc.
Qed.

Lemma flags_char (pre suf : list ascii) (ch : ascii) n s fs p i o :
  fmt = pre ++ ch :: suf -> n = length pre ->
  Ascii.eqb ch "{" = false -> Ascii.eqb ch "}" = false ->
  run (Build_Scan STATE_FLAGS n s fs p i o)
  = run (Build_Scan STATE_FLAGS (S n) s (or_here fs n) p i o).
Proof.
  intros Hfmt Hn Ho Hc.
  destruct (run_at pre suf ch (Build_Scan STATE_FLAGS n s fs p i o) Hfmt Hn)
    as [-> Hch].
  unfold format_step. simpl in *. now rewrite Hch, Ho, Hc.
Qed.

Lemma flags_chars (spec : list ascii) :
  forall (pre suf : list ascii) n s fs p i o,
    fmt = pre ++ spec ++ suf -> n = length pre -> brace_free spec = true ->
    run (Build_Scan STATE_FLAGS n s fs p i o)
    = run (Build_Scan STATE_FLAGS (n + length spec) s
             (match spec with [] => fs | _ => or_here fs n end) p i o).
Proof.
  induction spec as [|ch spec IH]; intros pre suf n s fs p i o Hfmt Hn Hb.
  - simpl. now rewrite Nat.add_0_r.
  - apply brace_free_cons in Hb. destruct Hb as (Ho & Hc & Hb).
    rewrite (flags_char pre (spec ++ suf) ch) by assumption.
    rewrite (IH (pre ++ [ch]) suf); try assumption.
    + replace (n + length (ch :: spec))%nat with (S n + length spec)%nat
        by (simpl; lia).
      destruct spec, fs; reflexivity.
    + rewrite Hfmt, <- app_assoc. reflexivity.
    + rewrite length_app. simpl. lia.
Qed.

Lemma flags_end (pre suf : list ascii) n s fs p i o :
  fmt = pre ++ "}" :: suf -> n = length pre ->
  run (Build_Scan STATE_FLAGS n s fs p i o)
  = run (Build_Scan STATE_CLOSER n s (or_here fs n) p i o).
Proof.
  intros Hfmt Hn.
  destruct (run_at pre suf "}" (Build_Scan STATE_FLAGS n s fs p i o) Hfmt Hn)
    as [-> Hch].
  unfold format_step. simpl in *. now rewrite Hch.
Qed.

Lemma closer (pre suf : list ascii) n s fs p i o :
  fmt = pre ++ "}" :: suf -> n = length pre ->
  run (Build_Scan STATE_CLOSER n s fs p i o)
  = run (let '(ok, o') :=
           format_index o
             match fs with
             | Some q => span fmt q n
             | None => []
             end i args in
         Build_Scan STATE_OPENER (S n) (if ok then S n else s) fs p i o').
Proof.
  intros Hfmt Hn.
  destruct (run_at pre suf "}" (Build_Scan STATE_CLOSER n s fs p i o) Hfmt Hn)
    as [-> Hch].
  unfold format_step. simpl in *. now rewrite Hch.
Qed.

Lemma placeholder_head (p : Placeholder) (suf : list ascii) :
  forallb is_digit (ph_digits p) = true ->
  ph_digits p ++ ph_marker p ++ "}" :: suf <> []
  /\ Ascii.eqb (hd zero (ph_digits p ++ ph_marker p ++ "}" :: suf)) "{"
     = false.
Proof.
  intros Hd. unfold ph_marker.
  destruct (ph_digits p) as [|d ds]; simpl in *.
  - destruct (ph_spec p); simpl; split; congruence || reflexivity.
  - apply andb_true_iff in Hd. destruct Hd as [Hd _].
    split; [congruence | now apply digit_is_not].
Qed.

(** The engine from the opening brace of a placeholder of a plain template
    to the character after its closing brace. *)
Lemma placeholder_run (ph : Placeholder) (pre suf : list ascii) n s fs p i o :
  fmt = pre ++ ph_text ph ++ suf -> n = length pre ->
  forallb is_digit (ph_digits ph) = true ->
  brace_free (ph_format ph) = true ->
  exists fs',
    run (Build_Scan STATE_OPENER n s fs p i o)
    = run (let idx := resolve_index p (ph_digits ph) in
           let '(ok, o') :=
             format_index (write o (span fmt s n)) (ph_format ph) idx args in
           Build_Scan STATE_OPENER (n + length (ph_text ph))
             (if ok then (n + length (ph_text ph))%nat else n) fs' idx idx o').
Proof.
  intros Hfmt Hn Hd Hb.
  destruct (placeholder_head ph suf Hd) as [Hne Hhd].
  rewrite (open_brace pre (ph_digits ph ++ ph_marker ph ++ "}" :: suf))
    by (assumption || list_eq Hfmt).
  rewrite (index_digits (ph_digits ph) (pre ++ ["{"])
             (ph_marker ph ++ "}" :: suf))
    by (assumption || list_eq Hfmt || length_eq).
  fold (resolve_index p (ph_digits ph)).
  unfold ph_text, ph_format, ph_marker in *.
  destruct (ph_spec ph) as [spec|].
  - rewrite (index_end (pre ++ "{" :: ph_digits ph) (spec ++ "}" :: suf) ":")
      by (reflexivity || list_eq Hfmt || length_eq).
    fold (resolve_index p (ph_digits ph)).
    rewrite (marker_colon (pre ++ "{" :: ph_digits ph) (spec ++ "}" :: suf))
      by (list_eq Hfmt || length_eq).
    rewrite (flags_chars spec (pre ++ "{" :: ph_digits ph ++ [":"])
               ("}" :: suf))
      by (assumption || list_eq Hfmt || length_eq).
    rewrite (flags_end (pre ++ "{" :: ph_digits ph ++ ":" :: spec) suf)
      by (list_eq Hfmt || length_eq).
    rewrite (closer (pre ++ "{" :: ph_digits ph ++ ":" :: spec) suf)
      by (list_eq Hfmt || length_eq).
    eexists. f_equal.
    assert (Hspan :
      match
        or_here
          match spec with
          | [] => None
          | _ :: _ => or_here None (S (S n + length (ph_digits ph)))
          end (S (S n + length (ph_digits ph)) + length spec)
      with
      | Some q =>
          span fmt q (S (S n + length (ph_digits ph)) + length spec)
      | None => []
      end = spec).
    { destruct spec as [|ch spec]; simpl or_here; cbv iota.
      - apply span_empty.
      - apply (span_at fmt (pre ++ "{" :: ph_digits ph ++ [":"])
                 (ch :: spec) ("}" :: suf));
          [list_eq Hfmt | length_eq | length_eq]. }
    rewrite Hspan. cbv zeta.
    destruct (format_index _ _ _ _) as [ok o'].
    replace (S (S (S n + length (ph_digits ph)) + length spec))
      with (n + length ("{" :: ph_digits ph ++ (":" :: spec) ++ ["}"]))%nat
      by length_eq.
    reflexivity.
  - rewrite (index_end (pre ++ "{" :: ph_digits ph) suf "}")
      by (reflexivity || list_eq Hfmt || length_eq).
    fold (resolve_index p (ph_digits ph)).
    rewrite (marker_other (pre ++ "{" :: ph_digits ph) suf "}")
      by (reflexivity || list_eq Hfmt || length_eq).
    rewrite (closer (pre ++ "{" :: ph_digits ph) suf)
      by (list_eq Hfmt || length_eq).
    eexists. f_equal. cbv zeta.
    destruct (format_index _ _ _ _) as [ok o'].
    replace (S (S n + length (ph_digits ph)))
      with (n + length ("{" :: ph_digits ph ++ [] ++ ["}"]))%nat
      by length_eq.
    reflexivity.
Qed.

Lemma escape_open (pre suf : list ascii) n s fs p i o :
  fmt = pre ++ "{" :: "{" :: suf -> n = length pre ->
  run (Build_Scan STATE_OPENER n s fs p i o)
  = run (Build_Scan STATE_OPENER (S (S n)) (S n) fs p i
           (write o (span fmt s n))).
Proof.
  intros Hfmt Hn.
  destruct (run_at pre ("{" :: suf) "{"
              (Build_Scan STATE_OPENER n s fs p i o) Hfmt Hn) as [-> Hch].
  assert (Hlt : (S n <? length fmt)%nat = true)
    by (rewrite Hfmt; now apply ltb_after).
  assert (Hch2 : nth (S n) fmt zero = "{")
    by (rewrite Hfmt; now apply nth_after).
  unfold format_step. simpl in *. rewrite Hch. simpl.
  now rewrite Hlt, Hch2.
Qed.

Lemma opener_close (pre suf : list ascii) n s fs p i o :
  fmt = pre ++ "}" :: suf -> n = length pre ->
  run (Build_Scan STATE_OPENER n s fs p i o)
  = run (Build_Scan STATE_OPENER
           (if starts_with_close suf then S (S n) else S n)
           (if starts_with_close suf then S (S n) else S n) fs p i
           (write o (span fmt s (S n)))).
Proof.
  intros Hfmt Hn.
  destruct (run_at pre suf "}"
              (Build_Scan STATE_OPENER n s fs p i o) Hfmt Hn) as [-> Hch].
  unfold format_step. simpl in *. rewrite Hch. simpl.
  destruct suf as [|ch2 suf].
  - assert (Hlt : (S n <? length fmt)%nat = false).
    { rewrite Hfmt. apply Nat.ltb_ge. rewrite length_app. simpl. lia. }
    rewrite Hlt. reflexivity.
  - assert (Hlt : (S n <? length fmt)%nat = true)
      by (rewrite Hfmt; now apply ltb_after).
    assert (Hch2 : nth (S n) fmt zero = ch2)
      by (rewrite Hfmt; now apply nth_after).
    rewrite Hlt, Hch2. simpl. destruct (Ascii.eqb ch2 "}"); reflexivity.
Qed.

Lemma starts_with_close_cons (suf : list ascii) :
  starts_with_close ("}" :: suf) = true.
Proof. reflexivity. Qed.

(** The engine from an item of a template to the end of the template. *)
Lemma template_run (before : Z) (items : list Item) :
  forall (pre pending : list ascii) n s fs p i o,
    fmt = pre ++ pending ++ template_of items ->
    s = length pre -> n = (length pre + length pending)%nat ->
    well_formed items = true ->
    snd (format_finish fmt before
           (run (Build_Scan STATE_OPENER n s fs p i o)))
    = template_format args p pending items o.
Proof.
  unfold template_format.
  induction items as [|it rest IH];
    intros pre pending n s fs p i o Hfmt Hs Hn Hwf.
  - simpl in Hfmt. rewrite app_nil_r in Hfmt.
    assert (Hterm : length fmt = n) by (rewrite Hfmt; length_eq).
    rewrite format_run_unfold. simpl next.
    rewrite Hterm, Nat.ltb_irrefl.
    unfold format_finish, template_finish.
    simpl snd. simpl start. simpl output. simpl fst.
    rewrite Hterm.
    destruct pending as [|ch pending].
    + simpl in Hn. replace (s =? n)%nat with true; [reflexivity|].
      symmetry. apply Nat.eqb_eq. lia.
    + replace (s =? n)%nat with false
        by (symmetry; apply Nat.eqb_neq; simpl in Hn; lia).
      f_equal.
      apply (span_at fmt pre (ch :: pending) []);
        [list_eq Hfmt | assumption | length_eq].
  - change (template_of (it :: rest))
      with (item_text it ++ template_of rest) in Hfmt.
    cbn [well_formed] in Hwf. apply andb_true_iff in Hwf.
    destruct Hwf as [Hit Hrest].
    destruct it as [lit| | | |ph]; cbn [item_text] in Hfmt;
      cbn [template_scan].
    + rewrite (opener_literal lit (pre ++ pending) (template_of rest))
        by (assumption || app_eq Hfmt || length_eq).
      apply (IH pre (pending ++ lit)); try assumption;
        [app_eq Hfmt | length_eq].
    + rewrite (escape_open (pre ++ pending) (template_of rest))
        by (app_eq Hfmt || length_eq).
      rewrite (span_at fmt pre pending ("{" :: "{" :: template_of rest))
        by (assumption || app_eq Hfmt || length_eq).
      apply (IH (pre ++ pending ++ ["{"]) ["{"]); try assumption;
        [app_eq Hfmt | length_eq | length_eq].
    + rewrite (opener_close (pre ++ pending) ("}" :: template_of rest))
        by (app_eq Hfmt || length_eq).
      rewrite starts_with_close_cons.
      rewrite (span_at fmt pre (pending ++ ["}"]) ("}" :: template_of rest))
        by (assumption || app_eq Hfmt || length_eq).
      apply (IH (pre ++ pending ++ ["}"; "}"]) []); try assumption;
        [app_eq Hfmt | length_eq | length_eq].
    + rewrite (opener_close (pre ++ pending) (template_of rest))
        by (app_eq Hfmt || length_eq).
      apply negb_true_iff in Hit. rewrite Hit.
      rewrite (span_at fmt pre (pending ++ ["}"]) (template_of rest))
        by (assumption || app_eq Hfmt || length_eq).
      apply (IH (pre ++ pending ++ ["}"]) []); try assumption;
        [app_eq Hfmt | length_eq | length_eq].
    + unfold plain in Hit. apply andb_true_iff in Hit.
      destruct Hit as [Hdigits Hspec].
      destruct (placeholder_run ph (pre ++ pending) (template_of rest)
                  n s fs p i o) as [fs' ->];
        try assumption; [app_eq Hfmt | length_eq |].
      rewrite (span_at fmt pre pending (ph_text ph ++ template_of rest))
        by (assumption || app_eq Hfmt || length_eq).
      cbv zeta.
      destruct (format_index _ _ _ _) as [[|] o'].
      * apply (IH (pre ++ pending ++ ph_text ph) []); try assumption;
          [app_eq Hfmt | length_eq | length_eq].
      * apply (IH (pre ++ pending) (ph_text ph)); try assumption;
          [app_eq Hfmt | length_eq | length_eq].
Qed.

End Phases.

(** [format] on a template of the grammar does what [template_format]
    describes. *)
Lemma format_template (o : Output) (items : list Item) (args : list Arg) :
  well_formed items = true ->
  snd (format o (template_of items) args)
  = template_format args (-1) [] items o.
Proof.
  intros Hwf. unfold format, format_init.
  apply (template_run (template_of items) args (result o) items [] []);
    try assumption; reflexivity.
Qed.

(** ** Failed dispatch *)

Lemma format_index_out_of_range (args : list Arg) :
  forall (o : Output) (format : list ascii) (idx : Z),
    in_int32 idx -> Z.of_nat (length args) < 2 ^ 31 ->
    idx < 0 \/ Z.of_nat (length args) <= idx ->
    format_index o format idx args = (false, o).
Proof.
  induction args as [|arg rest IH]; intros o format idx Hidx Hlen Hout;
    [reflexivity|].
  simpl format_index. simpl length in *.
  destruct (idx =? 0) eqn:E; [apply Z.eqb_eq in E; lia|].
  apply IH; [apply wrap32_range | lia |].
  unfold in_int32 in Hidx.
  destruct (Z.eq_dec idx (- 2 ^ 31)) as [->|Hmin].
  - right. change (wrap32 (- 2 ^ 31 - 1)) with (2 ^ 31 - 1). lia.
  - rewrite wrap32_id by (unfold in_int32; lia). lia.
Qed.

Lemma format_index_nth (args : list Arg) :
  forall (o : Output) (format : list ascii) (idx : Z),
    0 <= idx < Z.of_nat (length args) -> Z.of_nat (length args) < 2 ^ 31 ->
    format_index o format idx args
    = format_value o format (nth (Z.to_nat idx) args ADummy).
Proof.
  induction args as [|arg rest IH]; intros o format idx Hidx Hlen;
    [simpl in Hidx; lia|].
  simpl format_index. simpl length in *.
  destruct (idx =? 0) eqn:E.
  - apply Z.eqb_eq in E. subst idx. reflexivity.
  - apply Z.eqb_neq in E.
    rewrite wrap32_id by (unfold in_int32; lia).
    rewrite IH by lia.
    replace (Z.to_nat idx) with (S (Z.to_nat (idx - 1))) by lia.
    reflexivity.
Qed.

Lemma format_string_rejects (o : Output) (format str : list ascii) :
  fst (parse_format format) = false ->
  format_string o format str = (false, o).
Proof.
  intros Hp. unfold format_string.
  destruct (parse_format format) as [ok flags]. simpl in Hp.
  now subst ok.
Qed.

Lemma format_float_rejects (d : Z) (o : Output) (format : list ascii)
    (value : Float) :
  fst (parse_format format) = false ->
  format_float d o format value = (false, o).
Proof.
  intros Hp. unfold format_float.
  destruct (parse_format format) as [ok flags]. simpl in Hp.
  now subst ok.
Qed.

(** A dispatch that fails for one of the three causes returns [false] and
    has written nothing. *)
Lemma failed_dispatch_writes_nothing (args : list Arg) (o : Output)
    (spec : list ascii) (idx : Z) :
  in_int32 idx -> Z.of_nat (length args) < 2 ^ 31 ->
  dispatch_fails args idx spec ->
  format_index o spec idx args = (false, o).
Proof.
  intros Hidx Hlen [Hneg | [Hbig | Harg]].
  - apply format_index_out_of_range; auto.
  - apply format_index_out_of_range; auto.
  - destruct (Z_lt_le_dec idx 0) as [Hneg|Hpos];
      [apply format_index_out_of_range; auto|].
    destruct (Z_lt_le_dec idx (Z.of_nat (length args))) as [Hin|Hbig];
      [|apply format_index_out_of_range; auto].
    rewrite format_index_nth by lia.
    destruct (nth (Z.to_nat idx) args ADummy) as [b|v|v|v|v|v|v| |custom];
      simpl format_value;
      try (now apply format_string_rejects);
      try (now apply format_float_rejects);
      try reflexivity; try contradiction;
      destruct (parse_format spec) as [ok flags]; simpl in Harg;
      now subst ok.
Qed.

(** ** The index of a placeholder *)

Lemma digit_value (ch : ascii) :
  is_digit ch = true -> 0 <= code ch - code "0" <= 9.
Proof.
  unfold is_digit. intros Hd. apply andb_true_iff in Hd.
  destruct Hd as [Hlo Hhi]. apply Z.leb_le in Hlo, Hhi.
  change (code "0") with 48 in *. change (code "9") with 57 in *. lia.
Qed.

Lemma decimal_fold_ge (ds : list ascii) :
  forall acc, 0 <= acc -> forallb is_digit ds = true ->
    acc <= fold_left (fun a ch => 10 * a + (code ch - code "0")) ds acc.
Proof.
  induction ds as [|d ds IH]; intros acc Hacc Hd; cbn [fold_left]; [lia|].
  cbn [forallb] in Hd. apply andb_true_iff in Hd. destruct Hd as [Hd Hds].
  pose proof (digit_value d Hd).
  specialize (IH (10 * acc + (code d - code "0")) ltac:(lia) Hds). lia.
Qed.

Lemma digit_steps_decimal (ds : list ascii) :
  forall acc, 0 <= acc -> forallb is_digit ds = true ->
    fold_left (fun a ch => 10 * a + (code ch - code "0")) ds acc < 2 ^ 31 ->
    fold_left digit_step ds acc
    = fold_left (fun a ch => 10 * a + (code ch - code "0")) ds acc.
Proof.
  induction ds as [|d ds IH]; intros acc Hacc Hd Hfit; cbn [fold_left];
    [reflexivity|].
  cbn [forallb fold_left] in Hd, Hfit.
  apply andb_true_iff in Hd. destruct Hd as [Hd Hds].
  pose proof (digit_value d Hd) as Hv.
  pose proof (decimal_fold_ge ds (10 * acc + (code d - code "0"))
                ltac:(lia) Hds) as Hge.
  assert (Hstep : digit_step acc d = 10 * acc + (code d - code "0")).
  { unfold digit_step.
    destruct (acc <? 0) eqn:E; [apply Z.ltb_lt in E; lia|].
    rewrite (wrap32_id (acc * 10)) by (unfold in_int32; lia).
    rewrite wrap32_id by (unfold in_int32; lia). lia. }
  rewrite Hstep. apply IH; [lia | assumption | assumption].
Qed.

(** The index that the engine resolves is the index of the specification,
    as long as that is an [int32_t]. *)
Lemma resolve_index_spec (prev0 : Z) (ds : list ascii) :
  -1 <= prev0 -> forallb is_digit ds = true ->
  spec_index prev0 ds < 2 ^ 31 ->
  resolve_index prev0 ds = spec_index prev0 ds /\ 0 <= spec_index prev0 ds.
Proof.
  intros Hprev Hd Hfit. unfold resolve_index, spec_index in *.
  destruct ds as [|d ds].
  - cbn [fold_left]. change (-1 <? 0) with true. cbv iota.
    rewrite wrap32_id by (unfold in_int32; lia). lia.
  - unfold decimal in *. cbn [fold_left] in *.
    cbn [forallb] in Hd. apply andb_true_iff in Hd. destruct Hd as [Hd Hds].
    pose proof (digit_value d Hd) as Hv.
    replace (digit_step (-1) d) with (10 * 0 + (code d - code "0"))
      by (unfold digit_step; change (-1 <? 0) with true; cbv iota; lia).
    pose proof (decimal_fold_ge ds (10 * 0 + (code d - code "0"))
                  ltac:(lia) Hds) as Hge.
    rewrite digit_steps_decimal by (assumption || lia).
    destruct (_ <? 0) eqn:E; [apply Z.ltb_lt in E; lia|]. lia.
Qed.

Lemma resolve_index_range (prev0 : Z) (ds : list ascii) :
  in_int32 (resolve_index prev0 ds).
Proof.
  unfold resolve_index.
  destruct (_ <? 0) eqn:E; [apply wrap32_range|].
  apply Z.ltb_ge in E.
  destruct ds as [|d ds] using rev_ind; [cbn [fold_left] in E; lia|].
  rewrite fold_left_app in *. cbn [fold_left] in *. unfold digit_step in *.
  destruct (_ <? 0) eqn:E2; [|apply wrap32_range].
  unfold in_int32. split; [lia|].
  pose proof (N_ascii_bounded d). change (code "0") with 48.
  unfold code. lia.
Qed.

Lemma template_scan_counted (args : list Arg) (items : list Item) :
  forall prev0 pending o,
    -1 <= prev0 -> well_formed items = true ->
    indices_fit prev0 items = true ->
    template_scan resolve_index args prev0 pending items o
    = template_scan spec_index args prev0 pending items o.
Proof.
  induction items as [|it rest IH]; intros prev0 pending o Hprev Hwf Hfit;
    [reflexivity|].
  cbn [well_formed] in Hwf. apply andb_true_iff in Hwf.
  destruct Hwf as [Hit Hrest].
  destruct it as [lit| | | |ph]; cbn [template_scan indices_fit] in *;
    try (now apply IH).
  apply andb_true_iff in Hfit. destruct Hfit as [Hidx Hfit].
  apply Z.ltb_lt in Hidx.
  unfold plain in Hit. apply andb_true_iff in Hit. destruct Hit as [Hd _].
  destruct (resolve_index_spec prev0 (ph_digits ph) Hprev Hd Hidx)
    as [-> Hpos].
  destruct (format_index _ _ _ _) as [ok o'].
  apply IH; [lia | assumption | assumption].
Qed.

Lemma template_scan_app (resolve : Z -> list ascii -> Z) (args : list Arg)
    (items1 items2 : list Item) :
  forall prev0 pending o,
    template_scan resolve args prev0 pending (items1 ++ items2) o
    = let '(prev1, pending1, o1) :=
        template_scan resolve args prev0 pending items1 o in
      template_scan resolve args prev1 pending1 items2 o1.
Proof.
  induction items1 as [|it rest IH]; intros prev0 pending o.
  - simpl. now destruct (template_scan _ _ _ _ _ _) as [[? ?] ?].
  - destruct it as [lit| | | |ph]; cbn [app template_scan]; try apply IH.
    destruct (format_index _ _ _ _) as [ok o']. apply IH.
Qed.

Lemma template_scan_range (args : list Arg) (items : list Item) :
  forall prev0 pending o,
    in_int32 prev0 ->
    in_int32
      (fst (fst (template_scan resolve_index args prev0 pending items o))).
Proof.
  induction items as [|it rest IH]; intros prev0 pending o Hprev;
    [exact Hprev|].
  destruct it as [lit| | | |ph]; cbn [template_scan]; try now apply IH.
  destruct (format_index _ _ _ _) as [ok o'].
  apply IH, resolve_index_range.
Qed.

(** ** What the engine has read, on every template *)

Lemma is_digit_code (ch : ascii) :
  is_digit ch = true -> in_int32 (code ch - code "0").
Proof.
  intros Hd. pose proof (digit_value ch Hd). unfold in_int32. lia.
Qed.

Lemma brace_free_snoc (s : list ascii) (ch : ascii) :
  brace_free s = true -> Ascii.eqb ch "}" || Ascii.eqb ch "{" = false ->
  brace_free (s ++ [ch]) = true.
Proof.
  intros Hs Hch. unfold brace_free in *. rewrite forallb_app, Hs. simpl.
  apply orb_false_iff in Hch. destruct Hch as [-> ->]. reflexivity.
Qed.

Lemma scan_inv_init (fmt : list ascii) (o : Output) :
  scan_inv fmt (format_init o (-1)).
Proof.
  split; [unfold in_int32; simpl; lia|].
  exists [], [], fmt. repeat split.
Qed.

Lemma scan_inv_step (fmt : list ascii) (args : list Arg) (c : Scan) :
  scan_inv fmt c -> (next c < length fmt)%nat ->
  scan_inv fmt (format_step fmt args c).
Proof.
  intros [Hidx (pre & body & suf & Hfmt & Hs & Hn & Hshape)] Hlt.
  destruct suf as [|ch suf];
    [rewrite Hfmt, app_nil_r, length_app in Hlt; lia|].
  assert (Hch : nth (next c) fmt zero = ch).
  { rewrite Hfmt, app_assoc. apply nth_at. length_eq. }
  unfold scan_inv, format_step. rewrite Hch. clear Hch.
  destruct c as [st n s fs p i o]. unfold scan_shape in *. simpl in *.
  destruct st.
  - (* STATE_OPENER *)
    destruct (Ascii.eqb ch "{") eqn:Eo.
    + apply Ascii.eqb_eq in Eo. subst ch.
      destruct suf as [|ch2 suf].
      * replace (S n <? length fmt)%nat with false
          by (symmetry; apply Nat.ltb_ge; rewrite Hfmt; length_eq).
        simpl. split; [assumption|].
        exists pre, (body ++ ["{"]), []. frame Hfmt.
      * replace (S n <? length fmt)%nat with true
          by (symmetry; apply Nat.ltb_lt; rewrite Hfmt; length_eq).
        replace (nth (S n) fmt zero) with ch2
          by (symmetry; rewrite Hfmt, app_assoc; apply nth_after; length_eq).
        destruct (Ascii.eqb ch2 "{") eqn:E2; simpl.
        -- apply Ascii.eqb_eq in E2. subst ch2. split; [assumption|].
           exists (pre ++ body ++ ["{"]), ["{"], suf. frame Hfmt.
        -- split; [unfold in_int32; lia|].
           exists (pre ++ body), ["{"], (ch2 :: suf). frame Hfmt.
           exists []. repeat split.
    + destruct (Ascii.eqb ch "}") eqn:Ec; simpl.
      * apply Ascii.eqb_eq in Ec. subst ch. split; [assumption|].
        destruct suf as [|ch2 suf].
        -- replace (S n <? length fmt)%nat with false
             by (symmetry; apply Nat.ltb_ge; rewrite Hfmt; length_eq).
           simpl. exists (pre ++ body ++ ["}"]), [], []. frame Hfmt.
        -- replace (S n <? length fmt)%nat with true
             by (symmetry; apply Nat.ltb_lt; rewrite Hfmt; length_eq).
           replace (nth (S n) fmt zero) with ch2
             by (symmetry; rewrite Hfmt, app_assoc; apply nth_after;
                 length_eq).
           simpl. destruct (Ascii.eqb ch2 "}") eqn:E2.
           ++ apply Ascii.eqb_eq in E2. subst ch2.
              exists (pre ++ body ++ ["}"; "}"]), [], suf. frame Hfmt.
           ++ exists (pre ++ body ++ ["}"]), [], (ch2 :: suf). frame Hfmt.
      * split; [assumption|].
        exists pre, (body ++ [ch]), suf. frame Hfmt.
  - (* STATE_INDEX *)
    destruct Hshape as (ds & Hbody & Hd & Hfs & Hi).
    destruct (is_digit ch) eqn:Ed; simpl.
    + split.
      * destruct (i <? 0); [now apply is_digit_code | apply wrap32_range].
      * exists pre, (body ++ [ch]), suf. frame Hfmt.
        exists (ds ++ [ch]). rewrite Hbody, forallb_app, Hd. simpl.
        rewrite Ed. repeat split; [assumption|].
        rewrite fold_left_app, <- Hi. reflexivity.
    + split; [destruct (i <? 0); [apply wrap32_range | assumption]|].
      exists pre, body, (ch :: suf). repeat split; try assumption.
      exists ds. repeat split; assumption.
  - (* STATE_MARKER *)
    destruct Hshape as (ds & Hbody & Hd & Hfs).
    split; [destruct (Ascii.eqb ch ":"); assumption|].
    destruct (Ascii.eqb ch ":") eqn:Em; simpl.
    + apply Ascii.eqb_eq in Em. subst ch.
      exists pre, (body ++ [":"]), suf. frame Hfmt.
      exists ds, []. rewrite Hbody. repeat split; assumption.
    + exists pre, body, (ch :: suf). repeat split; try assumption.
      exists {| ph_digits := ds; ph_spec := None |}.
      unfold plain, ph_marker, ph_format. simpl.
      rewrite Hbody, app_nil_r, Hd. repeat split. assumption.
  - (* STATE_FLAGS *)
    destruct Hshape as (ds & spec & Hbody & Hd & Hb & Hfs).
    split; [destruct (_ || _); assumption|].
    destruct (Ascii.eqb ch "}" || Ascii.eqb ch "{") eqn:Eb; simpl.
    + exists pre, body, (ch :: suf). repeat split; try assumption.
      exists {| ph_digits := ds; ph_spec := Some spec |}.
      unfold plain, ph_marker, ph_format. simpl.
      rewrite Hd, Hb. repeat split; [assumption|].
      rewrite Hfs. destruct spec; [|reflexivity].
      f_equal. rewrite Hn, Hbody. length_eq.
    + exists pre, (body ++ [ch]), suf. frame Hfmt.
      exists ds, (spec ++ [ch]). rewrite Hbody. repeat split.
      * simpl. now rewrite <- app_assoc.
      * assumption.
      * now apply brace_free_snoc.
      * rewrite Hfs. destruct spec; simpl; [|reflexivity].
        f_equal. rewrite Hn, Hbody. length_eq.
  - (* STATE_CLOSER *)
    destruct (Ascii.eqb ch "}"); simpl.
    + destruct (format_index _ _ _ _) as [[|] o']; simpl;
        (split; [assumption|]).
      * exists (pre ++ body ++ [ch]), [], suf. frame Hfmt.
      * exists pre, (body ++ [ch]), suf. frame Hfmt.
    + split; [assumption|].
      exists pre, (body ++ [ch]), suf. frame Hfmt.
Qed.

Lemma reached_inv (fmt : list ascii) (args : list Arg) (o : Output)
    (c : Scan) :
  reached fmt args o c -> scan_inv fmt c.
Proof.
  induction 1 as [|c Hc IH Hlt];
    [apply scan_inv_init | now apply scan_inv_step].
Qed.

Lemma reached_run (fmt : list ascii) (args : list Arg) (o : Output)
    (c : Scan) :
  reached fmt args o c ->
  format_run fmt args (format_init o (-1)) = format_run fmt args c.
Proof.
  induction 1 as [|c Hc IH Hlt]; [reflexivity|].
  rewrite IH, (format_run_unfold fmt args c).
  apply Nat.ltb_lt in Hlt. now rewrite Hlt.
Qed.

(** ** The text that is pending is written *)

Lemma firstn_snoc (l : list ascii) :
  forall k, (k < length l)%nat ->
    firstn (S k) l = firstn k l ++ [nth k l zero].
Proof.
  induction l as [|x l IH]; intros k Hk; [simpl in Hk; lia|].
  destruct k as [|k]; [reflexivity|].
  simpl in Hk. cbn [firstn nth app]. f_equal. apply IH. lia.
Qed.

Lemma nth_skipn_add (l : list ascii) :
  forall s k, nth k (skipn s l) zero = nth (s + k) l zero.
Proof.
  induction l as [|x l IH]; intros s k.
  - rewrite skipn_nil. now destruct k, s.
  - destruct s as [|s]; [reflexivity|]. simpl. apply IH.
Qed.

Lemma span_snoc (fmt : list ascii) (from to : nat) :
  (from <= to < length fmt)%nat ->
  span fmt from (S to) = span fmt from to ++ [nth to fmt zero].
Proof.
  intros Hr. unfold span.
  replace (S to - from)%nat with (S (to - from)) by lia.
  rewrite firstn_snoc by (rewrite length_skipn; lia).
  rewrite nth_skipn_add. do 3 f_equal. lia.
Qed.

Lemma extends_finish_run (fmt : list ascii) (args : list Arg) (before : Z)
    (c : Scan) :
  extends (output c)
    (snd (format_finish fmt before (format_run fmt args c))).
Proof.
  unfold format_finish, format_run. simpl snd.
  pose proof (extends_format_loop fmt args (format_measure fmt c) c) as Hx.
  destruct (_ =? _)%nat; [exact Hx | now apply extends_step_write].
Qed.

(** In [STATE_OPENER] the text from [start] to [next] is the head of the
    next chunk written. *)
Lemma pending_written (fmt : list ascii) (args : list Arg) (before : Z)
    (m : nat) :
  forall c,
    (length fmt - next c <= m)%nat ->
    state c = STATE_OPENER ->
    (start c < next c <= length fmt)%nat ->
    exists tail chunks,
      snd (format_finish fmt before (format_run fmt args c))
      = writes (output c)
          ((span fmt (start c) (next c) ++ tail) :: chunks).
Proof.
  assert (Hdone : forall c,
    (start c < next c <= length fmt)%nat ->
    (next c <? length fmt)%nat = false ->
    exists tail chunks,
      snd (format_finish fmt before c)
      = writes (output c)
          ((span fmt (start c) (next c) ++ tail) :: chunks)).
  { intros c Hr E. apply Nat.ltb_ge in E.
    exists [], []. unfold format_finish. simpl snd.
    replace (start c =? length fmt)%nat with false
      by (symmetry; apply Nat.eqb_neq; lia).
    rewrite app_nil_r. replace (next c) with (length fmt) by lia.
    reflexivity. }
  induction m as [|m IH]; intros c Hm Hst Hr;
    rewrite format_run_unfold;
    destruct (next c <? length fmt)%nat eqn:E;
    try (now apply Hdone).
  - apply Nat.ltb_lt in E. lia.
  - apply Nat.ltb_lt in E.
    pose proof (span_snoc fmt (start c) (next c) ltac:(lia)) as Hsnoc.
    pose proof (extends_finish_run fmt args before (format_step fmt args c))
      as [chunks Hext].
    unfold format_step in *. rewrite Hst in *.
    destruct (Ascii.eqb (nth (next c) fmt zero) "{") eqn:Eo.
    + exists [], chunks. rewrite app_nil_r.
      destruct (S (next c) <? length fmt)%nat;
        [destruct (negb _)|]; simpl output in Hext; exact Hext.
    + destruct (Ascii.eqb (nth (next c) fmt zero) "}") eqn:Ec.
      * exists [nth (next c) fmt zero], chunks.
        simpl output in Hext. rewrite <- Hsnoc. exact Hext.
      * clear Hext chunks.
        destruct (IH {| state := STATE_OPENER; next := S (next c);
                        start := start c; formatStart := formatStart c;
                        prev := prev c; index := index c;
                        output := output c |})
          as (tail & chunks & Hw); simpl; try lia; try reflexivity.
        exists (nth (next c) fmt zero :: tail), chunks.
        simpl in Hw. rewrite Hw, Hsnoc, <- app_assoc. reflexivity.
Qed.

(** ** A brace inside a spec *)

(** On every template: an opening brace read in [STATE_FLAGS] ends the
    placeholder without a dispatch.  The two iterations on it lead to
    [STATE_OPENER] at the next character, with the output and [start] as
    they were: the spec is not scanned for placeholders of its own. *)
Lemma brace_in_spec_gives_up (fmt : list ascii) (args : list Arg) (c : Scan) :
  state c = STATE_FLAGS -> nth (next c) fmt zero = "{" ->
  format_step fmt args (format_step fmt args c)
  = {| state := STATE_OPENER; next := S (next c); start := start c;
       formatStart := or_here (formatStart c) (next c); prev := prev c;
       index := index c; output := output c |}.
Proof.
  intros Hst Hch. unfold format_step at 2. rewrite Hst, Hch. simpl orb.
  cbv iota. unfold format_step. simpl. rewrite Hch. reflexivity.
Qed.

(** ** Failed dispatch and the index counter, on whole templates *)

(** A failed dispatch in a template of the placeholder grammar, after any
    items: the engine goes on with the items after the placeholder, the
    whole text of the placeholder pending; when it is the last item, that
    text is written as it stands in the template. *)
Lemma failed_dispatch_in_template (o : Output) (args : list Arg)
    (items1 : list Item) (ph : Placeholder) (items2 : list Item) :
  well_formed (items1 ++ Hole ph :: items2) = true ->
  Z.of_nat (length args) < 2 ^ 31 ->
  let st1 := template_scan resolve_index args (-1) [] items1 o in
  let o1 := write (snd st1) (snd (fst st1)) in
  let idx := resolve_index (fst (fst st1)) (ph_digits ph) in
  dispatch_fails args idx (ph_format ph) ->
  format_index o1 (ph_format ph) idx args = (false, o1)
  /\ snd (format o (template_of (items1 ++ Hole ph :: items2)) args)
     = template_format args idx (ph_text ph) items2 o1
  /\ (items2 = [] ->
      snd (format o (template_of (items1 ++ Hole ph :: items2)) args)
      = write o1 (ph_text ph)).
Proof.
  intros Hwf Hargs st1 o1 idx Hfail.
  assert (Hdispatch : format_index o1 (ph_format ph) idx args = (false, o1)).
  { apply failed_dispatch_writes_nothing; try assumption.
    apply resolve_index_range. }
  assert (Hrun :
    snd (format o (template_of (items1 ++ Hole ph :: items2)) args)
    = template_format args idx (ph_text ph) items2 o1).
  { rewrite format_template by assumption.
    unfold template_format. rewrite template_scan_app.
    subst o1 idx st1.
    destruct (template_scan resolve_index args (-1) [] items1 o)
      as [[prev1 pending1] o1'].
    simpl fst in *. simpl snd in *.
    cbn [template_scan]. cbv zeta. now rewrite Hdispatch. }
  split; [exact Hdispatch|]. split; [exact Hrun|].
  intros ->. rewrite Hrun. reflexivity.
Qed.

(** C2. On every template and argument list, take the loop of [format] at
    the closing brace of a placeholder, in [STATE_CLOSER], where the
    dispatch fails for one of the three causes (index out of range, no
    renderer for the argument, spec that does not parse).  What the engine
    has read since [start] is the text of a placeholder ["{" digits "}"] or
    ["{" digits ":" spec "}"], and the spec it dispatches on is the spec of
    that text.  [format_index] returns false and leaves the output as it
    was: nothing of the placeholder is rendered and no error state is set.
    The iteration only moves to [STATE_OPENER] at the character after the
    placeholder, so the loop goes on with the rest of the template, and the
    next chunk that [format] writes starts with the whole text of the
    placeholder. *)
Theorem failed_dispatch_passes_through (o : Output) (fmt : list ascii)
    (args : list Arg) (c : Scan) :
  reached fmt args o c ->
  state c = STATE_CLOSER ->
  (next c < length fmt)%nat ->
  nth (next c) fmt zero = "}" ->
  Z.of_nat (length args) < 2 ^ 31 ->
  let format_ :=
    match formatStart c with
    | Some q => span fmt q (next c)
    | None => []
    end in
  dispatch_fails args (index c) format_ ->
  exists ph,
    plain ph = true
    /\ span fmt (start c) (S (next c)) = ph_text ph
    /\ format_ = ph_format ph
    /\ format_index (output c) format_ (index c) args = (false, output c)
    /\ format_step fmt args c
       = {| state := STATE_OPENER; next := S (next c); start := start c;
            formatStart := formatStart c; prev := prev c; index := index c;
            output := output c |}
    /\ exists tail chunks,
         snd (format o fmt args)
         = writes (output c) ((ph_text ph ++ tail) :: chunks).
Proof.
  intros Hreached Hst Hlt Hch Hargs format_ Hfail.
  destruct (reached_inv fmt args o c Hreached)
    as [Hidx (pre & body & suf & Hfmt & Hs & Hn & Hshape)].
  unfold scan_shape in Hshape. rewrite Hst in Hshape.
  destruct Hshape as (ph & Hbody & Hplain & Hfs).
  assert (Hdispatch :
    format_index (output c) format_ (index c) args = (false, output c))
    by (now apply failed_dispatch_writes_nothing).
  assert (Hstep :
    format_step fmt args c
    = {| state := STATE_OPENER; next := S (next c); start := start c;
         formatStart := formatStart c; prev := prev c; index := index c;
         output := output c |}).
  { unfold format_step. rewrite Hst, Hch. simpl Ascii.eqb. cbv iota.
    fold format_. now rewrite Hdispatch. }
  destruct suf as [|ch suf];
    [rewrite Hfmt, app_nil_r, length_app in Hlt; lia|].
  assert (ch = "}").
  { rewrite <- Hch, Hfmt, app_assoc. symmetry. apply nth_at. length_eq. }
  subst ch.
  assert (Hspan : span fmt (start c) (S (next c)) = ph_text ph).
  { unfold ph_text.
    apply (span_at fmt pre ("{" :: ph_digits ph ++ ph_marker ph ++ ["}"])
             suf); [|assumption|].
    - rewrite Hbody in Hfmt. list_eq Hfmt.
    - rewrite Hn, Hbody. length_eq. }
  assert (Hformat : format_ = ph_format ph).
  { subst format_. rewrite Hfs. unfold ph_format, ph_marker in *.
    destruct (ph_spec ph) as [spec|]; [|reflexivity].
    apply (span_at fmt (pre ++ "{" :: ph_digits ph ++ [":"]) spec
             ("}" :: suf)).
    - rewrite Hbody in Hfmt. list_eq Hfmt.
    - length_eq.
    - rewrite Hn, Hbody. length_eq. }
  exists ph. repeat split; try assumption.
  unfold format. rewrite (reached_run fmt args o c Hreached).
  rewrite format_run_unfold.
  replace (next c <? length fmt)%nat with true
    by (symmetry; now apply Nat.ltb_lt).
  rewrite Hstep, <- Hspan.
  apply (pending_written fmt args (result o) (length fmt)
           {| state := STATE_OPENER; next := S (next c); start := start c;
              formatStart := formatStart c; prev := prev c;
              index := index c; output := output c |});
    simpl; try reflexivity; lia.
Qed.

(** The iteration of [STATE_INDEX] that leaves the state, on every
    template: the text read since [start] is the opening brace and the
    digits of the placeholder, and both [index] and the counter [prev]
    become the index resolved from the counter and these digits. *)
Lemma index_resolution (fmt : list ascii) (args : list Arg) (o : Output)
    (c : Scan) :
  reached fmt args o c -> (next c < length fmt)%nat ->
  state c = STATE_INDEX -> is_digit (nth (next c) fmt zero) = false ->
  exists ds,
    forallb is_digit ds = true
    /\ span fmt (start c) (next c) = "{" :: ds
    /\ index (format_step fmt args c) = resolve_index (prev c) ds
    /\ prev (format_step fmt args c) = resolve_index (prev c) ds.
Proof.
  intros Hreached Hlt Hst Hch.
  destruct (reached_inv fmt args o c Hreached)
    as [Hidx (pre & body & suf & Hfmt & Hs & Hn & Hshape)].
  unfold scan_shape in Hshape. rewrite Hst in Hshape.
  destruct Hshape as (ds & Hbody & Hd & Hfs & Hi).
  exists ds. split; [assumption|]. split.
  - rewrite <- Hbody. apply (span_at fmt pre body suf); assumption.
  - unfold format_step, resolve_index. rewrite Hst, Hch, <- Hi. now split.
Qed.

(** Every other iteration leaves the counter as it is. *)
Lemma counter_kept (fmt : list ascii) (args : list Arg) (c : Scan) :
  state c <> STATE_INDEX \/ is_digit (nth (next c) fmt zero) = true ->
  prev (format_step fmt args c) = prev c.
Proof.
  intros Hother. unfold format_step.
  destruct (state c).
  - destruct (Ascii.eqb _ "{");
      [destruct (_ <? _)%nat; [destruct (negb _)|]
      | destruct (Ascii.eqb _ "}")]; reflexivity.
  - destruct Hother as [Hne | ->]; [congruence | reflexivity].
  - destruct (Ascii.eqb _ ":"); reflexivity.
  - destruct (_ || _); reflexivity.
  - destruct (Ascii.eqb _ "}"); [|reflexivity].
    destruct (format_index _ _ _ _); reflexivity.
Qed.

(** C5.  On the templates of the placeholder grammar whose indices are
    [int32_t], [format] does what [counted_format] describes: a placeholder
    without digits has the index one past the index resolved before it, from
    0 on, a placeholder with digits has the index they denote, and the index
    resolved, of either kind, is what the next placeholder without digits
    counts from, through all the items of the template.  On every template:
    the counter starts at -1; the iteration that ends the digits of a
    placeholder sets the index and the counter to the index resolved, which
    is the one the specification words as long as it is an [int32_t]; and no
    other iteration changes the counter.  The example of the specification
    prints ["0 1 1 2 1"]. *)
Theorem auto_index_counter (o : Output) (args : list Arg)
    (items : list Item) :
  well_formed items = true ->
  indices_fit (-1) items = true ->
  snd (format o (template_of items) args)
  = counted_format args (-1) [] items o
  /\ prev (format_init o (-1)) = -1
  /\ (forall fmt c,
        reached fmt args o c -> (next c < length fmt)%nat ->
        state c = STATE_INDEX -> is_digit (nth (next c) fmt zero) = false ->
        exists ds,
          forallb is_digit ds = true
          /\ span fmt (start c) (next c) = "{" :: ds
          /\ index (format_step fmt args c) = resolve_index (prev c) ds
          /\ prev (format_step fmt args c) = resolve_index (prev c) ds
          /\ (-1 <= prev c -> spec_index (prev c) ds < 2 ^ 31 ->
              resolve_index (prev c) ds = spec_index (prev c) ds))
  /\ (forall fmt c,
        state c <> STATE_INDEX \/ is_digit (nth (next c) fmt zero) = true ->
        prev (format_step fmt args c) = prev c)
  /\ formatted "{} {} {1} {} {1}" [AInt 0; AInt 1; AInt 2]
     = (9, "0 1 1 2 1"%string).
Proof.
  intros Hwf Hfit. split; [|split; [reflexivity|split; [|split]]].
  - rewrite format_template by assumption.
    unfold template_format, counted_format.
    rewrite template_scan_counted;
      [reflexivity | lia | assumption | assumption].
  - intros fmt c Hreached Hlt Hst Hch.
    destruct (index_resolution fmt args o c Hreached Hlt Hst Hch)
      as (ds & Hd & Hspan & Hi & Hp).
    exists ds. repeat split; try assumption.
    intros Hprev Hsmall. now apply resolve_index_spec.
  - intros fmt c. apply counter_kept.
  - reflexivity.
Qed.

End SpFacts.

(** ** The examples of the specification and of the tests *)

Lemma error_state_is_sticky_witness :
  let o := write (Output_stream {| accepted := []; room := 0 |}) (text "x") in
  m_length o = -1
  /\ writes o [text "ab"; text "c"] = o
  /\ result (writes o [text "ab"; text "c"]) = -1.
Proof.
  intros o. split; [reflexivity|].
  apply (error_state_is_sticky o [text "ab"; text "c"]). reflexivity.
Defined.

Lemma format_returns_contribution_witness :
  let o := write (Output_buffer (fresh_buffer 8) 8) (text "abc") in
  in_int32 (result o)
  /\ fst (format o (text "{}!") [AInt 42]) = 3
  /\ result (snd (format o (text "{}!") [AInt 42])) = 6.
Proof.
  intros o.
  assert (Hrange : in_int32 (result o))
    by (vm_compute; split; [discriminate | reflexivity]).
  split; [exact Hrange|].
  destruct (format_returns_contribution o (text "{}!") [AInt 42] Hrange)
    as [Hpos _].
  split; [|reflexivity].
  rewrite Hpos; [reflexivity | vm_compute; discriminate].
Defined.

Lemma buffer_write_contract_witness :
  let o := writes (Output_buffer (fresh_buffer 5) 5) [text "ooga booga"] in
  (1 <= 5 <= Z.of_nat (length (fresh_buffer 5)))
  /\ 5 < 2 ^ 31
  /\ requested [text "ooga booga"] < 2 ^ 31
  /\ result o = 10
  /\ m_memory o = text "ooga" ++ [zero].
Proof.
  intros o.
  assert (H1 : 1 <= 5 <= Z.of_nat (length (fresh_buffer 5)))
    by (simpl; lia).
  assert (H2 : 5 < 2 ^ 31) by lia.
  assert (H3 : requested [text "ooga booga"] < 2 ^ 31)
    by (vm_compute; reflexivity).
  split; [exact H1|]. split; [exact H2|]. split; [exact H3|].
  destruct (buffer_write_contract (fresh_buffer 5) 5 [text "ooga booga"] H1
              H2 H3) as (Hresult & _ & _ & Hmemory).
  split; [exact Hresult|].
  apply Hmemory. discriminate.
Defined.

Lemma failed_dispatch_passes_through_witness :
  let o := Output_buffer (fresh_buffer 16) 16 in
  let fmt := text "{7:>3}!" in
  let args := [AInt 5] in
  let step := format_step fmt args in
  let c :=
    step (step (step (step (step (step (step (format_init o (-1)))))))) in
  reached fmt args o c
  /\ state c = STATE_CLOSER
  /\ nth (next c) fmt zero = "}"
  /\ dispatch_fails args (index c) (text ">3")
  /\ exists ph tail chunks,
       ph_text ph = text "{7:>3}"
       /\ snd (format o fmt args)
          = writes (output c) ((ph_text ph ++ tail) :: chunks).
Proof.
  intros o fmt args step c.
  assert (Hreached : reached fmt args o c).
  { repeat (apply reached_step; [|vm_compute; lia]). apply reached_init. }
  assert (Hfail : dispatch_fails args (index c) (text ">3"))
    by (right; left; vm_compute; discriminate).
  split; [exact Hreached|]. split; [reflexivity|]. split; [reflexivity|].
  split; [exact Hfail|].
  destruct (failed_dispatch_passes_through o fmt args c Hreached)
    as (ph & _ & Hspan & _ & _ & _ & tail & chunks & Hw);
    [reflexivity | vm_compute; lia | reflexivity | vm_compute; reflexivity
    | exact Hfail |].
  exists ph, tail, chunks. split; [|exact Hw].
  rewrite <- Hspan. reflexivity.
Defined.

Lemma auto_index_counter_witness :
  let o := Output_buffer (fresh_buffer 16) 16 in
  let auto := Hole {| ph_digits := []; ph_spec := None |} in
  let one := Hole {| ph_digits := text "1"; ph_spec := None |} in
  let sp := Literal (text " ") in
  let items := [auto; sp; auto; sp; one; sp; auto; sp; one] in
  let args := [AInt 0; AInt 1; AInt 2] in
  template_of items = text "{} {} {1} {} {1}"
  /\ well_formed items = true
  /\ indices_fit (-1) items = true
  /\ snd (format o (template_of items) args)
     = counted_format args (-1) [] items o
  /\ firstn 9 (m_memory (counted_format args (-1) [] items o))
     = text "0 1 1 2 1".
Proof.
  intros o auto one sp items args.
  split; [reflexivity|]. split; [reflexivity|]. split; [reflexivity|].
  split; [|reflexivity].
  apply (auto_index_counter o args items); reflexivity.
Defined.

(** C1 on the code.  A brace that opens inside a spec is not resolved: the
    placeholder around it is given up and its text is printed as it stands,
    so the two templates of the specification print neither ["oog"] nor
    ["Hello"]. *)
Theorem nested_spec_is_not_resolved :
  formatted "{1:.{0}}" [AInt 3; AStr (text "ooga")] = (7, "{1:.{0}"%string)
  /\ formatted "{0:{0:{0:{0:{1}}}}}" [Foo; AStr (text "Hello")]
     = (19, "{0:{0:{0:{0:Hello}}"%string).
Proof. split; reflexivity. Qed.

(** C6 on the code.  With the alignment [=] the sign comes before the
    padding, as in ["+  52"]; the alternate form prefix belongs to the digits
    that are written after the padding, so the zeros of ["{:#08x}"] come
    before the prefix and not after it. *)
Theorem zero_padding_precedes_prefix :
  formatted "{:=+5}" [AInt 52] = (5, "+  52"%string)
  /\ formatted "{:#08x}" [AInt 1] = (8, "000000x1"%string)
  /\ formatted "{:=-#08x}" [AInt (-1)] = (8, "-00000x1"%string).
Proof. repeat split; reflexivity. Qed.

(** C7 on the code.  A width that starts with the digit 0 sets the fill to
    ['0'] and the alignment to [=], also after an explicit fill and
    alignment. *)
Theorem zero_width_overrides_alignment :
  parse_format (text "<05")
  = (true, set_width (set_fill_align FormatFlags_default "0" "=") 5)
  /\ parse_format (text "*<05")
     = (true, set_width (set_fill_align FormatFlags_default "0" "=") 5)
  /\ formatted "{:<#08x}" [AInt 1] = (8, "000000x1"%string)
  /\ formatted "{:*<05}" [AInt 1] = (5, "00001"%string).
Proof. repeat split; reflexivity. Qed.

(** C8 on the code.  The spec parser of [sp.hpp] does not accept the type
    character [c], so the placeholder is printed as it stands; the integer
    renderer of [printf.hpp] returns false on it and writes nothing. *)
Theorem char_type_is_not_rendered :
  fst (parse_format (text "c")) = false
  /\ formatted "{:c}" [AInt 65] = (4, "{:c}"%string)
  /\ formatted "{:c}" [AInt 256] = (4, "{:c}"%string)
  /\ forall (H : Host) (o : @Output H) (flags : FormatFlags)
       (isNegative : bool) (value : Z),
       printf_format_int o (set_type flags "c") isNegative value
       = (false, o).
Proof.
  repeat split; try reflexivity.
  destruct isNegative; reflexivity.
Qed.

(** C9 on the code.  Four digits into a buffer of four bytes: the count
    returned is 4, three digits are copied and the fourth byte is the null
    terminator. *)
Theorem full_buffer_is_terminated :
  format_array (fresh_buffer 4) (text "{}{}{}{}")
    [AInt 1; AInt 2; AInt 3; AInt 4]
  = (4, ["1"; "2"; "3"; zero])%char.
Proof. reflexivity. Qed.

(** * More of the library *)

Section OutputFacts.

Context `{Host}.

(** ** Output: an output in the error state, one that only counts, a stream *)

(** X1. [format] on an output that is already in the error state (a
    negative length) writes nothing, leaves the output as it is and returns
    that length, whatever the template and the arguments are. *)
Theorem format_on_failed_output (o : Output) (fmt : list ascii)
    (args : list Arg) :
  m_length o < 0 -> format o fmt args = (m_length o, o).
Proof.
  intros Hneg.
  pose proof (extends_error _ _ (extends_format o fmt args) Hneg) as Hsame.
  assert (Hr : fst (format o fmt args)
               = if result (snd (format o fmt args)) <? 0
                 then result (snd (format o fmt args))
                 else wrap32 (result (snd (format o fmt args)) - result o))
    by reflexivity.
  rewrite Hsame in Hr. unfold result in Hr.
  apply Z.ltb_lt in Hneg. rewrite Hneg in Hr.
  destruct (format o fmt args) as [r o']. simpl in *. congruence.
Qed.

Lemma counting_state (buffer : list ascii) (chunks : list (list ascii)) :
  requested chunks < 2 ^ 31 ->
  writes (Output_buffer buffer 0) chunks
  = {| m_stream := None; m_memory := buffer; m_buffer := 0%nat;
       m_size := 0; m_length := requested chunks |}.
Proof.
  unfold requested.
  induction chunks as [|data chunks IH] using rev_ind; intros Htotal;
    [reflexivity|].
  rewrite concat_app, length_app in *. simpl concat in *.
  rewrite app_nil_r in *.
  rewrite writes_snoc, IH by lia.
  unfold write. simpl.
  destruct (0 <=? Z.of_nat (length (concat chunks))) eqn:E;
    [|apply Z.leb_gt in E; lia].
  rewrite (wrap32_id (Z.of_nat (length data))) by (unfold in_int32; lia).
  rewrite wrap32_id by (unfold in_int32; lia).
  f_equal. lia.
Qed.

(** X2. An output over a buffer of size 0 only counts: after any sequence
    of writes (their lengths summing up to less than [2^31]) the array is
    as it was, no terminator is stored, and [result] is the count of
    characters requested. *)
Theorem zero_size_output_counts (buffer : list ascii)
    (chunks : list (list ascii)) :
  requested chunks < 2 ^ 31 ->
  m_memory (writes (Output_buffer buffer 0) chunks) = buffer
  /\ result (writes (Output_buffer buffer 0) chunks) = requested chunks.
Proof.
  intros Htotal. rewrite counting_state by assumption. now split.
Qed.

(** ** Output: writes on a buffer compose *)

Lemma buffer_state_unique (buffer : list ascii) (cap : Z)
    (sent : list ascii) (o1 o2 : Output) :
  buffer_state buffer cap sent o1 -> buffer_state buffer cap sent o2 ->
  nth (m_buffer o1) (m_memory o1) "x" = zero ->
  nth (m_buffer o2) (m_memory o2) "x" = zero ->
  o1 = o2.
Proof.
  intros (Hs1 & Hl1 & Hb1 & Hz1 & x1 & Hm1) (Hs2 & Hl2 & Hb2 & Hz2 & x2 & Hm2)
    Hn1 Hn2.
  assert (Hx : forall k x,
    nth (Z.to_nat (Z.min (Z.of_nat (length sent)) (cap - 1)))
      (firstn k sent ++ x :: skipn (k + 1) buffer) "x" = zero ->
    k = Z.to_nat (Z.min (Z.of_nat (length sent)) (cap - 1)) -> x = zero).
  { intros k x Hn ->.
    rewrite app_nth2 in Hn by (rewrite length_firstn; lia).
    rewrite length_firstn in Hn.
    match type of Hn with nth ?i _ _ = _ => replace i with 0%nat in Hn by lia
    end. exact Hn. }
  rewrite Hb1, Hm1 in Hn1. rewrite Hb2, Hm2 in Hn2.
  apply Hx in Hn1; [|reflexivity]. apply Hx in Hn2; [|reflexivity].
  destruct o1, o2. simpl in *. subst. reflexivity.
Qed.

(** X3. On a buffer output, a sequence of writes (not empty) leaves the
    output, with its array, cursor, size and length, as one write of the
    data put together does: how the text is cut into chunks does not show
    in a buffer. *)
Theorem buffer_writes_compose (buffer : list ascii) (cap : Z)
    (chunks : list (list ascii)) :
  1 <= cap <= Z.of_nat (length buffer) -> cap < 2 ^ 31 ->
  requested chunks < 2 ^ 31 -> chunks <> [] ->
  writes (Output_buffer buffer cap) chunks
  = write (Output_buffer buffer cap) (concat chunks).
Proof.
  intros Hcap Hsmall Htotal Hne.
  destruct (buffer_state_writes buffer cap chunks Hcap Hsmall Htotal)
    as [Hst1 Hz1].
  destruct (buffer_state_writes buffer cap [concat chunks] Hcap Hsmall)
    as [Hst2 Hz2].
  { unfold requested in *. simpl. now rewrite app_nil_r. }
  simpl concat in Hst2. rewrite app_nil_r in Hst2.
  apply (buffer_state_unique buffer cap (concat chunks));
    [exact Hst1 | exact Hst2 | now apply Hz1 | apply Hz2; discriminate].
Qed.

End OutputFacts.

(** ** A call of [format] is a sequence of writes *)

Section TraceFacts.

Context `{Host}.

Lemma write_as_writes (o : Output) (data : list ascii) :
  write o data = writes o [data].
Proof. reflexivity. Qed.

(** A goal [(ok, o') = (ok, writes o ?chunks)], where [o'] is [o] after
    calls of [write], [write_char] and [write_padding]. *)
Ltac trace_writes :=
  rewrite ?write_padding_writes; unfold write_char;
  rewrite ?write_as_writes, <- ?writes_app; reflexivity.

Lemma format_int_trace (flags : FormatFlags) (neg : bool) (value : Z) :
  exists chunks, forall o,
    format_int o flags neg value = (true, writes o chunks).
Proof.
  unfold format_int, format_int_with.
  destruct (digits_loop _ _ _ _ _ _) as [digits0 ndigits0].
  destruct (alternate_prefix _ _ _ _) as [digits ndigits].
  destruct (if Ascii.eqb (align flags) "^" then _ else _)
    as [leadSpace tailSpace].
  destruct (negb _ && Ascii.eqb (align flags) "="),
    (negb _ && negb (Ascii.eqb (align flags) "="));
    eexists; intros o; trace_writes.
Qed.

Lemma format_string_trace (format str : list ascii) :
  exists ok chunks, forall o,
    format_string o format str = (ok, writes o chunks).
Proof.
  unfold format_string. destruct (parse_format format) as [[|] flags].
  - simpl negb. cbv iota.
    destruct (if Ascii.eqb (align flags) "^" then _ else _)
      as [leadSpace tailSpace].
    exists true. eexists. intros o. trace_writes.
  - exists false, []. reflexivity.
Qed.

Lemma format_float_trace (d : Z) (format : list ascii) (value : Float) :
  exists ok chunks, forall o,
    format_float d o format value = (ok, writes o chunks).
Proof.
  unfold format_float. destruct (parse_format format) as [[|] flags].
  - simpl negb. cbv iota.
    destruct (if Ascii.eqb (type flags) "f" || _ || _ || _ then _ else _)
      as [[[precision_ type_] value'] percent].
    destruct (if Ascii.eqb (align flags) "^" then _ else _)
      as [leadSpace tailSpace].
    exists true.
    destruct (negb _ && Ascii.eqb (align flags) "="),
      (negb _ && negb (Ascii.eqb (align flags) "="));
      eexists; intros o; trace_writes.
  - exists false, []. reflexivity.
Qed.

Lemma format_value_trace (fmt : list ascii) (arg : Arg) :
  exists ok chunks, forall o,
    format_value o fmt arg = (ok, writes o chunks).
Proof.
  destruct arg as [b|v|v|v|v|v|v| |custom]; simpl.
  - apply format_string_trace.
  - apply format_float_trace.
  - apply format_float_trace.
  - destruct (parse_format fmt) as [[|] flags].
    + destruct (format_int_trace flags (v <? 0)
                  (if (0 <=? v) || (v =? INT64_MIN) then to_uint64 v
                   else to_uint64 (- v))) as [chunks Hint].
      now exists true, chunks.
    + now exists false, [].
  - destruct (parse_format fmt) as [[|] flags].
    + destruct (format_int_trace flags false (to_uint64 v)) as [chunks Hint].
      now exists true, chunks.
    + now exists false, [].
  - apply format_string_trace.
  - destruct (parse_format fmt) as [[|] flags].
    + destruct (format_int_trace
                  (if Ascii.eqb (type flags) zero then set_type flags "x"
                   else flags) false (to_uint64 v)) as [chunks Hint].
      now exists true, chunks.
    + now exists false, [].
  - now exists false, [].
  - destruct (custom fmt) as [ok chunks]. now exists ok, chunks.
Qed.

Lemma format_index_trace (args : list Arg) :
  forall (format : list ascii) (idx : Z),
  exists ok chunks, forall o,
    format_index o format idx args = (ok, writes o chunks).
Proof.
  induction args as [|arg rest IH]; intros format idx; simpl.
  - now exists false, [].
  - destruct (idx =? 0); [apply format_value_trace | apply IH].
Qed.

(** An iteration of the loop issues writes that do not depend on the
    output, and an iteration in [STATE_OPENER] that issues none leaves
    [start] as it is. *)
Lemma format_step_trace (fmt : list ascii) (args : list Arg) (c : Scan) :
  exists chunks,
    (forall o,
       format_step fmt args (set_output c o)
       = set_output (format_step fmt args c) (writes o chunks))
    /\ (state c = STATE_OPENER -> chunks = [] ->
        state (format_step fmt args c) = STATE_OPENER
        /\ start (format_step fmt args c) = start c).
Proof.
  destruct c as [st n s fs p i o0]. unfold format_step, set_output.
  cbn [state next start formatStart prev index output].
  destruct st.
  - destruct (Ascii.eqb (nth n fmt zero) "{");
      [destruct (S n <? length fmt)%nat;
         [destruct (negb (Ascii.eqb (nth (S n) fmt zero) "{"))|]
      | destruct (Ascii.eqb (nth n fmt zero) "}")];
      try (eexists; split;
           [intros o; rewrite ?write_as_writes; reflexivity
           | intros _ Hnil; discriminate Hnil]).
    exists []. split; [reflexivity | now split].
  - destruct (is_digit _); exists [];
      (split; [reflexivity | discriminate]).
  - destruct (Ascii.eqb _ ":"); exists [];
      (split; [reflexivity | discriminate]).
  - destruct (_ || _); exists [];
      (split; [reflexivity | discriminate]).
  - destruct (Ascii.eqb _ "}").
    + destruct (format_index_trace args
                  match fs with Some q => span fmt q n | None => [] end i)
        as (ok & chunks & Hfi).
      exists chunks. split; [|discriminate].
      intros o. now rewrite !Hfi.
    + exists []. split; [reflexivity | discriminate].
Qed.

Lemma format_loop_trace (fmt : list ascii) (args : list Arg) (fuel : nat) :
  forall c,
  exists chunks,
    (forall o,
       format_loop fuel fmt args (set_output c o)
       = set_output (format_loop fuel fmt args c) (writes o chunks))
    /\ (state c = STATE_OPENER -> chunks = [] ->
        start (format_loop fuel fmt args c) = start c).
Proof.
  induction fuel as [|fuel IH]; intros c.
  - exists []. split; [reflexivity | now intros].
  - cbn [format_loop].
    change (next (set_output c ?o)) with (next c).
    destruct (next c <? length fmt)%nat.
    + destruct (format_step_trace fmt args c) as (chunks1 & Hstep & Hkeep1).
      destruct (IH (format_step fmt args c)) as (chunks2 & Hloop & Hkeep2).
      exists (chunks1 ++ chunks2). split.
      * intros o. now rewrite Hstep, Hloop, writes_app.
      * intros Hst Hnil. apply app_eq_nil in Hnil. destruct Hnil as [-> ->].
        destruct (Hkeep1 Hst eq_refl) as [Hst' Hs']. now rewrite Hkeep2.
    + exists []. split; [reflexivity | now intros].
Qed.

(** The writes of a call of [format] do not depend on the output, and there
    is one but on the empty template. *)
Lemma format_trace (fmt : list ascii) (args : list Arg) :
  exists chunks,
    (forall o, snd (format o fmt args) = writes o chunks)
    /\ (chunks = [] <-> fmt = []).
Proof.
  destruct fmt as [|ch fmt'].
  { exists []. split; [reflexivity | now split]. }
  set (fmt := ch :: fmt').
  set (c0 := format_init (Output_buffer [] 0) (-1)).
  destruct (format_loop_trace fmt args (format_measure fmt c0) c0)
    as (chunks & Hloop & Hkeep).
  set (c1 := format_loop (format_measure fmt c0) fmt args c0) in *.
  exists (chunks ++ if (start c1 =? length fmt)%nat then []
                    else [span fmt (start c1) (length fmt)]).
  split.
  - intros o. unfold format, format_run.
    change (format_init o (-1)) with (set_output c0 o).
    change (format_measure fmt (set_output c0 o))
      with (format_measure fmt c0).
    rewrite Hloop. fold c1. unfold format_finish, set_output.
    cbn [snd start output].
    destruct (start c1 =? length fmt)%nat.
    + now rewrite app_nil_r.
    + now rewrite writes_app.
  - split; [|discriminate].
    intros Hnil. apply app_eq_nil in Hnil. destruct Hnil as [-> Hfin].
    rewrite (Hkeep eq_refl eq_refl) in Hfin. discriminate Hfin.
Qed.

End TraceFacts.

(** ** [format] into a buffer and into a stream *)

Section BufferFacts.

Context `{Host}.

Lemma store_length (mem : list ascii) (at_ : nat) (data : list ascii) :
  (at_ + length data <= length mem)%nat ->
  length (store mem at_ data) = length mem.
Proof.
  intros Hfit. unfold store.
  rewrite !length_app, length_firstn, length_skipn. lia.
Qed.

Lemma store_skipn (mem : list ascii) (at_ k : nat) (data : list ascii) :
  (at_ + length data <= k)%nat -> (at_ + length data <= length mem)%nat ->
  skipn k (store mem at_ data) = skipn k mem.
Proof.
  intros Hk Hfit. unfold store.
  rewrite app_assoc, skipn_app.
  rewrite skipn_all2 by (rewrite length_app, length_firstn; lia).
  rewrite length_app, length_firstn, skipn_skipn. simpl. f_equal. lia.
Qed.

Lemma store_nth (mem : list ascii) (at_ : nat) (x : ascii)
    (rest : list ascii) :
  (at_ <= length mem)%nat -> nth at_ (store mem at_ (x :: rest)) "x" = x.
Proof.
  intros Hfit. unfold store.
  rewrite app_nth2 by (rewrite length_firstn; lia).
  rewrite length_firstn.
  replace (at_ - Nat.min at_ (length mem))%nat with 0%nat by lia.
  reflexivity.
Qed.

(** A write on a buffer output stays inside the capacity and, unless the
    output is in the error state, stores a terminator at the cursor. *)
Lemma buffer_bounds_write (buffer : list ascii) (cap : Z) (o : Output)
    (data : list ascii) :
  1 <= cap <= Z.of_nat (length buffer) -> cap < 2 ^ 31 ->
  buffer_bounds buffer cap o ->
  buffer_bounds buffer cap (write o data)
  /\ (0 <= m_length o ->
      nth (m_buffer (write o data)) (m_memory (write o data)) "x" = zero)
  /\ (m_length o < 0 -> write o data = o).
Proof.
  intros Hcap Hsmall (Hs & Hlen & Hrest & Hsize & Hsum).
  unfold write.
  destruct (0 <=? m_length o) eqn:E.
  2:{ apply Z.leb_gt in E. repeat split; try assumption; lia. }
  apply Z.leb_le in E. rewrite Hs.
  destruct (m_size o =? 0) eqn:Ez; [apply Z.eqb_eq in Ez; lia|].
  rewrite (to_size_t_id (m_size o)) by lia.
  rewrite (to_size_t_id (m_size o - 1)) by lia.
  set (toCopy := Z.min (m_size o - 1) (Z.of_nat (length data))).
  assert (HtoCopy : 0 <= toCopy <= m_size o - 1) by lia.
  assert (Hcopied : length (firstn (Z.to_nat toCopy) data) = Z.to_nat toCopy)
    by (rewrite length_firstn; lia).
  rewrite (wrap32_id toCopy) by (unfold in_int32; lia).
  rewrite (wrap32_id (m_size o - toCopy)) by (unfold in_int32; lia).
  set (memory1 := store (m_memory o) (m_buffer o)
                    (firstn (Z.to_nat toCopy) data)).
  assert (Hlen1 : length memory1 = length buffer).
  { unfold memory1. rewrite store_length; [assumption | lia]. }
  cbn [m_stream m_memory m_buffer m_size m_length].
  split; [|split; [|lia]].
  - unfold buffer_bounds.
    cbn [m_stream m_memory m_buffer m_size m_length].
    split; [reflexivity|]. split; [|split; [|lia]].
    + rewrite store_length; [assumption | simpl; lia].
    + rewrite store_skipn by (simpl; lia).
      unfold memory1. rewrite store_skipn by lia. assumption.
  - intros _. apply store_nth. lia.
Qed.

Lemma buffer_bounds_writes (buffer : list ascii) (cap : Z)
    (chunks : list (list ascii)) :
  1 <= cap <= Z.of_nat (length buffer) -> cap < 2 ^ 31 ->
  let o := writes (Output_buffer buffer cap) chunks in
  buffer_bounds buffer cap o
  /\ (chunks <> [] -> nth (m_buffer o) (m_memory o) "x" = zero).
Proof.
  intros Hcap Hsmall.
  induction chunks as [|data chunks IH] using rev_ind; cbv zeta.
  - split; [|congruence].
    unfold buffer_bounds, Output_buffer.
    cbn [m_stream m_memory m_buffer m_size m_length writes fold_left].
    rewrite wrap32_id by (unfold in_int32; lia).
    repeat split; lia.
  - cbv zeta in IH. destruct IH as [Hb Hz].
    rewrite writes_snoc.
    set (o := writes (Output_buffer buffer cap) chunks) in *.
    destruct (buffer_bounds_write buffer cap o data Hcap Hsmall Hb)
      as (Hb' & Hz' & Hsame).
    split; [exact Hb'|]. intros _.
    destruct (Z.le_gt_cases 0 (m_length o)) as [Hok|Herr];
      [now apply Hz'|].
    rewrite Hsame by lia. apply Hz.
    intros ->. unfold o in Herr. simpl in Herr. lia.
Qed.

(** X4. [format] into a buffer of [cap] bytes, one at least, never stores
    outside these: the array keeps its length and is as it was from offset
    [cap] on, whatever the template and the arguments are and however long
    the text is.  Unless the template is empty, the array holds a null
    terminator before offset [cap] afterwards. *)
Theorem format_buffer_stays_in_bounds (buffer : list ascii) (cap : Z)
    (fmt : list ascii) (args : list Arg) :
  1 <= cap <= Z.of_nat (length buffer) -> cap < 2 ^ 31 ->
  let memory := snd (format_buffer buffer cap fmt args) in
  length memory = length buffer
  /\ skipn (Z.to_nat cap) memory = skipn (Z.to_nat cap) buffer
  /\ (fmt <> [] ->
      exists k, (k < Z.to_nat cap)%nat /\ nth k memory "x" = zero).
Proof.
  intros Hcap Hsmall. unfold format_buffer. cbn [snd].
  destruct (format_trace fmt args) as (chunks & -> & Hnil).
  destruct (buffer_bounds_writes buffer cap chunks Hcap Hsmall)
    as [(Hs & Hlen & Hrest & Hsize & Hsum) Hz].
  split; [assumption|]. split; [assumption|].
  intros Hne. eexists. split; [|apply Hz; intros ->; now apply Hne, Hnil].
  lia.
Qed.

Lemma buffer_length_write (o : Output) (data : list ascii) :
  m_stream o = None ->
  m_stream (write o data) = None
  /\ m_length (write o data)
     = if 0 <=? m_length o
       then wrap32 (m_length o + wrap32 (Z.of_nat (length data)))
       else m_length o.
Proof.
  intros Hs. unfold write. rewrite Hs.
  destruct (0 <=? m_length o); [|now split].
  destruct (m_size o =? 0); now split.
Qed.

Lemma buffer_length_writes (chunks : list (list ascii)) :
  forall o1 o2,
    m_stream o1 = None -> m_stream o2 = None -> m_length o1 = m_length o2 ->
    m_length (writes o1 chunks) = m_length (writes o2 chunks).
Proof.
  induction chunks as [|data chunks IH]; intros o1 o2 Hs1 Hs2 Hl;
    [assumption|].
  simpl.
  destruct (buffer_length_write o1 data Hs1) as [Hs1' Hl1].
  destruct (buffer_length_write o2 data Hs2) as [Hs2' Hl2].
  apply IH; try assumption. now rewrite Hl1, Hl2, Hl.
Qed.

(** X5. The count that [format] returns for a buffer does not depend on the
    buffer or on its size: a text that is cut short counts in full, and a
    size of 0 gives the count of a buffer that holds all of it. *)
Theorem format_count_ignores_capacity (buffer1 buffer2 : list ascii)
    (size1 size2 : Z) (fmt : list ascii) (args : list Arg) :
  fst (format_buffer buffer1 size1 fmt args)
  = fst (format_buffer buffer2 size2 fmt args).
Proof.
  unfold format_buffer, result. cbn [fst].
  destruct (format_trace fmt args) as (chunks & Htrace & _).
  rewrite !Htrace. now apply buffer_length_writes.
Qed.

Lemma stream_length_writes (chunks : list (list ascii)) :
  forall os ob,
    m_stream os <> None -> m_stream ob = None ->
    m_length os = -1 \/ m_length os = m_length ob ->
    m_length (writes os chunks) = -1
    \/ m_length (writes os chunks) = m_length (writes ob chunks).
Proof.
  induction chunks as [|data chunks IH]; intros os ob Hs Hb Hl;
    [assumption|].
  simpl.
  destruct (buffer_length_write ob data Hb) as [Hb' Hlb].
  apply IH; try assumption.
  - unfold write. destruct (0 <=? m_length os); [|assumption].
    destruct (m_stream os) as [stream|]; [|congruence].
    destruct (fwrite stream data) as [stream' written].
    destruct (written =? _); discriminate.
  - rewrite Hlb. unfold write.
    destruct (0 <=? m_length os) eqn:E.
    + destruct (m_stream os) as [stream|]; [|congruence].
      destruct (fwrite stream data) as [stream' written].
      destruct (written =? Z.of_nat (length data)) eqn:Ew; simpl;
        [|now left].
      apply Z.eqb_eq in Ew. subst written.
      destruct Hl as [Hl|Hl].
      * apply Z.leb_le in E. lia.
      * right. now rewrite <- Hl, E.
    + destruct Hl as [Hl|Hl]; [now left|].
      right. now rewrite <- Hl, E.
Qed.

(** X6. The count that [format] returns for a stream, and [print] for
    standard out, is -1 or the count that it returns for a buffer: a stream
    never reports a part of the text. *)
Theorem format_FILE_count (file : Stream) (buffer : list ascii) (size : Z)
    (fmt : list ascii) (args : list Arg) :
  (fst (format_FILE file fmt args) = -1
   \/ fst (format_FILE file fmt args)
      = fst (format_buffer buffer size fmt args))
  /\ (fst (print file fmt args) = -1
      \/ fst (print file fmt args)
         = fst (format_buffer buffer size fmt args)).
Proof.
  unfold format_FILE, print, format_buffer, result. cbn [fst].
  destruct (format_trace fmt args) as (chunks & Htrace & _).
  rewrite !Htrace.
  split; apply stream_length_writes; try discriminate; try reflexivity;
    now right.
Qed.

(** X7. The writes that a call of [format] issues do not depend on the
    output: there is one sequence of chunks that the call writes to every
    output, be it a stream, a buffer of any size or an output in the error
    state.  The sequence is empty for the empty template only, and the
    count returned is read off the output after these writes. *)
Theorem format_writes_do_not_depend_on_output (fmt : list ascii)
    (args : list Arg) :
  exists chunks,
    (chunks = [] <-> fmt = [])
    /\ forall o,
         let o' := writes o chunks in
         format o fmt args
         = (if result o' <? 0 then result o'
            else wrap32 (result o' - result o), o').
Proof.
  destruct (format_trace fmt args) as (chunks & Htrace & Hnil).
  exists chunks. split; [exact Hnil|].
  intros o o'. subst o'. rewrite <- Htrace.
  destruct (format o fmt args) as [r o'] eqn:E.
  assert (Hr : fst (format o fmt args)
               = if result (snd (format o fmt args)) <? 0
                 then result (snd (format o fmt args))
                 else wrap32 (result (snd (format o fmt args)) - result o))
    by reflexivity.
  rewrite E in Hr. simpl in Hr. simpl. now rewrite Hr.
Qed.

End BufferFacts.

(** ** The engine on escapes and on an opening brace that is not closed *)

Section EngineFacts.

Context `{Host}.

Lemma starts_with_close_app (a b : list ascii) :
  starts_with_close a = false -> starts_with_close b = false ->
  starts_with_close (a ++ b) = false.
Proof. destruct a; simpl; congruence. Qed.

(** The engine from an item of a template to the text that follows the
    items. *)
Lemma template_prefix_run (fmt : list ascii) (args : list Arg)
    (tail : list ascii) (items : list Item) :
  forall (pre pending : list ascii) n s fs p i o,
    fmt = pre ++ pending ++ template_of items ++ tail ->
    s = length pre -> n = (length pre + length pending)%nat ->
    well_formed items = true -> starts_with_close tail = false ->
    exists fs' i' pre',
      let st := template_scan resolve_index args p pending items o in
      fmt = pre' ++ snd (fst st) ++ tail
      /\ format_run fmt args (Build_Scan STATE_OPENER n s fs p i o)
         = format_run fmt args
             (Build_Scan STATE_OPENER
                (length pre' + length (snd (fst st))) (length pre') fs'
                (fst (fst st)) i' (snd st)).
Proof.
  induction items as [|it rest IH];
    intros pre pending n s fs p i o Hfmt Hs Hn Hwf Htail.
  - exists fs, i, pre. simpl. split; [exact Hfmt | now subst].
  - change (template_of (it :: rest))
      with (item_text it ++ template_of rest) in Hfmt.
    cbn [well_formed] in Hwf. apply andb_true_iff in Hwf.
    destruct Hwf as [Hit Hrest].
    destruct it as [lit| | | |ph]; cbn [item_text] in Hfmt;
      cbn [template_scan].
    + rewrite (opener_literal fmt args lit (pre ++ pending)
                 (template_of rest ++ tail))
        by (assumption || app_eq Hfmt || length_eq).
      apply (IH pre (pending ++ lit)); try assumption;
        [app_eq Hfmt | length_eq].
    + rewrite (escape_open fmt args (pre ++ pending)
                 (template_of rest ++ tail))
        by (app_eq Hfmt || length_eq).
      rewrite (span_at fmt pre pending
                 ("{" :: "{" :: template_of rest ++ tail))
        by (assumption || app_eq Hfmt || length_eq).
      apply (IH (pre ++ pending ++ ["{"]) ["{"]); try assumption;
        [app_eq Hfmt | length_eq | length_eq].
    + rewrite (opener_close fmt args (pre ++ pending)
                 ("}" :: template_of rest ++ tail))
        by (app_eq Hfmt || length_eq).
      rewrite starts_with_close_cons.
      rewrite (span_at fmt pre (pending ++ ["}"])
                 ("}" :: template_of rest ++ tail))
        by (assumption || app_eq Hfmt || length_eq).
      apply (IH (pre ++ pending ++ ["}"; "}"]) []); try assumption;
        [app_eq Hfmt | length_eq | length_eq].
    + rewrite (opener_close fmt args (pre ++ pending)
                 (template_of rest ++ tail))
        by (app_eq Hfmt || length_eq).
      apply negb_true_iff in Hit.
      rewrite (starts_with_close_app _ _ Hit Htail).
      rewrite (span_at fmt pre (pending ++ ["}"])
                 (template_of rest ++ tail))
        by (assumption || app_eq Hfmt || length_eq).
      apply (IH (pre ++ pending ++ ["}"]) []); try assumption;
        [app_eq Hfmt | length_eq | length_eq].
    + unfold plain in Hit. apply andb_true_iff in Hit.
      destruct Hit as [Hdigits Hspec].
      destruct (placeholder_run fmt args ph (pre ++ pending)
                  (template_of rest ++ tail) n s fs p i o) as [fs' ->];
        try assumption; [app_eq Hfmt | length_eq |].
      rewrite (span_at fmt pre pending
                 (ph_text ph ++ template_of rest ++ tail))
        by (assumption || app_eq Hfmt || length_eq).
      cbv zeta.
      destruct (format_index _ _ _ _) as [[|] o'].
      * apply (IH (pre ++ pending ++ ph_text ph) []); try assumption;
          [app_eq Hfmt | length_eq | length_eq].
      * apply (IH (pre ++ pending) (ph_text ph)); try assumption;
          [app_eq Hfmt | length_eq | length_eq].
Qed.

(** From a place after which the template has no brace, the loop neither
    writes nor moves [start]. *)
Lemma no_brace_run (fmt : list ascii) (args : list Arg) :
  forall c,
    (forall k, (next c <= k < length fmt)%nat ->
       Ascii.eqb (nth k fmt zero) "{" = false
       /\ Ascii.eqb (nth k fmt zero) "}" = false) ->
    start (format_run fmt args c) = start c
    /\ output (format_run fmt args c) = output c.
Proof.
  intros c. remember (format_measure fmt c) as m eqn:Em.
  revert c Em. induction m as [m IH] using lt_wf_ind. intros c Em Hfree.
  rewrite format_run_unfold.
  destruct (next c <? length fmt)%nat eqn:E; [|now split].
  apply Nat.ltb_lt in E.
  pose proof (format_step_measure fmt args c E) as Hdec.
  destruct (Hfree (next c) ltac:(lia)) as [Ho Hc].
  assert (Hstep : start (format_step fmt args c) = start c
                  /\ output (format_step fmt args c) = output c
                  /\ (next c <= next (format_step fmt args c))%nat).
  { unfold format_step. rewrite Ho, Hc.
    destruct (state c); simpl;
      try destruct (is_digit _); try destruct (Ascii.eqb _ ":");
      simpl; repeat split; lia. }
  destruct Hstep as (Hs & Hout & Hnext).
  destruct (IH (format_measure fmt (format_step fmt args c))
              ltac:(lia) (format_step fmt args c) eq_refl) as [Hs' Hout'].
  { intros k Hk. apply Hfree. lia. }
  split; congruence.
Qed.

Lemma brace_free_nth (body : list ascii) (k : nat) :
  brace_free body = true -> (k < length body)%nat ->
  Ascii.eqb (nth k body zero) "{" = false
  /\ Ascii.eqb (nth k body zero) "}" = false.
Proof.
  revert k. induction body as [|ch body IH]; intros k Hb Hk;
    [simpl in Hk; lia|].
  apply brace_free_cons in Hb. destruct Hb as (Ho & Hc & Hb).
  destruct k as [|k]; [now split|].
  apply IH; [assumption | simpl in Hk; lia].
Qed.

(** X8. A template that ends in an opening brace on its own, after items of
    the grammar: the text that is pending at the brace (read after the last
    write) is written twice, once at the brace and once more, with the
    brace, at the end of the call. *)
Theorem trailing_open_brace_repeats_pending (o : Output)
    (items : list Item) (args : list Arg) :
  well_formed items = true ->
  let st := template_scan resolve_index args (-1) [] items o in
  let pending := snd (fst st) in
  snd (format o (template_of items ++ ["{"]) args)
  = write (write (snd st) pending) (pending ++ ["{"]).
Proof.
  intros Hwf st pending. unfold format, format_init.
  set (fmt := template_of items ++ ["{"]).
  destruct (template_prefix_run fmt args ["{"] items [] [] 0%nat 0%nat
              None (-1) (-1) o) as (fs' & i' & pre' & Hfmt & ->);
    try reflexivity; try assumption.
  fold st in Hfmt |- *. fold pending in Hfmt |- *.
  assert (Hterm : length fmt = S (length pre' + length pending))
    by (rewrite Hfmt; length_eq).
  destruct (run_at fmt args (pre' ++ pending) [] "{"
              (Build_Scan STATE_OPENER (length pre' + length pending)
                 (length pre') fs' (fst (fst st)) i' (snd st)))
    as [-> Hch]; [app_eq Hfmt | cbn [next]; length_eq |].
  unfold format_step.
  cbn [state next start formatStart prev index output] in *.
  rewrite Hch. simpl Ascii.eqb. cbv iota.
  rewrite Hterm, Nat.ltb_irrefl.
  rewrite format_run_unfold. cbn [next]. rewrite Hterm, Nat.ltb_irrefl.
  unfold format_finish. cbn [snd start output]. rewrite Hterm.
  replace (length pre' =? S (length pre' + length pending))%nat with false
    by (symmetry; apply Nat.eqb_neq; lia).
  rewrite (span_at fmt pre' pending ["{"]) by (assumption || lia).
  rewrite (span_at fmt pre' (pending ++ ["{"]) []);
    [reflexivity | app_eq Hfmt | reflexivity | length_eq].
Qed.

(** X9. A template that ends in an opening brace followed by text without
    braces, after items of the grammar: the brace opens a placeholder that
    is never closed, nothing is dispatched, and the text from the brace on
    is written as it is at the end of the call. *)
Theorem unclosed_placeholder_is_literal (o : Output) (items : list Item)
    (body : list ascii) (args : list Arg) :
  well_formed items = true -> brace_free body = true -> body <> [] ->
  let st := template_scan resolve_index args (-1) [] items o in
  snd (format o (template_of items ++ "{" :: body) args)
  = write (write (snd st) (snd (fst st))) ("{" :: body).
Proof.
  intros Hwf Hb Hne st. unfold format, format_init.
  set (fmt := template_of items ++ "{" :: body).
  destruct (template_prefix_run fmt args ("{" :: body) items [] [] 0%nat
              0%nat None (-1) (-1) o) as (fs' & i' & pre' & Hfmt & ->);
    try reflexivity; try assumption.
  fold st in Hfmt |- *. set (pending := snd (fst st)) in *.
  assert (Hterm : length fmt
                  = (length pre' + length pending + S (length body))%nat)
    by (rewrite Hfmt; length_eq).
  rewrite (open_brace fmt args (pre' ++ pending) body);
    [|app_eq Hfmt | length_eq | assumption|].
  2:{ destruct body as [|ch body]; [congruence|].
      apply brace_free_cons in Hb. now destruct Hb. }
  rewrite (span_at fmt pre' pending ("{" :: body)) by (assumption || lia).
  match goal with
  | |- context [format_run fmt args ?c] =>
      destruct (no_brace_run fmt args c) as [Hs Hout]
  end.
  { cbn [next]. intros k Hk.
    assert (Hk' : nth k fmt zero
                  = nth (k - S (length pre' + length pending)) body zero).
    { rewrite Hfmt.
      replace (pre' ++ pending ++ "{" :: body)
        with ((pre' ++ pending ++ ["{"]) ++ body)
        by (repeat rewrite <- app_assoc; reflexivity).
      rewrite app_nth2 by length_eq. f_equal. length_eq. }
    rewrite Hk'. apply brace_free_nth; [assumption | lia]. }
  unfold format_finish. cbn [snd]. rewrite Hs, Hout. cbn [start output].
  replace (length pre' + length pending =? length fmt)%nat with false
    by (symmetry; apply Nat.eqb_neq; lia).
  rewrite (span_at fmt (pre' ++ pending) ("{" :: body) []);
    [reflexivity | rewrite app_nil_r; app_eq Hfmt | length_eq | length_eq].
Qed.

(** The engine on items without placeholders: the pending text and the
    writes depend on the items only. *)
Lemma template_scan_no_hole (items : list Item) :
  forallb (fun it => negb (is_hole it)) items = true ->
  forall pending,
  exists chunks pending',
    concat chunks ++ pending' = pending ++ unescaped items
    /\ forall resolve args p o,
         template_scan resolve args p pending items o
         = (p, pending', writes o chunks).
Proof.
  induction items as [|it rest IH]; intros Hno pending.
  - exists [], pending. split; [now rewrite app_nil_r | reflexivity].
  - cbn [forallb] in Hno. apply andb_true_iff in Hno.
    destruct Hno as [Hit Hrest]. specialize (IH Hrest).
    unfold unescaped in *. cbn [flat_map].
    destruct it as [lit| | | |ph]; cbn [unescaped_item template_scan].
    + destruct (IH (pending ++ lit)) as (chunks & pending' & Htext & Hscan).
      exists chunks, pending'. split; [|exact Hscan].
      now rewrite Htext, <- app_assoc.
    + destruct (IH ["{"]) as (chunks & pending' & Htext & Hscan).
      exists (pending :: chunks), pending'. split.
      * cbn [concat]. now rewrite <- app_assoc, Htext.
      * intros. apply Hscan.
    + destruct (IH []) as (chunks & pending' & Htext & Hscan).
      exists ((pending ++ ["}"]) :: chunks), pending'. split.
      * cbn [concat]. now rewrite <- !app_assoc, Htext.
      * intros. apply Hscan.
    + destruct (IH []) as (chunks & pending' & Htext & Hscan).
      exists ((pending ++ ["}"]) :: chunks), pending'. split.
      * cbn [concat]. now rewrite <- !app_assoc, Htext.
      * intros. apply Hscan.
    + discriminate Hit.
Qed.

(** X10. On a template of literal text, escapes and closing braces on their
    own, [format] writes the text with each escape replaced by the brace it
    stands for, to every output and whatever the arguments are; the count
    returned for a buffer is the length of that text, when it is below
    [2^31]. *)
Theorem escapes_are_unescaped (items : list Item) :
  well_formed items = true ->
  forallb (fun it => negb (is_hole it)) items = true ->
  exists chunks,
    concat chunks = unescaped items
    /\ (forall o args,
          snd (format o (template_of items) args) = writes o chunks)
    /\ (Z.of_nat (length (unescaped items)) < 2 ^ 31 ->
        forall buffer size args,
          fst (format_buffer buffer size (template_of items) args)
          = Z.of_nat (length (unescaped items))).
Proof.
  intros Hwf Hno.
  destruct (template_scan_no_hole items Hno [])
    as (chunks & pending' & Htext & Hscan).
  set (all := chunks ++ match pending' with [] => [] | _ => [pending'] end).
  assert (Hconcat : concat all = unescaped items).
  { unfold all. cbn [app] in Htext. rewrite concat_app, <- Htext.
    destruct pending'; simpl; now rewrite ?app_nil_r. }
  assert (Hformat : forall o args,
            snd (format o (template_of items) args) = writes o all).
  { intros o args. rewrite format_template by assumption.
    unfold template_format, template_finish, all.
    rewrite Hscan. cbn [fst snd].
    destruct pending'; [now rewrite app_nil_r | now rewrite writes_app]. }
  exists all. split; [exact Hconcat|]. split; [exact Hformat|].
  intros Hfit buffer size args. unfold format_buffer, result. cbn [fst].
  rewrite Hformat.
  rewrite (buffer_length_writes all (Output_buffer buffer size)
             (Output_buffer [] 0)) by reflexivity.
  rewrite counting_state by (unfold requested; now rewrite Hconcat).
  cbn [m_length]. unfold requested. now rewrite Hconcat.
Qed.

End EngineFacts.

(** ** The spec parser on the specs of the grammar *)

Section ParserFacts.

Lemma parse_run_unfold (fmt : list ascii) (p : Parse) :
  parse_run fmt p =
  if (p_next p <? length fmt)%nat then
    match parse_step fmt p with
    | None => (false, p_flags p)
    | Some p' => parse_run fmt p'
    end
  else (true, p_flags p).
Proof.
  unfold parse_run at 1. cbn [parse_loop].
  destruct (p_next p <? length fmt)%nat eqn:E; [|reflexivity].
  destruct (parse_step fmt p) as [p'|] eqn:Estep; [|reflexivity].
  apply Nat.ltb_lt in E.
  pose proof (parse_step_measure fmt p p' E Estep).
  apply parse_loop_enough. lia.
Qed.

Lemma parse_end (fmt : list ascii) (p : Parse) :
  p_next p = length fmt -> parse_run fmt p = (true, p_flags p).
Proof.
  intros Hn. rewrite parse_run_unfold, Hn, Nat.ltb_irrefl. reflexivity.
Qed.

Lemma parse_at (fmt pre rest : list ascii) (ch : ascii) (p : Parse) :
  fmt = pre ++ ch :: rest -> p_next p = length pre ->
  parse_run fmt p
  = match parse_step fmt p with
    | None => (false, p_flags p)
    | Some p' => parse_run fmt p'
    end
  /\ nth (p_next p) fmt zero = ch.
Proof.
  intros Hfmt Hn. rewrite parse_run_unfold.
  assert (Hlt : (p_next p <? length fmt)%nat = true)
    by (rewrite Hfmt; now apply ltb_at).
  rewrite Hlt. split; [reflexivity | rewrite Hfmt; now apply nth_at].
Qed.

(** The kinds of characters of a spec do not overlap. *)
Lemma digit_class (ch : ascii) :
  is_digit ch = true ->
  isAlign ch = false /\ is_sign ch = false /\ Ascii.eqb ch "#" = false
  /\ Ascii.eqb ch "." = false /\ is_type_char ch = false.
Proof.
  destruct ch as [[|] [|] [|] [|] [|] [|] [|] [|]]; intros Hd;
    try discriminate Hd; repeat split.
Qed.

Lemma type_class (ch : ascii) :
  is_type_char ch = true ->
  isAlign ch = false /\ is_sign ch = false /\ Ascii.eqb ch "#" = false
  /\ Ascii.eqb ch "." = false /\ is_digit ch = false.
Proof.
  destruct ch as [[|] [|] [|] [|] [|] [|] [|] [|]]; intros Hd;
    try discriminate Hd; repeat split.
Qed.

Lemma sign_class (ch : ascii) : is_sign ch = true -> isAlign ch = false.
Proof.
  destruct ch as [[|] [|] [|] [|] [|] [|] [|] [|]]; intros Hd;
    try discriminate Hd; reflexivity.
Qed.

End ParserFacts.

Section ParserStages.

Variable fmt : list ascii.

#[local] Abbreviation run := (parse_run fmt).

(** Both sides have read all of the spec. *)
Ltac at_end Hfmt :=
  rewrite !parse_end
    by (cbn [p_next]; rewrite Hfmt; cbn [optional alternate_text app];
        rewrite ?app_nil_r; cbn [length]; lia);
  reflexivity.

Lemma align_stage (a : option (option ascii * ascii)) (rest : list ascii) :
  fmt = align_text a ++ rest ->
  holds isAlign (option_map snd a) = true ->
  isAlign (nth 0 rest zero) = false -> isAlign (nth 1 rest zero) = false ->
  run (Build_Parse STATE_ALIGN 0 FormatFlags_default)
  = run (Build_Parse STATE_SIGN (length (align_text a)) (align_flags a)).
Proof.
  intros Hfmt Ha H0 H1.
  destruct a as [[[f|] al]|];
    cbn [align_text optional app holds option_map snd] in Hfmt, Ha;
    cbn [align_text optional app length align_flags].
  - destruct (parse_at fmt [] (al :: rest) f
                (Build_Parse STATE_ALIGN 0 FormatFlags_default) Hfmt eq_refl)
      as [-> _].
    unfold parse_step. cbn [p_state p_next p_flags]. rewrite Hfmt.
    cbn [length nth]. rewrite Ha. reflexivity.
  - destruct (parse_at fmt [] rest al
                (Build_Parse STATE_ALIGN 0 FormatFlags_default) Hfmt eq_refl)
      as [-> _].
    unfold parse_step. cbn [p_state p_next p_flags]. rewrite Hfmt.
    cbn [nth]. rewrite H0, andb_false_r, Ha. reflexivity.
  - destruct rest as [|ch rest]; [at_end Hfmt|].
    destruct (parse_at fmt [] rest ch
                (Build_Parse STATE_ALIGN 0 FormatFlags_default) Hfmt eq_refl)
      as [-> _].
    unfold parse_step. cbn [p_state p_next p_flags]. rewrite Hfmt.
    cbn [nth] in *. rewrite H0, H1, andb_false_r. reflexivity.
Qed.

Lemma sign_stage (pre : list ascii) (c : option ascii) (rest : list ascii)
    (fl : FormatFlags) :
  fmt = pre ++ optional c ++ rest -> holds is_sign c = true ->
  is_sign (hd zero rest) = false ->
  run (Build_Parse STATE_SIGN (length pre) fl)
  = run (Build_Parse STATE_ALTERNATE (length pre + length (optional c))
           (sign_flags c fl)).
Proof.
  intros Hfmt Hc Hrest.
  destruct c as [ch|]; cbn [optional app holds] in Hfmt, Hc;
    cbn [optional length sign_flags].
  - destruct (parse_at fmt pre rest ch
                (Build_Parse STATE_SIGN (length pre) fl) Hfmt eq_refl)
      as [-> Hch].
    unfold parse_step. cbn [p_state p_next p_flags] in *. rewrite Hch.
    unfold is_sign in Hc. rewrite Hc, Nat.add_1_r. reflexivity.
  - rewrite Nat.add_0_r.
    destruct rest as [|ch rest]; [at_end Hfmt|].
    destruct (parse_at fmt pre rest ch
                (Build_Parse STATE_SIGN (length pre) fl) Hfmt eq_refl)
      as [-> Hch].
    unfold parse_step. cbn [p_state p_next p_flags] in *. rewrite Hch.
    unfold is_sign in Hrest. cbn [hd] in Hrest. rewrite Hrest. reflexivity.
Qed.

Lemma alternate_stage (pre : list ascii) (a : bool) (rest : list ascii)
    (fl : FormatFlags) :
  fmt = pre ++ alternate_text a ++ rest ->
  Ascii.eqb (hd zero rest) "#" = false ->
  run (Build_Parse STATE_ALTERNATE (length pre) fl)
  = run (Build_Parse STATE_WIDTH (length pre + length (alternate_text a))
           (alternate_flags a fl)).
Proof.
  intros Hfmt Hrest.
  destruct a; cbn [alternate_text app] in Hfmt;
    cbn [alternate_text length alternate_flags].
  - destruct (parse_at fmt pre rest "#"
                (Build_Parse STATE_ALTERNATE (length pre) fl) Hfmt eq_refl)
      as [-> Hch].
    unfold parse_step. cbn [p_state p_next p_flags] in *. rewrite Hch.
    rewrite Nat.add_1_r. reflexivity.
  - rewrite Nat.add_0_r.
    destruct rest as [|ch rest]; [at_end Hfmt|].
    destruct (parse_at fmt pre rest ch
                (Build_Parse STATE_ALTERNATE (length pre) fl) Hfmt eq_refl)
      as [-> Hch].
    unfold parse_step. cbn [p_state p_next p_flags] in *. rewrite Hch.
    cbn [hd] in Hrest. rewrite Hrest. reflexivity.
Qed.


Lemma set_width_same (fl : FormatFlags) : set_width fl (width fl) = fl.
Proof. now destruct fl. Qed.

Lemma set_precision_same (fl : FormatFlags) :
  set_precision fl (precision fl) = fl.
Proof. now destruct fl. Qed.

Lemma width_digits (ds : list ascii) :
  forall (pre rest : list ascii) (fl : FormatFlags),
    fmt = pre ++ ds ++ rest -> forallb is_digit ds = true ->
    0 <= width fl ->
    fold_left (fun a ch => 10 * a + (code ch - code "0")) ds (width fl)
    < 2 ^ 31 ->
    run (Build_Parse STATE_WIDTH (length pre) fl)
    = run (Build_Parse STATE_WIDTH (length pre + length ds)
             (set_width fl
                (fold_left (fun a ch => 10 * a + (code ch - code "0")) ds
                   (width fl)))).
Proof.
  induction ds as [|d ds IH]; intros pre rest fl Hfmt Hd Hw Hfit.
  - cbn [fold_left length]. now rewrite set_width_same, Nat.add_0_r.
  - cbn [forallb fold_left] in Hd, Hfit |- *.
    apply andb_true_iff in Hd. destruct Hd as [Hd Hds].
    pose proof (digit_value d Hd) as Hv.
    pose proof (decimal_fold_ge ds (10 * width fl + (code d - code "0"))
                  ltac:(lia) Hds) as Hge.
    destruct (parse_at fmt pre (ds ++ rest) d
                (Build_Parse STATE_WIDTH (length pre) fl) Hfmt eq_refl)
      as [-> Hch].
    unfold parse_step. cbn [p_state p_next p_flags] in *. rewrite Hch, Hd.
    destruct (width fl <? 0) eqn:E; [apply Z.ltb_lt in E; lia|].
    rewrite (wrap32_id (width fl * 10)) by (unfold in_int32; lia).
    rewrite wrap32_id by (unfold in_int32; lia).
    replace (width fl * 10) with (10 * width fl) by lia.
    replace (S (length pre)) with (length (pre ++ [d])) by length_eq.
    rewrite (IH (pre ++ [d]) rest); try assumption.
    + f_equal. f_equal; try reflexivity; length_eq.
    + app_eq Hfmt.
    + cbn [width set_width]. lia.
Qed.

Lemma width_exit (pre rest : list ascii) (fl : FormatFlags) :
  fmt = pre ++ rest -> is_digit (hd zero rest) = false ->
  run (Build_Parse STATE_WIDTH (length pre) fl)
  = run (Build_Parse STATE_PRECISION (length pre) fl).
Proof.
  intros Hfmt Hrest.
  destruct rest as [|ch rest]; [at_end Hfmt|].
  destruct (parse_at fmt pre rest ch
              (Build_Parse STATE_WIDTH (length pre) fl) Hfmt eq_refl)
    as [-> Hch].
  unfold parse_step. cbn [p_state p_next p_flags] in *. rewrite Hch.
  cbn [hd] in Hrest. rewrite Hrest. reflexivity.
Qed.

Lemma width_stage (pre ds rest : list ascii) (fl : FormatFlags) :
  fmt = pre ++ ds ++ rest -> forallb is_digit ds = true ->
  is_digit (hd zero rest) = false -> width fl < 0 -> decimal ds < 2 ^ 31 ->
  run (Build_Parse STATE_WIDTH (length pre) fl)
  = run (Build_Parse STATE_PRECISION (length pre + length ds)
           (width_flags ds fl)).
Proof.
  intros Hfmt Hd Hrest Hw Hfit.
  destruct ds as [|d ds].
  - cbn [length width_flags]. rewrite Nat.add_0_r.
    now apply (width_exit pre rest).
  - cbn [forallb] in Hd. apply andb_true_iff in Hd. destruct Hd as [Hd Hds].
    pose proof (digit_value d Hd) as Hv.
    destruct (parse_at fmt pre (ds ++ rest) d
                (Build_Parse STATE_WIDTH (length pre) fl) Hfmt eq_refl)
      as [-> Hch].
    unfold parse_step. cbn [p_state p_next p_flags] in *. rewrite Hch, Hd.
    apply Z.ltb_lt in Hw. rewrite Hw.
    set (fl0 := if Ascii.eqb d "0" then set_fill_align fl "0" "=" else fl).
    cbn [width set_width].
    change (wrap32 (0 * 10)) with 0.
    rewrite wrap32_id by (unfold in_int32; lia).
    change (0 + (code d - code "0")) with (code d - code "0").
    replace (S (length pre)) with (length (pre ++ [d])) by length_eq.
    unfold decimal in Hfit. cbn [fold_left] in Hfit.
    rewrite (width_digits ds (pre ++ [d]) rest);
      [|app_eq Hfmt | assumption | cbn [width set_width]; lia
       | cbn [width set_width]; exact Hfit].
    replace (length (pre ++ [d]) + length ds)%nat
      with (length (pre ++ d :: ds)) by length_eq.
    rewrite (width_exit (pre ++ d :: ds) rest);
      [|app_eq Hfmt | assumption].
    f_equal. f_equal. length_eq.
Qed.

Lemma precision_digits_run (ds : list ascii) :
  forall (pre rest : list ascii) (fl : FormatFlags),
    fmt = pre ++ ds ++ rest -> forallb is_digit ds = true ->
    0 <= precision fl ->
    fold_left (fun a ch => 10 * a + (code ch - code "0")) ds (precision fl)
    < 2 ^ 31 ->
    run (Build_Parse STATE_PRECISION (length pre) fl)
    = run (Build_Parse STATE_PRECISION (length pre + length ds)
             (set_precision fl
                (fold_left (fun a ch => 10 * a + (code ch - code "0")) ds
                   (precision fl)))).
Proof.
  induction ds as [|d ds IH]; intros pre rest fl Hfmt Hd Hw Hfit.
  - cbn [fold_left length]. now rewrite set_precision_same, Nat.add_0_r.
  - cbn [forallb fold_left] in Hd, Hfit |- *.
    apply andb_true_iff in Hd. destruct Hd as [Hd Hds].
    pose proof (digit_value d Hd) as Hv.
    pose proof (decimal_fold_ge ds (10 * precision fl + (code d - code "0"))
                  ltac:(lia) Hds) as Hge.
    destruct (digit_class d Hd) as (_ & _ & _ & Hdot & _).
    destruct (parse_at fmt pre (ds ++ rest) d
                (Build_Parse STATE_PRECISION (length pre) fl) Hfmt eq_refl)
      as [-> Hch].
    unfold parse_step. cbn [p_state p_next p_flags] in *.
    rewrite Hch, Hd, Hdot, andb_false_r.
    destruct (0 <=? precision fl) eqn:E; [|apply Z.leb_gt in E; lia].
    cbn [andb].
    rewrite (wrap32_id (precision fl * 10)) by (unfold in_int32; lia).
    rewrite wrap32_id by (unfold in_int32; lia).
    replace (precision fl * 10) with (10 * precision fl) by lia.
    replace (S (length pre)) with (length (pre ++ [d])) by length_eq.
    rewrite (IH (pre ++ [d]) rest); try assumption.
    + f_equal. f_equal; try reflexivity; length_eq.
    + app_eq Hfmt.
    + cbn [precision set_precision]. lia.
Qed.

Lemma precision_exit (pre rest : list ascii) (fl : FormatFlags) :
  fmt = pre ++ rest -> is_digit (hd zero rest) = false ->
  (precision fl < 0 -> Ascii.eqb (hd zero rest) "." = false) ->
  run (Build_Parse STATE_PRECISION (length pre) fl)
  = run (Build_Parse STATE_TYPE (length pre) fl).
Proof.
  intros Hfmt Hrest Hdot.
  destruct rest as [|ch rest]; [at_end Hfmt|].
  destruct (parse_at fmt pre rest ch
              (Build_Parse STATE_PRECISION (length pre) fl) Hfmt eq_refl)
    as [-> Hch].
  unfold parse_step. cbn [p_state p_next p_flags] in *. rewrite Hch.
  cbn [hd] in Hrest, Hdot. rewrite Hrest, andb_false_r.
  destruct (precision fl <? 0) eqn:E; [|reflexivity].
  apply Z.ltb_lt in E. now rewrite (Hdot E).
Qed.

Lemma precision_stage (pre : list ascii) (p : option (list ascii))
    (rest : list ascii) (fl : FormatFlags) :
  fmt = pre ++ precision_text p ++ rest ->
  forallb is_digit (precision_digits p) = true ->
  is_digit (hd zero rest) = false -> Ascii.eqb (hd zero rest) "." = false ->
  precision fl < 0 -> decimal (precision_digits p) < 2 ^ 31 ->
  run (Build_Parse STATE_PRECISION (length pre) fl)
  = run (Build_Parse STATE_TYPE (length pre + length (precision_text p))
           (precision_flags p fl)).
Proof.
  intros Hfmt Hd Hrest Hdot Hp Hfit.
  destruct p as [ds|];
    cbn [precision_text precision_digits precision_flags app length] in *.
  - destruct (parse_at fmt pre (ds ++ rest) "."
                (Build_Parse STATE_PRECISION (length pre) fl) Hfmt eq_refl)
      as [-> Hch].
    unfold parse_step. cbn [p_state p_next p_flags] in *. rewrite Hch.
    apply Z.ltb_lt in Hp. rewrite Hp.
    change (Ascii.eqb "." ".") with true. cbn [andb].
    replace (S (length pre)) with (length (pre ++ ["."])) by length_eq.
    rewrite (precision_digits_run ds (pre ++ ["."]) rest);
      [|app_eq Hfmt | assumption | cbn [precision set_precision]; lia
       | cbn [precision set_precision]; exact Hfit].
    replace (length (pre ++ ["."]) + length ds)%nat
      with (length (pre ++ "." :: ds)) by length_eq.
    rewrite (precision_exit (pre ++ "." :: ds) rest);
      [|app_eq Hfmt | assumption|].
    + f_equal. f_equal. length_eq.
    + cbn [precision set_precision]. unfold decimal in Hfit.
      pose proof (decimal_fold_ge ds 0 ltac:(lia) Hd). lia.
  - rewrite Nat.add_0_r. apply (precision_exit pre rest); auto.
Qed.

Lemma type_stage (pre : list ascii) (t : option ascii) (rest : list ascii)
    (fl : FormatFlags) :
  fmt = pre ++ optional t ++ rest -> holds is_type_char t = true ->
  (t = None -> is_type_char (hd zero rest) = false) ->
  run (Build_Parse STATE_TYPE (length pre) fl)
  = run (Build_Parse STATE_DONE (length pre + length (optional t))
           (type_flags t fl)).
Proof.
  intros Hfmt Ht Hrest.
  destruct t as [ch|]; cbn [optional app holds] in Hfmt, Ht;
    cbn [optional length type_flags].
  - destruct (parse_at fmt pre rest ch
                (Build_Parse STATE_TYPE (length pre) fl) Hfmt eq_refl)
      as [-> Hch].
    unfold parse_step. cbn [p_state p_next p_flags] in *.
    rewrite Hch, Ht, Nat.add_1_r. reflexivity.
  - rewrite Nat.add_0_r. specialize (Hrest eq_refl).
    destruct rest as [|ch rest]; [at_end Hfmt|].
    destruct (parse_at fmt pre rest ch
                (Build_Parse STATE_TYPE (length pre) fl) Hfmt eq_refl)
      as [-> Hch].
    unfold parse_step. cbn [p_state p_next p_flags] in *. rewrite Hch.
    cbn [hd] in Hrest. rewrite Hrest. reflexivity.
Qed.

End ParserStages.

Section ParserTheorems.

Lemma not_align_nth (l : list ascii) :
  forallb (fun ch => negb (isAlign ch)) l = true ->
  forall k, isAlign (nth k l zero) = false.
Proof.
  induction l as [|ch l IH]; intros Hl k.
  - now destruct k.
  - cbn [forallb] in Hl. apply andb_true_iff in Hl. destruct Hl as [Hch Hl].
    destruct k as [|k]; [now apply negb_true_iff in Hch | now apply IH].
Qed.

Lemma digits_not_align (ds : list ascii) :
  forallb is_digit ds = true ->
  forallb (fun ch => negb (isAlign ch)) ds = true.
Proof.
  induction ds as [|d ds IH]; intros Hd; [reflexivity|].
  cbn [forallb] in *. apply andb_true_iff in Hd. destruct Hd as [Hd Hds].
  destruct (digit_class d Hd) as (-> & _). now rewrite IH.
Qed.

(** No character of the parts after the alignment is an alignment
    character. *)
Lemma body_not_align (c : option ascii) (h : bool) (W : list ascii)
    (P : option (list ascii)) (T : option ascii) :
  holds is_sign c = true -> forallb is_digit W = true ->
  forallb is_digit (precision_digits P) = true ->
  holds is_type_char T = true ->
  forallb (fun ch => negb (isAlign ch))
    (optional c ++ alternate_text h ++ W ++ precision_text P ++ optional T)
  = true.
Proof.
  intros Hc HW HP HT. rewrite !forallb_app.
  repeat (apply andb_true_iff; split).
  - destruct c as [ch|]; [|reflexivity].
    simpl in *. now rewrite (sign_class ch Hc).
  - now destruct h.
  - now apply digits_not_align.
  - destruct P as [ds|]; [|reflexivity].
    cbn [precision_text forallb]. now apply digits_not_align.
  - destruct T as [t|]; [|reflexivity].
    simpl in *. now destruct (type_class t HT) as (-> & _).
Qed.

(** The character after a part is not one that the part goes on with. *)
Lemma head_of_rest (test : ascii -> bool) (h : bool) (W : list ascii)
    (P : option (list ascii)) (T : option ascii) (junk : list ascii) :
  test zero = false -> (h = true -> test "#" = false) ->
  (W <> [] -> forall d, is_digit d = true -> test d = false) ->
  (P <> None -> test "." = false) ->
  (forall t, is_type_char t = true -> test t = false) ->
  forallb is_digit W = true -> holds is_type_char T = true ->
  (junk <> [] -> T <> None) ->
  test (hd zero
          (alternate_text h ++ W ++ precision_text P ++ optional T ++ junk))
  = false.
Proof.
  intros Hzero Hh Hdigit Hdot Htype HW HT Hjunk.
  destruct h; [now apply Hh|].
  destruct W as [|d W].
  2:{ cbn [forallb] in HW. apply andb_true_iff in HW.
      apply Hdigit; [discriminate | apply HW]. }
  destruct P as [ds|]; [apply Hdot; discriminate|].
  destruct T as [t|]; [now apply Htype|].
  destruct junk as [|ch junk]; [exact Hzero|].
  exfalso. now apply Hjunk.
Qed.

(** The parser on the text of a spec, up to [STATE_DONE]. *)
Lemma parse_spec_run (s : Spec) (junk : list ascii) :
  spec_valid s = true ->
  decimal (sp_width s) < 2 ^ 31 ->
  decimal (precision_digits (sp_precision s)) < 2 ^ 31 ->
  (junk <> [] -> sp_type s <> None /\ isAlign (hd zero junk) = false) ->
  parse_format (spec_text s ++ junk)
  = parse_run (spec_text s ++ junk)
      (Build_Parse STATE_DONE (length (spec_text s)) (spec_flags s)).
Proof.
  destruct s as [a c h W P T].
  unfold spec_valid, spec_text, spec_flags.
  cbn [sp_align sp_sign sp_alternate sp_width sp_precision sp_type].
  intros Hvalid HfitW HfitP Hjunk.
  apply andb_true_iff in Hvalid. destruct Hvalid as [Hvalid HT].
  apply andb_true_iff in Hvalid. destruct Hvalid as [Hvalid HP].
  apply andb_true_iff in Hvalid. destruct Hvalid as [Hvalid HW].
  apply andb_true_iff in Hvalid. destruct Hvalid as [Ha Hc].
  assert (HjunkT : junk <> [] -> T <> None) by (intros Hne; now apply Hjunk).
  set (fmt := (align_text a ++ optional c ++ alternate_text h ++ W
               ++ precision_text P ++ optional T) ++ junk).
  assert (Hfmt : fmt = align_text a ++ optional c ++ alternate_text h ++ W
                       ++ precision_text P ++ optional T ++ junk)
    by (unfold fmt; now rewrite <- !app_assoc).
  change (parse_format fmt)
    with (parse_run fmt (Build_Parse STATE_ALIGN 0 FormatFlags_default)).
  assert (Halign : forall k, (k < 2)%nat ->
            isAlign (nth k (optional c ++ alternate_text h ++ W
                            ++ precision_text P ++ optional T ++ junk) zero)
            = false).
  { intros k Hk.
    pose proof (body_not_align c h W P T Hc HW HP HT) as Hbody.
    destruct junk as [|ch junk].
    - rewrite !app_nil_r. now apply not_align_nth.
    - destruct (Hjunk ltac:(discriminate)) as [HTn Hch]. cbn [hd] in Hch.
      destruct T as [t|]; [|congruence].
      replace (optional c ++ alternate_text h ++ W ++ precision_text P
               ++ optional (Some t) ++ ch :: junk)
        with (((optional c ++ alternate_text h ++ W ++ precision_text P
                ++ optional (Some t)) ++ [ch]) ++ junk)
        by (now rewrite <- !app_assoc).
      rewrite app_nth1.
      + apply not_align_nth. rewrite forallb_app, Hbody. simpl.
        now rewrite Hch.
      + rewrite !length_app. simpl. lia. }
  rewrite (align_stage fmt a _ Hfmt Ha (Halign 0%nat ltac:(lia))
             (Halign 1%nat ltac:(lia))).
  change (length (align_text a)) with (length ([] ++ align_text a)) at 1.
  rewrite (sign_stage fmt (align_text a) c
             (alternate_text h ++ W ++ precision_text P ++ optional T
              ++ junk)); [|exact Hfmt | exact Hc|].
  2:{ apply head_of_rest; try assumption; try reflexivity.
      - intros _ d Hd. apply (digit_class d Hd).
      - intros t Ht. apply (type_class t Ht). }
  rewrite <- length_app.
  rewrite (alternate_stage fmt (align_text a ++ optional c) h
             (W ++ precision_text P ++ optional T ++ junk));
    [|now rewrite Hfmt, <- !app_assoc|].
  2:{ apply (head_of_rest (fun ch => Ascii.eqb ch "#") false);
        try assumption; try reflexivity; try discriminate.
      - intros _ d Hd. apply (digit_class d Hd).
      - intros t Ht. apply (type_class t Ht). }
  rewrite <- length_app.
  rewrite (width_stage fmt ((align_text a ++ optional c)
                            ++ alternate_text h) W
             (precision_text P ++ optional T ++ junk));
    [|now rewrite Hfmt, <- !app_assoc | exact HW | | | exact HfitW].
  2:{ apply (head_of_rest is_digit false []);
        try assumption; try reflexivity; try discriminate; try congruence.
      intros t Ht. apply (type_class t Ht). }
  2:{ destruct h, c as [ch|], a as [[[f|] al]|]; simpl; lia. }
  rewrite <- length_app.
  rewrite (precision_stage fmt (((align_text a ++ optional c)
                                 ++ alternate_text h) ++ W) P
             (optional T ++ junk));
    [|now rewrite Hfmt, <- !app_assoc | exact HP | | | | exact HfitP].
  2:{ apply (head_of_rest is_digit false [] None);
        try assumption; try reflexivity; try discriminate; try congruence.
      intros t Ht. apply (type_class t Ht). }
  2:{ apply (head_of_rest (fun ch => Ascii.eqb ch ".") false [] None);
        try assumption; try reflexivity; try discriminate; try congruence.
      intros t Ht. apply (type_class t Ht). }
  2:{ unfold width_flags.
      destruct W as [|d W], h, c as [ch|], a as [[[f|] al]|];
        try destruct (Ascii.eqb d "0"); simpl; lia. }
  rewrite <- length_app.
  rewrite (type_stage fmt ((((align_text a ++ optional c)
                             ++ alternate_text h) ++ W)
                           ++ precision_text P) T junk);
    [|now rewrite Hfmt, <- !app_assoc | exact HT|].
  2:{ intros ->. destruct junk as [|ch junk]; [reflexivity|].
      exfalso. now apply HjunkT. }
  rewrite <- length_app. f_equal. f_equal. now rewrite <- !app_assoc.
Qed.


(** X11. The parser accepts every spec of the grammar
    [[[fill]align][sign][#][width][.precision][type]] and returns the flags
    that the spec stands for: the fill and the alignment, the sign, the
    alternate form, the width and the precision as decimal numbers (below
    [2^31]), the type; a part that is left out keeps its default, and a
    width that starts with 0 sets the fill to 0 and the alignment to [=]. *)
Theorem parse_format_accepts_grammar (s : Spec) :
  spec_valid s = true ->
  decimal (sp_width s) < 2 ^ 31 ->
  decimal (precision_digits (sp_precision s)) < 2 ^ 31 ->
  parse_format (spec_text s) = (true, spec_flags s).
Proof.
  intros Hvalid HfitW HfitP.
  pose proof (parse_spec_run s [] Hvalid HfitW HfitP
                ltac:(intros Hne; congruence)) as Hrun.
  rewrite app_nil_r in Hrun. rewrite Hrun. now apply parse_end.
Qed.

(** X12. Nothing may follow the type: a spec of the grammar with a type,
    followed by one more character at least, is rejected.  (The character
    is not an alignment character: a type and an alignment character alone
    are a fill and an alignment.) *)
Theorem parse_format_rejects_text_after_type (s : Spec) (ch : ascii)
    (junk : list ascii) :
  spec_valid s = true ->
  decimal (sp_width s) < 2 ^ 31 ->
  decimal (precision_digits (sp_precision s)) < 2 ^ 31 ->
  sp_type s <> None -> isAlign ch = false ->
  fst (parse_format (spec_text s ++ ch :: junk)) = false.
Proof.
  intros Hvalid HfitW HfitP Htype Hch.
  rewrite (parse_spec_run s (ch :: junk) Hvalid HfitW HfitP)
    by (intros _; now split).
  destruct (parse_at (spec_text s ++ ch :: junk) (spec_text s) junk ch
              (Build_Parse STATE_DONE (length (spec_text s)) (spec_flags s))
              eq_refl eq_refl) as [-> _].
  reflexivity.
Qed.

(** An iteration of the loop consumes characters of the spec alphabet
    only, but for a fill. *)
Lemma parse_step_alphabet (fmt : list ascii) (p p' : Parse) :
  parse_step fmt p = Some p' -> (p_next p < length fmt)%nat ->
  (p_state p = STATE_ALIGN -> p_next p = 0%nat) ->
  p_state p' <> STATE_ALIGN
  /\ (p_next p' <= length fmt)%nat
  /\ forall k, (p_next p <= k < p_next p')%nat ->
       is_spec_char (nth k fmt zero) = true
       \/ (k = 0%nat /\ isAlign (nth 1 fmt zero) = true).
Proof.
  intros Hstep Hlt Hstart. unfold parse_step in Hstep.
  assert (Hone : forall (test : bool) (n : nat) (P : nat -> Prop),
            (test = true -> P n) ->
            forall k, (n <= k < (if test then S n else n))%nat -> P k).
  { intros test n P HP k Hk. destruct test; [|lia].
    replace k with n by lia. now apply HP. }
  destruct (p_state p) eqn:Est.
  - rewrite (Hstart eq_refl) in *.
    destruct (1 <? length fmt)%nat eqn:E1; cbn [andb] in Hstep.
    + apply Nat.ltb_lt in E1.
      destruct (isAlign (nth 1 fmt zero)) eqn:Ea.
      * injection Hstep as <-. cbn [p_state p_next].
        split; [discriminate|]. split; [lia|]. intros k Hk.
        destruct k as [|[|k]]; [now right | left | lia].
        unfold is_spec_char. now rewrite Ea.
      * destruct (isAlign (nth 0 fmt zero)) eqn:Ea0;
          injection Hstep as <-; cbn [p_state p_next];
          (split; [discriminate|]); (split; [lia|]); intros k Hk;
          [|lia].
        left. replace k with 0%nat by lia.
        unfold is_spec_char. now rewrite Ea0.
    + destruct (isAlign (nth 0 fmt zero)) eqn:Ea0;
        injection Hstep as <-; cbn [p_state p_next];
        (split; [discriminate|]); (split; [lia|]); intros k Hk;
        [|lia].
      left. replace k with 0%nat by lia.
      unfold is_spec_char. now rewrite Ea0.
  - fold (is_sign (nth (p_next p) fmt zero)) in Hstep.
    destruct (is_sign (nth (p_next p) fmt zero)) eqn:E;
      injection Hstep as <-; cbn [p_state p_next];
      (split; [discriminate|]); (split; [lia|]); intros k Hk; [|lia].
    left. replace k with (p_next p) by lia.
    unfold is_spec_char. now rewrite E, !orb_true_r.
  - destruct (Ascii.eqb (nth (p_next p) fmt zero) "#") eqn:E;
      injection Hstep as <-; cbn [p_state p_next];
      (split; [discriminate|]); (split; [lia|]); intros k Hk; [|lia].
    left. replace k with (p_next p) by lia.
    unfold is_spec_char. now rewrite E, !orb_true_r.
  - destruct (is_digit (nth (p_next p) fmt zero)) eqn:E;
      injection Hstep as <-; cbn [p_state p_next];
      (split; [discriminate|]); (split; [lia|]); intros k Hk; [|lia].
    left. replace k with (p_next p) by lia.
    unfold is_spec_char. now rewrite E, !orb_true_r.
  - destruct (Ascii.eqb (nth (p_next p) fmt zero) ".") eqn:Edot;
      destruct (is_digit (nth (p_next p) fmt zero)) eqn:Edigit;
      destruct (precision (p_flags p) <? 0);
      destruct (0 <=? precision (p_flags p));
      cbn [andb] in Hstep; injection Hstep as <-; cbn [p_state p_next];
      (split; [discriminate|]); (split; [lia|]); intros k Hk; try lia;
      left; replace k with (p_next p) by lia;
      unfold is_spec_char; rewrite ?Edot, ?Edigit, ?orb_true_r;
      reflexivity.
  - destruct (is_type_char (nth (p_next p) fmt zero)) eqn:E;
      injection Hstep as <-; cbn [p_state p_next];
      (split; [discriminate|]); (split; [lia|]); intros k Hk; [|lia].
    left. replace k with (p_next p) by lia.
    unfold is_spec_char. now rewrite E, !orb_true_r.
  - discriminate Hstep.
Qed.

Lemma parse_run_alphabet (fmt : list ascii) :
  forall p,
    (p_state p = STATE_ALIGN -> p_next p = 0%nat) ->
    (p_next p <= length fmt)%nat ->
    (forall k, (k < p_next p)%nat ->
       is_spec_char (nth k fmt zero) = true
       \/ (k = 0%nat /\ isAlign (nth 1 fmt zero) = true)) ->
    fst (parse_run fmt p) = true ->
    forall k, (k < length fmt)%nat ->
      is_spec_char (nth k fmt zero) = true
      \/ (k = 0%nat /\ isAlign (nth 1 fmt zero) = true).
Proof.
  intros p. remember (parse_measure fmt p) as m eqn:Em.
  revert p Em. induction m as [m IH] using lt_wf_ind.
  intros p Em Hstart Hle Hread Hok.
  rewrite parse_run_unfold in Hok.
  destruct (p_next p <? length fmt)%nat eqn:E.
  - apply Nat.ltb_lt in E.
    destruct (parse_step fmt p) as [p'|] eqn:Estep; [|discriminate Hok].
    pose proof (parse_step_measure fmt p p' E Estep) as Hdec.
    destruct (parse_step_alphabet fmt p p' Estep E Hstart)
      as (Hst' & Hle' & Hread').
    apply (IH (parse_measure fmt p') ltac:(lia) p' eq_refl);
      try assumption; [congruence|].
    intros k Hk. destruct (Nat.lt_ge_cases k (p_next p)) as [Hold|Hnew];
      [now apply Hread | apply Hread'; lia].
  - apply Nat.ltb_ge in E. intros k Hk. apply Hread. lia.
Qed.

(** X13. A spec that the parser accepts is made of the characters of the
    grammar (alignment and sign characters, [#], digits, the point, type
    characters), but for its first character when the second one is an
    alignment character: that one is the fill.  Any other character makes
    the parser reject the spec. *)
Theorem accepted_spec_alphabet (fmt : list ascii) (k : nat) :
  fst (parse_format fmt) = true -> (k < length fmt)%nat ->
  is_spec_char (nth k fmt zero) = true
  \/ (k = 0%nat /\ isAlign (nth 1 fmt zero) = true).
Proof.
  intros Hok. revert k.
  apply (parse_run_alphabet fmt
           (Build_Parse STATE_ALIGN 0 FormatFlags_default));
    cbn [p_state p_next].
  - reflexivity.
  - lia.
  - intros k Hk. lia.
  - exact Hok.
Qed.

End ParserTheorems.

(** ** Integers and their digits *)

Section IntegerFacts.

Context `{Host}.









Lemma write_padding_zero (o : Output) (fill_ : ascii) :
  write_padding o fill_ 0 = o.
Proof. reflexivity. Qed.



End IntegerFacts.

(** ** Padding: the alignment [^], strings, and the argument at an index *)

Section SpacingFacts.

Lemma land_1 (a : Z) : Z.land a 1 = a mod 2.
Proof. exact (Z.land_ones a 1 ltac:(lia)). Qed.

(** The alignment [^] of [include/sp.hpp], by the parity of the width and
    of the count of characters. *)
Lemma center_spacing_centered (width_ nchars : Z) :
  0 <= nchars <= width_ -> width_ < 2 ^ 31 - 1 ->
  center_spacing width_ nchars = centered width_ nchars.
Proof.
  intros Hn Hw. unfold center_spacing, centered.
  rewrite (wrap32_id (nchars + 1)) by (unfold in_int32; lia).
  rewrite (wrap32_id (width_ + 1)) by (unfold in_int32; lia).
  rewrite (wrap32_id (width_ - nchars)) by (unfold in_int32; lia).
  rewrite (wrap32_id (width_ - nchars - 1)) by (unfold in_int32; lia).
  rewrite !Z.quot_div_nonneg by lia. rewrite land_1.
  pose proof (Zmod_even width_) as Hpw.
  pose proof (Zmod_even nchars) as Hpn.
  rewrite (wrap32_id (width_ / 2 - (nchars + 1) / 2))
    by (unfold in_int32; Z.div_mod_to_equations; lia).
  rewrite (wrap32_id ((width_ + 1) / 2 - nchars / 2))
    by (unfold in_int32; Z.div_mod_to_equations; lia).
  rewrite !wrap32_id by (unfold in_int32; Z.div_mod_to_equations; lia).
  destruct (Z.even width_), (Z.even nchars); cbn [andb];
    f_equal; Z.div_mod_to_equations; lia.
Qed.

(** X16. The alignment [^] of [include/sp.hpp]: the leading and the
    trailing count add up to the padding [width - nchars], and the leading
    one is the smaller half.  When the width and the count of characters
    are both even, the correction of the source goes the wrong way: the
    leading count is two more than the trailing one, and without padding
    the trailing count is -1. *)
Theorem center_spacing_split (width_ nchars : Z) :
  0 <= nchars <= width_ -> width_ < 2 ^ 31 - 1 ->
  center_spacing width_ nchars = centered width_ nchars
  /\ fst (center_spacing width_ nchars) + snd (center_spacing width_ nchars)
     = width_ - nchars
  /\ (Z.even width_ && Z.even nchars = true -> width_ = nchars ->
      center_spacing width_ nchars = (1, -1)).
Proof.
  intros Hn Hw.
  pose proof (center_spacing_centered width_ nchars Hn Hw) as Heq.
  split; [exact Heq|]. rewrite Heq. unfold centered. split.
  - pose proof (Zmod_even width_) as Hpw.
    pose proof (Zmod_even nchars) as Hpn.
    destruct (Z.even width_), (Z.even nchars); cbn [andb fst snd];
      Z.div_mod_to_equations; lia.
  - intros -> ->. rewrite Z.sub_diag. reflexivity.
Qed.

(** X17. The alignment [^] of [include/printf.hpp]: the counts add up to
    the padding and none is negative, and the leading one is the larger
    half.  When the width and the count of characters are both odd, and
    differ, the leading count is two more than the trailing one. *)
Theorem printf_center_spacing_split (width_ nchars : Z) :
  0 <= nchars <= width_ -> width_ < 2 ^ 31 - 1 ->
  printf_center_spacing width_ nchars = printf_centered width_ nchars
  /\ fst (printf_center_spacing width_ nchars)
     + snd (printf_center_spacing width_ nchars) = width_ - nchars
  /\ 0 <= snd (printf_center_spacing width_ nchars)
     <= fst (printf_center_spacing width_ nchars).
Proof.
  intros Hn Hw.
  pose proof (Zmod_even width_) as Hpw.
  pose proof (Zmod_even nchars) as Hpn.
  rewrite <- !Z.negb_odd in Hpw, Hpn.
  assert (Heq : printf_center_spacing width_ nchars
                = printf_centered width_ nchars).
  { unfold printf_center_spacing, printf_centered.
    rewrite (wrap32_id (nchars + 1)) by (unfold in_int32; lia).
    rewrite (wrap32_id (width_ + 1)) by (unfold in_int32; lia).
    rewrite !Z.quot_div_nonneg by lia.
    rewrite !wrap32_id by (unfold in_int32; Z.div_mod_to_equations; lia).
    destruct (width_ =? nchars) eqn:E.
    - apply Z.eqb_eq in E. subst nchars.
      rewrite andb_false_r, Z.sub_diag. reflexivity.
    - apply Z.eqb_neq in E. rewrite andb_true_r. cbn [negb].
      destruct (Z.odd width_), (Z.odd nchars); cbn [andb negb] in *;
        f_equal; Z.div_mod_to_equations; lia. }
  split; [exact Heq|]. rewrite Heq. unfold printf_centered.
  destruct (width_ =? nchars) eqn:E;
    [apply Z.eqb_eq in E | apply Z.eqb_neq in E];
    destruct (Z.odd width_), (Z.odd nchars); cbn [andb negb fst snd] in *;
    split; Z.div_mod_to_equations; lia.
Qed.

End SpacingFacts.

Section StringFacts.

Context `{Host}.

Lemma concat_padding (fill_ : ascii) (count : Z) :
  0 <= count < 2 ^ 32 ->
  concat (padding fill_ count) = repeat fill_ (Z.to_nat count).
Proof.
  intros Hc. unfold padding. rewrite Z.mod_small by lia.
  rewrite Z_N_nat.
  induction (Z.to_nat count) as [|n IH]; [reflexivity|].
  simpl. now rewrite IH.
Qed.

(** The text that [format_string] writes of a string: all of it, or as
    many characters as the precision says. *)
Lemma format_string_text (flags : FormatFlags) (str : list ascii) :
  let nchars :=
    if 0 <=? precision flags
    then Z.min (precision flags) (Z.of_nat (length str))
    else Z.of_nat (length str) in
  let text_ :=
    if 0 <=? precision flags then firstn (Z.to_nat (precision flags)) str
    else str in
  firstn (Z.to_nat nchars) str = text_
  /\ nchars = Z.of_nat (length text_).
Proof.
  cbv zeta. destruct (0 <=? precision flags) eqn:E.
  - apply Z.leb_le in E. rewrite length_firstn.
    destruct (Z.le_gt_cases (precision flags) (Z.of_nat (length str))).
    + rewrite Z.min_l by lia. split; [reflexivity | lia].
    + rewrite Z.min_r by lia. rewrite Nat2Z.id.
      rewrite !firstn_all2 by lia. split; [reflexivity | lia].
  - rewrite Nat2Z.id, firstn_all. now split.
Qed.

(** X18. A string under a spec that the parser accepts, with an alignment
    other than [^]: [format_value] succeeds, and the text written is the
    string, cut to the precision when there is one, with the fill
    character repeated up to the width, before the text when the alignment
    is [>] and after it otherwise.  A text longer than the width is
    written in full. *)
Theorem string_is_padded_to_width (o : Output) (fmt : list ascii)
    (flags : FormatFlags) (str : list ascii) :
  parse_format fmt = (true, flags) ->
  Ascii.eqb (align flags) "^" = false -> width flags < 2 ^ 32 ->
  let text_ :=
    if 0 <=? precision flags then firstn (Z.to_nat (precision flags)) str
    else str in
  let pad :=
    repeat (fill_char flags) (Z.to_nat (width flags) - length text_) in
  exists chunks,
    format_value o fmt (AStr str) = (true, writes o chunks)
    /\ concat chunks
       = if Ascii.eqb (align flags) ">" then pad ++ text_ else text_ ++ pad.
Proof.
  intros Hparse Hcenter Hwidth text_ pad.
  destruct (format_string_text flags str) as [Htext Hnchars].
  fold text_ in Htext, Hnchars.
  cbn [format_value]. unfold format_string. rewrite Hparse.
  cbn [negb]. rewrite Hcenter, Htext.
  set (nchars := if 0 <=? precision flags
                 then Z.min (precision flags) (Z.of_nat (length str))
                 else Z.of_nat (length str)) in *.
  assert (Hpad : Z.to_nat (Z.max (width flags) nchars - nchars)
                 = (Z.to_nat (width flags) - length text_)%nat) by lia.
  destruct (Ascii.eqb (align flags) ">").
  - exists (padding (fill_char flags) (Z.max (width flags) nchars - nchars)
            ++ [text_]).
    split.
    + rewrite !write_padding_writes.
      change (padding (fill_char flags) 0) with (@nil (list ascii)).
      now rewrite writes_app.
    + rewrite concat_app, concat_padding by lia.
      rewrite Hpad. simpl. now rewrite app_nil_r.
  - exists (text_
            :: padding (fill_char flags)
                 (Z.max (width flags) nchars - nchars)).
    split.
    + rewrite !write_padding_writes.
      change (padding (fill_char flags) 0) with (@nil (list ascii)).
      reflexivity.
    + cbn [concat]. rewrite concat_padding by lia. now rewrite Hpad.
Qed.

(** X19. A string under a spec with the alignment [^], when the text to
    write has an even count of characters and the width asks for no more
    (or is left out): [format_string] enters its loop of leading padding
    with the count 1 and its loop of trailing padding with the count -1. *)
Theorem centered_even_text_gets_negative_tail (o : Output)
    (fmt : list ascii) (flags : FormatFlags) (str : list ascii) :
  parse_format fmt = (true, flags) ->
  Ascii.eqb (align flags) "^" = true ->
  let text_ :=
    if 0 <=? precision flags then firstn (Z.to_nat (precision flags)) str
    else str in
  Z.even (Z.of_nat (length text_)) = true ->
  width flags <= Z.of_nat (length text_) < 2 ^ 31 - 1 ->
  format_value o fmt (AStr str)
  = (true,
     write_padding
       (write (write_padding o (fill_char flags) 1) text_)
       (fill_char flags) (-1)).
Proof.
  intros Hparse Hcenter text_ Heven Hwidth.
  destruct (format_string_text flags str) as [Htext Hnchars].
  fold text_ in Htext, Hnchars.
  cbn [format_value]. unfold format_string. rewrite Hparse.
  cbn [negb]. rewrite Hcenter, Htext, Hnchars.
  rewrite Z.max_r by lia.
  rewrite center_spacing_centered by lia.
  unfold centered. rewrite Heven, Z.sub_diag. reflexivity.
Qed.

(** X20. [format_index] formats the argument at the index, counted from 0,
    and fails, leaving the output as it is, when there is no such
    argument. *)
Theorem format_index_selects (o : Output) (format : list ascii) (idx : Z)
    (args : list Arg) :
  in_int32 idx -> Z.of_nat (length args) < 2 ^ 31 ->
  format_index o format idx args
  = if (0 <=? idx) && (idx <? Z.of_nat (length args))
    then format_value o format (nth (Z.to_nat idx) args ADummy)
    else (false, o).
Proof.
  intros Hidx Hargs.
  destruct (0 <=? idx) eqn:E0; destruct (idx <? Z.of_nat (length args)) eqn:E1;
    cbn [andb];
    try apply Z.leb_le in E0; try apply Z.leb_gt in E0;
    try apply Z.ltb_lt in E1; try apply Z.ltb_ge in E1.
  - apply format_index_nth; lia.
  - apply format_index_out_of_range; try assumption. now right.
  - apply format_index_out_of_range; try assumption. now left.
  - apply format_index_out_of_range; try assumption. now left.
Qed.

End StringFacts.

(** ** The type flag, and the two headers *)

Section DispatchFacts.

Context `{Host}.

(** X21. For an argument of a type of the library, [format_value] succeeds
    exactly when the spec parses: the type flag is not checked against the
    type of the argument, so that a string takes [d] and an integer takes
    [s]. *)
Theorem library_types_take_every_spec (o : Output) (fmt : list ascii)
    (arg : Arg) :
  is_library_type arg = true ->
  fst (format_value o fmt arg) = fst (parse_format fmt).
Proof.
  intros Harg.
  destruct arg as [b|v|v|v|v|v|v| |custom]; try discriminate Harg;
    cbn [format_value]; unfold format_string, format_float, format_int,
      format_int_with;
    destruct (parse_format fmt) as [[|] flags]; try reflexivity;
    cbn [negb fst];
    repeat destruct_pair; reflexivity.
Qed.


End DispatchFacts.

(** ** Examples of the further properties *)

Lemma format_on_failed_output_witness :
  let o := write (Output_stream {| accepted := []; room := 0 |}) (text "x") in
  m_length o < 0
  /\ format o (text "a{}") [AInt 1] = (-1, o).
Proof.
  intros o.
  assert (Hneg : m_length o < 0) by (vm_compute; reflexivity).
  split; [exact Hneg|].
  exact (format_on_failed_output o (text "a{}") [AInt 1] Hneg).
Defined.

Lemma zero_size_output_counts_witness :
  let chunks := [text "ab"; text "cde"] in
  requested chunks < 2 ^ 31
  /\ m_memory (writes (Output_buffer (fresh_buffer 4) 0) chunks)
     = fresh_buffer 4
  /\ result (writes (Output_buffer (fresh_buffer 4) 0) chunks) = 5.
Proof.
  intros chunks.
  assert (Hfit : requested chunks < 2 ^ 31) by (vm_compute; reflexivity).
  split; [exact Hfit|].
  exact (zero_size_output_counts (fresh_buffer 4) chunks Hfit).
Defined.

Lemma buffer_writes_compose_witness :
  let chunks := [text "ab"; text "cde"] in
  (1 <= 4 <= Z.of_nat (length (fresh_buffer 4)))
  /\ 4 < 2 ^ 31
  /\ requested chunks < 2 ^ 31
  /\ chunks <> []
  /\ writes (Output_buffer (fresh_buffer 4) 4) chunks
     = write (Output_buffer (fresh_buffer 4) 4) (text "abcde").
Proof.
  intros chunks.
  assert (H1 : 1 <= 4 <= Z.of_nat (length (fresh_buffer 4)))
    by (simpl; lia).
  assert (H2 : 4 < 2 ^ 31) by lia.
  assert (H3 : requested chunks < 2 ^ 31) by (vm_compute; reflexivity).
  assert (H4 : chunks <> []) by discriminate.
  split; [exact H1|]. split; [exact H2|]. split; [exact H3|].
  split; [exact H4|].
  exact (buffer_writes_compose (fresh_buffer 4) 4 chunks H1 H2 H3 H4).
Defined.

Lemma format_buffer_stays_in_bounds_witness :
  let memory :=
    snd (format_buffer (fresh_buffer 8) 4 (text "{}!") [AInt 12345]) in
  (1 <= 4 <= Z.of_nat (length (fresh_buffer 8)))
  /\ 4 < 2 ^ 31
  /\ length memory = 8%nat
  /\ skipn 4 memory = fresh_buffer 4
  /\ exists k, (k < 4)%nat /\ nth k memory "x" = zero.
Proof.
  intros memory.
  assert (H1 : 1 <= 4 <= Z.of_nat (length (fresh_buffer 8)))
    by (simpl; lia).
  assert (H2 : 4 < 2 ^ 31) by lia.
  split; [exact H1|]. split; [exact H2|].
  destruct (format_buffer_stays_in_bounds (fresh_buffer 8) 4 (text "{}!")
              [AInt 12345] H1 H2) as (Hlen & Hrest & Hzero).
  split; [exact Hlen|]. split; [exact Hrest|].
  apply Hzero. discriminate.
Defined.

Lemma trailing_open_brace_repeats_pending_witness :
  let o := Output_buffer (fresh_buffer 16) 16 in
  let items := [Literal (text "ab")] in
  well_formed items = true
  /\ snd (format o (text "ab{") [])
     = write (write o (text "ab")) (text "ab{").
Proof.
  intros o items.
  assert (Hwf : well_formed items = true) by reflexivity.
  split; [exact Hwf|].
  exact (trailing_open_brace_repeats_pending o items [] Hwf).
Defined.

Lemma unclosed_placeholder_is_literal_witness :
  let o := Output_buffer (fresh_buffer 16) 16 in
  let items := [Literal (text "a")] in
  well_formed items = true
  /\ brace_free (text "0:x") = true
  /\ text "0:x" <> []
  /\ snd (format o (text "a{0:x") [AInt 255])
     = write (write o (text "a")) (text "{0:x").
Proof.
  intros o items.
  assert (Hwf : well_formed items = true) by reflexivity.
  assert (Hb : brace_free (text "0:x") = true) by reflexivity.
  assert (Hne : text "0:x" <> []) by discriminate.
  split; [exact Hwf|]. split; [exact Hb|]. split; [exact Hne|].
  exact (unclosed_placeholder_is_literal o items (text "0:x") [AInt 255]
           Hwf Hb Hne).
Defined.

Lemma escapes_are_unescaped_witness :
  let items := [Literal (text "a"); OpenEscape; Literal (text "b");
                CloseEscape] in
  template_of items = text "a{{b}}"
  /\ well_formed items = true
  /\ forallb (fun it => negb (is_hole it)) items = true
  /\ (exists chunks,
        concat chunks = text "a{b}"
        /\ forall o args,
             snd (format o (text "a{{b}}") args) = writes o chunks)
  /\ fst (format_buffer (fresh_buffer 2) 2 (text "a{{b}}") []) = 4.
Proof.
  intros items.
  assert (Hwf : well_formed items = true) by reflexivity.
  assert (Hno : forallb (fun it => negb (is_hole it)) items = true)
    by reflexivity.
  split; [reflexivity|]. split; [exact Hwf|]. split; [exact Hno|].
  destruct (escapes_are_unescaped items Hwf Hno)
    as (chunks & Hconcat & Hformat & Hcount).
  split; [exists chunks; split; [exact Hconcat | exact Hformat]|].
  apply (Hcount ltac:(vm_compute; reflexivity) (fresh_buffer 2) 2 []).
Defined.

Lemma parse_format_accepts_grammar_witness :
  let s := {| sp_align := Some (Some "*", "<"); sp_sign := Some "+";
              sp_alternate := true; sp_width := text "12";
              sp_precision := Some (text "3"); sp_type := Some "x" |} in
  spec_text s = text "*<+#12.3x"
  /\ spec_valid s = true
  /\ decimal (sp_width s) < 2 ^ 31
  /\ decimal (precision_digits (sp_precision s)) < 2 ^ 31
  /\ parse_format (text "*<+#12.3x")
     = (true,
        {| fill := "*"; align := "<"; sign := "+"; alternate := true;
           width := 12; precision := 3; type := "x" |}).
Proof.
  intros s.
  assert (Hvalid : spec_valid s = true) by reflexivity.
  assert (HW : decimal (sp_width s) < 2 ^ 31) by (vm_compute; reflexivity).
  assert (HP : decimal (precision_digits (sp_precision s)) < 2 ^ 31)
    by (vm_compute; reflexivity).
  split; [reflexivity|]. split; [exact Hvalid|]. split; [exact HW|].
  split; [exact HP|].
  exact (parse_format_accepts_grammar s Hvalid HW HP).
Defined.

Lemma parse_format_rejects_text_after_type_witness :
  let s := {| sp_align := None; sp_sign := None; sp_alternate := false;
              sp_width := text "4"; sp_precision := None;
              sp_type := Some "d" |} in
  spec_valid s = true
  /\ decimal (sp_width s) < 2 ^ 31
  /\ decimal (precision_digits (sp_precision s)) < 2 ^ 31
  /\ sp_type s <> None
  /\ isAlign "5" = false
  /\ fst (parse_format (text "4d5")) = false.
Proof.
  intros s.
  assert (Hvalid : spec_valid s = true) by reflexivity.
  assert (HW : decimal (sp_width s) < 2 ^ 31) by (vm_compute; reflexivity).
  assert (HP : decimal (precision_digits (sp_precision s)) < 2 ^ 31)
    by (vm_compute; reflexivity).
  assert (HT : sp_type s <> None) by discriminate.
  assert (Hch : isAlign "5" = false) by reflexivity.
  split; [exact Hvalid|]. split; [exact HW|]. split; [exact HP|].
  split; [exact HT|]. split; [exact Hch|].
  exact (parse_format_rejects_text_after_type s "5" [] Hvalid HW HP HT Hch).
Defined.

Lemma accepted_spec_alphabet_witness :
  fst (parse_format (text "*<5")) = true
  /\ (0 < length (text "*<5"))%nat
  /\ (is_spec_char "*" = true \/ (0%nat = 0%nat /\ isAlign "<" = true)).
Proof.
  assert (Hok : fst (parse_format (text "*<5")) = true) by reflexivity.
  assert (Hk : (0 < length (text "*<5"))%nat) by (simpl; lia).
  split; [exact Hok|]. split; [exact Hk|].
  exact (accepted_spec_alphabet (text "*<5") 0 Hok Hk).
Defined.



Lemma center_spacing_split_witness :
  0 <= 4 <= 6 /\ 6 < 2 ^ 31 - 1 /\ center_spacing 6 4 = (2, 0)
  /\ 0 <= 2 <= 2 /\ center_spacing 2 2 = (1, -1).
Proof.
  assert (H1 : 0 <= 4 <= 6) by lia.
  assert (H2 : 6 < 2 ^ 31 - 1) by lia.
  assert (H3 : 0 <= 2 <= 2) by lia.
  assert (H4 : 2 < 2 ^ 31 - 1) by lia.
  split; [exact H1|]. split; [exact H2|].
  split; [exact (proj1 (center_spacing_split 6 4 H1 H2))|].
  split; [exact H3|].
  exact (proj2 (proj2 (center_spacing_split 2 2 H3 H4)) eq_refl eq_refl).
Defined.

Lemma printf_center_spacing_split_witness :
  0 <= 3 <= 7 /\ 7 < 2 ^ 31 - 1 /\ printf_center_spacing 7 3 = (3, 1).
Proof.
  assert (H1 : 0 <= 3 <= 7) by lia.
  assert (H2 : 7 < 2 ^ 31 - 1) by lia.
  split; [exact H1|]. split; [exact H2|].
  exact (proj1 (printf_center_spacing_split 7 3 H1 H2)).
Defined.

Lemma string_is_padded_to_width_witness :
  let o := Output_buffer (fresh_buffer 16) 16 in
  let flags := {| fill := "*"; align := ">"; sign := zero;
                  alternate := false; width := 6; precision := 3;
                  type := zero |} in
  parse_format (text "*>6.3") = (true, flags)
  /\ Ascii.eqb (align flags) "^" = false
  /\ width flags < 2 ^ 32
  /\ exists chunks,
       format_value o (text "*>6.3") (AStr (text "ballet"))
       = (true, writes o chunks)
       /\ concat chunks = text "***bal".
Proof.
  intros o flags.
  assert (Hparse : parse_format (text "*>6.3") = (true, flags))
    by reflexivity.
  assert (Hcenter : Ascii.eqb (align flags) "^" = false) by reflexivity.
  assert (Hwidth : width flags < 2 ^ 32) by (simpl; lia).
  split; [exact Hparse|]. split; [exact Hcenter|]. split; [exact Hwidth|].
  exact (string_is_padded_to_width o (text "*>6.3") flags (text "ballet")
           Hparse Hcenter Hwidth).
Defined.

Lemma centered_even_text_gets_negative_tail_witness :
  let o := Output_buffer (fresh_buffer 16) 16 in
  let flags := set_align FormatFlags_default "^" in
  parse_format (text "^") = (true, flags)
  /\ Ascii.eqb (align flags) "^" = true
  /\ Z.even (Z.of_nat (length (text "ab"))) = true
  /\ width flags <= Z.of_nat (length (text "ab")) < 2 ^ 31 - 1
  /\ format_value o (text "^") (AStr (text "ab"))
     = (true,
        write_padding (write (write_padding o " " 1) (text "ab")) " " (-1)).
Proof.
  intros o flags.
  assert (Hparse : parse_format (text "^") = (true, flags)) by reflexivity.
  assert (Hcenter : Ascii.eqb (align flags) "^" = true) by reflexivity.
  assert (Heven : Z.even (Z.of_nat (length (text "ab"))) = true)
    by reflexivity.
  assert (Hwidth : width flags <= Z.of_nat (length (text "ab")) < 2 ^ 31 - 1)
    by (simpl; lia).
  split; [exact Hparse|]. split; [exact Hcenter|]. split; [exact Heven|].
  split; [exact Hwidth|].
  exact (centered_even_text_gets_negative_tail o (text "^") flags (text "ab")
           Hparse Hcenter Heven Hwidth).
Defined.

Lemma format_index_selects_witness :
  let o := Output_buffer (fresh_buffer 8) 8 in
  let args := [AInt 7; AStr (text "x")] in
  in_int32 1 /\ in_int32 2
  /\ Z.of_nat (length args) < 2 ^ 31
  /\ format_index o [] 1 args = format_value o [] (AStr (text "x"))
  /\ format_index o [] 2 args = (false, o).
Proof.
  intros o args.
  assert (H1 : in_int32 1) by (unfold in_int32; lia).
  assert (H2 : in_int32 2) by (unfold in_int32; lia).
  assert (Hargs : Z.of_nat (length args) < 2 ^ 31) by (simpl; lia).
  split; [exact H1|]. split; [exact H2|]. split; [exact Hargs|].
  split.
  - exact (format_index_selects o [] 1 args H1 Hargs).
  - exact (format_index_selects o [] 2 args H2 Hargs).
Defined.

Lemma library_types_take_every_spec_witness :
  let o := Output_buffer (fresh_buffer 8) 8 in
  is_library_type (AStr (text "x")) = true
  /\ fst (format_value o (text "d") (AStr (text "x"))) = true
  /\ fst (format_value o (text "c") (AInt 65)) = false.
Proof.
  intros o. split; [reflexivity|]. split.
  - exact (library_types_take_every_spec o (text "d") (AStr (text "x"))
             eq_refl).
  - exact (library_types_take_every_spec o (text "c") (AInt 65) eq_refl).
Defined.

